(** * Role hierarchy and permission resolution engine

    A shallow embedding of [role_management.py] (class [RoleManager]) and
    [role_configurator.py] (class [RoleConfigurator]).

    Both classes talk to the relational store through one method,
    [self.db.execute_query(sql, params, fetch)].  The embedding keeps that
    shape: the store is a record of tables, every SQL statement of the
    source is given its relational meaning as a function on those tables,
    and the Python methods are written in a small state-and-exception monad
    in which [try ... except Exception] is [try_except].

    Columns that no modelled statement reads or constrains (colours,
    icons, descriptions, creation timestamps, surrogate row ids of the
    mapping tables) are left out of the rows. *)

From stdpp Require Import base decidable option numbers list sorting strings pretty gmap sets.

Local Open Scope string_scope.
Local Open Scope Z_scope.

(** ** The store *)

Module Store.

(** Table [roles] (read by [RoleManager]). *)
Record role_row := {
  r_role_id : Z;
  r_role_name : string;
  r_priority : Z;
  r_is_system : bool;
  r_is_active : bool
}.

(** Table [permissions]. *)
Record permission_row := {
  p_permission_id : Z;
  p_permission_name : string
}.

(** Table [role_permissions]. *)
Record role_permission_row := {
  rp_role_id : Z;
  rp_permission_id : Z;
  rp_granted_by : option Z
}.

(** Table [user_roles]. *)
Record user_role_row := {
  ur_user_id : Z;
  ur_role_id : Z;
  ur_assigned_by : option Z;
  ur_expires_at : option Z;
  ur_is_active : bool
}.

(** Table [permission_audit]. *)
Record permission_audit_row := {
  pa_user_id : Z;
  pa_action : string;
  pa_target_type : string;
  pa_target_id : Z;
  pa_permission_used : string;
  pa_success : bool
}.

(** Table [role_hierarchy] (owned by [RoleConfigurator]); [role_id] is the
    primary key, [role_name] is unique, [parent_role_id] references
    [role_hierarchy(role_id)]. *)
Record hierarchy_row := {
  rh_role_id : Z;
  rh_role_name : string;
  rh_display_name : string;
  rh_parent_role_id : option Z;
  rh_level : Z;
  rh_priority : Z;
  rh_is_system : bool;
  rh_is_active : bool;
  rh_max_users : option Z;
  rh_auto_assign : bool;
  rh_inherit_permissions : bool;
  rh_created_by : option Z
}.

(** Table [permission_registry]; [permission_key] is unique. *)
Record registry_row := {
  pr_permission_id : Z;
  pr_permission_key : string
}.

(** Table [role_permissions_mapping]; [UNIQUE(role_id, permission_id)],
    [role_id] references [role_hierarchy]. *)
Record mapping_row := {
  rpm_role_id : Z;
  rpm_permission_id : Z;
  rpm_granted : bool;
  rpm_granted_by : option Z;
  rpm_expires_at : option Z
}.

(** The JSON payloads written to [role_audit_log]. *)
Inductive audit_value :=
| ParentRoleId (parent : option Z)        (* {'parent_role_id': ...} *)
| Permissions (keys : list string).       (* {'permissions': [...]} *)

(** Table [role_audit_log]. *)
Record role_audit_row := {
  al_action_type : string;
  al_role_id : option Z;
  al_changed_by : option Z;
  al_old_value : option audit_value;
  al_new_value : option audit_value;
  al_change_reason : option string
}.

(** The SQL statements issued by the two classes, one name per statement
    text. *)
Inductive statement :=
| Q_user_permissions      (* has_permission / get_user_permissions *)
| Q_user_max_priority     (* get_user_max_priority *)
| Q_active_role_by_name   (* assign_role_to_user *)
| Q_role_by_name          (* remove_role_from_user *)
| Q_existing_assignment   (* assign_role_to_user *)
| Q_insert_user_role      (* assign_role_to_user *)
| Q_deactivate_user_role  (* remove_role_from_user *)
| Q_insert_permission_audit (* _log_permission_action *)
| Q_expire_user_roles     (* cleanup_expired_roles *)
| Q_role_inheritance      (* RoleConfigurator.get_role_permissions *)
| Q_insert_role           (* create_role *)
| Q_lookup_permissions    (* assign_permissions_to_role *)
| Q_upsert_mapping        (* assign_permissions_to_role *)
| Q_old_parent            (* update_role_hierarchy *)
| Q_update_parent         (* update_role_hierarchy *)
| Q_parent_chain          (* _would_create_cycle *)
| Q_update_levels         (* _update_role_levels *)
| Q_insert_role_audit.    (* _log_role_action *)

#[global] Instance statement_eq_dec : EqDecision statement.
Proof. solve_decision. Defined.

(** What [execute_query(..., fetch=True)] hands back.  [RoleManager] reads
    results through the pandas interface ([.empty], [.iloc]);
    [RoleConfigurator] also accepts a plain list of row tuples, and some of
    its methods only work on that. *)
Inductive shape := Frame | Rows.

Inductive exn :=
| StoreError        (* raised by the store itself *)
| IntegrityError    (* unique or foreign-key violation *)
| SyntaxError       (* malformed statement *)
| AttributeError
| ValueError
| TypeError
| IndexError
| KeyError.

(** The store.  Of [user_roles] the source only has the declaration that
    follows the bare [return] of [init_role_tables], which is never run;
    whether the table carries the [UNIQUE(user_id, role_id)] written there
    is a parameter of the store, [db_user_roles_unique]. *)
Record Db := {
  db_shape : shape;
  db_fault : statement → bool;     (* statements on which the store raises *)
  db_now : Z;                      (* CURRENT_TIMESTAMP *)
  db_users : list Z;               (* users(user_id) *)
  db_roles : list role_row;
  db_permissions : list permission_row;
  db_role_permissions : list role_permission_row;
  db_user_roles : list user_role_row;
  db_user_roles_unique : bool;     (* UNIQUE(user_id, role_id) on user_roles *)
  db_permission_audit : list permission_audit_row;
  db_role_hierarchy : list hierarchy_row;
  db_next_role_id : Z;             (* sequence behind role_hierarchy.role_id *)
  db_permission_registry : list registry_row;
  db_role_permissions_mapping : list mapping_row;
  db_role_audit_log : list role_audit_row
}.

Definition set_user_roles (v : list user_role_row) (db : Db) : Db :=
  {| db_shape := db_shape db; db_fault := db_fault db; db_now := db_now db;
     db_users := db_users db; db_roles := db_roles db;
     db_permissions := db_permissions db;
     db_role_permissions := db_role_permissions db;
     db_user_roles := v;
     db_user_roles_unique := db_user_roles_unique db;
     db_permission_audit := db_permission_audit db;
     db_role_hierarchy := db_role_hierarchy db;
     db_next_role_id := db_next_role_id db;
     db_permission_registry := db_permission_registry db;
     db_role_permissions_mapping := db_role_permissions_mapping db;
     db_role_audit_log := db_role_audit_log db |}.

Definition set_permission_audit (v : list permission_audit_row) (db : Db) : Db :=
  {| db_shape := db_shape db; db_fault := db_fault db; db_now := db_now db;
     db_users := db_users db; db_roles := db_roles db;
     db_permissions := db_permissions db;
     db_role_permissions := db_role_permissions db;
     db_user_roles := db_user_roles db;
     db_user_roles_unique := db_user_roles_unique db;
     db_permission_audit := v;
     db_role_hierarchy := db_role_hierarchy db;
     db_next_role_id := db_next_role_id db;
     db_permission_registry := db_permission_registry db;
     db_role_permissions_mapping := db_role_permissions_mapping db;
     db_role_audit_log := db_role_audit_log db |}.

Definition set_role_hierarchy (v : list hierarchy_row) (db : Db) : Db :=
  {| db_shape := db_shape db; db_fault := db_fault db; db_now := db_now db;
     db_users := db_users db; db_roles := db_roles db;
     db_permissions := db_permissions db;
     db_role_permissions := db_role_permissions db;
     db_user_roles := db_user_roles db;
     db_user_roles_unique := db_user_roles_unique db;
     db_permission_audit := db_permission_audit db;
     db_role_hierarchy := v;
     db_next_role_id := db_next_role_id db;
     db_permission_registry := db_permission_registry db;
     db_role_permissions_mapping := db_role_permissions_mapping db;
     db_role_audit_log := db_role_audit_log db |}.

Definition set_next_role_id (v : Z) (db : Db) : Db :=
  {| db_shape := db_shape db; db_fault := db_fault db; db_now := db_now db;
     db_users := db_users db; db_roles := db_roles db;
     db_permissions := db_permissions db;
     db_role_permissions := db_role_permissions db;
     db_user_roles := db_user_roles db;
     db_user_roles_unique := db_user_roles_unique db;
     db_permission_audit := db_permission_audit db;
     db_role_hierarchy := db_role_hierarchy db;
     db_next_role_id := v;
     db_permission_registry := db_permission_registry db;
     db_role_permissions_mapping := db_role_permissions_mapping db;
     db_role_audit_log := db_role_audit_log db |}.

Definition set_role_permissions_mapping (v : list mapping_row) (db : Db) : Db :=
  {| db_shape := db_shape db; db_fault := db_fault db; db_now := db_now db;
     db_users := db_users db; db_roles := db_roles db;
     db_permissions := db_permissions db;
     db_role_permissions := db_role_permissions db;
     db_user_roles := db_user_roles db;
     db_user_roles_unique := db_user_roles_unique db;
     db_permission_audit := db_permission_audit db;
     db_role_hierarchy := db_role_hierarchy db;
     db_next_role_id := db_next_role_id db;
     db_permission_registry := db_permission_registry db;
     db_role_permissions_mapping := v;
     db_role_audit_log := db_role_audit_log db |}.

Definition set_role_audit_log (v : list role_audit_row) (db : Db) : Db :=
  {| db_shape := db_shape db; db_fault := db_fault db; db_now := db_now db;
     db_users := db_users db; db_roles := db_roles db;
     db_permissions := db_permissions db;
     db_role_permissions := db_role_permissions db;
     db_user_roles := db_user_roles db;
     db_user_roles_unique := db_user_roles_unique db;
     db_permission_audit := db_permission_audit db;
     db_role_hierarchy := db_role_hierarchy db;
     db_next_role_id := db_next_role_id db;
     db_permission_registry := db_permission_registry db;
     db_role_permissions_mapping := db_role_permissions_mapping db;
     db_role_audit_log := v |}.

(** *** The monad of the Python methods

    A computation runs against the store and either returns a value or
    raises; in both cases the statements already executed have taken
    effect, so both outcomes carry the store. *)

Inductive res (A : Type) :=
| Ok (a : A) (db : Db)
| Raise (e : exn) (db : Db).
Arguments Ok {A} a db.
Arguments Raise {A} e db.

Definition M (A : Type) : Type := Db → res A.

#[global] Instance M_ret : MRet M := λ A a db, Ok a db.
#[global] Instance M_bind : MBind M := λ A B f m db,
  match m db with
  | Ok a db' => f a db'
  | Raise e db' => Raise e db'
  end.

Definition raise {A} (e : exn) : M A := λ db, Raise e db.

(** [try: body except Exception: handler] *)
Definition try_except {A} (body : M A) (handler : M A) : M A := λ db,
  match body db with
  | Ok a db' => Ok a db'
  | Raise _ db' => handler db'
  end.

(** The result object of a fetching [execute_query]. *)
Inductive result (A : Type) :=
| DataFrame (rows : list A)
| RowList (rows : list A).
Arguments DataFrame {A} rows.
Arguments RowList {A} rows.

Definition wrap {A} (s : shape) (rows : list A) : result A :=
  match s with Frame => DataFrame rows | Rows => RowList rows end.

Definition is_nil {A} (l : list A) : bool :=
  match l with [] => true | _ => false end.

(** [result.empty] *)
Definition df_empty {A} (r : result A) : M bool :=
  match r with
  | DataFrame rows => mret (is_nil rows)
  | RowList _ => raise AttributeError
  end.

(** [result.iloc[0]] *)
Definition iloc0 {A} (r : result A) : M A :=
  match r with
  | DataFrame (x :: _) => mret x
  | DataFrame [] => raise IndexError
  | RowList _ => raise AttributeError
  end.

(** [result['column'].tolist()] *)
Definition tolist {A} (r : result A) : M (list A) :=
  match r with
  | DataFrame rows => mret rows
  | RowList _ => raise TypeError
  end.

(** The truth value of a result, as in [if result:] and [if not result:].
    A list is true when it is not empty; pandas refuses to give a
    DataFrame a truth value. *)
Definition truthy {A} (r : result A) : M bool :=
  match r with
  | DataFrame _ => raise ValueError
  | RowList rows => mret (negb (is_nil rows))
  end.

(** [len(result)] *)
Definition len {A} (r : result A) : nat :=
  match r with DataFrame rows | RowList rows => length rows end.

(** [hasattr(result, 'empty')] and [isinstance(result, list)] *)
Definition hasattr_empty {A} (r : result A) : bool :=
  match r with DataFrame _ => true | RowList _ => false end.
Definition isinstance_list {A} (r : result A) : bool :=
  match r with DataFrame _ => false | RowList _ => true end.

(** [result[0]] on a list of rows *)
Definition item0 {A} (r : result A) : M A :=
  match r with
  | RowList (x :: _) => mret x
  | RowList [] => raise IndexError
  | DataFrame _ => raise KeyError
  end.

(** [execute_query(sql, params)] with [fetch=True].  [sem] is the meaning
    of the statement: the rows it returns and the store it leaves, or the
    exception it ends in.  Parameters are bound as they are passed.
    [DatabaseManager.execute_query] first drops from a text parameter
    every character outside letters, digits, [_], white space, [@], [.]
    and [-]: on such a store a name is looked up under what is left of it,
    while the methods go on comparing the name they were given. *)
Definition execute_query {A} (q : statement)
    (sem : Db → exn + (list A * Db)) : M (result A) := λ db,
  if db_fault db q then Raise StoreError db
  else match sem db with
       | inl e => Raise e db
       | inr (rows, db') => Ok (wrap (db_shape db) rows) db'
       end.

(** [execute_query(sql, params)] on an [INSERT ... RETURNING] whose key is
    drawn from a sequence.  [sem] also gives the store that a refused row
    leaves behind: the draw from the sequence is not undone. *)
Definition execute_query_returning {A} (q : statement)
    (sem : Db → (exn + list A) * Db) : M (result A) := λ db,
  if db_fault db q then Raise StoreError db
  else match sem db with
       | (inl e, db') => Raise e db'
       | (inr rows, db') => Ok (wrap (db_shape db) rows) db'
       end.

(** [execute_query(sql, params, fetch=False)]. *)
Definition execute_update (q : statement) (sem : Db → exn + Db) : M unit := λ db,
  if db_fault db q then Raise StoreError db
  else match sem db with
       | inl e => Raise e db
       | inr db' => Ok () db'
       end.

(** [expires_at IS NULL OR expires_at > CURRENT_TIMESTAMP] *)
Definition unexpired (now : Z) (expires_at : option Z) : bool :=
  match expires_at with
  | None => true
  | Some t => bool_decide (now < t)
  end.

(** A recursive common table expression with [UNION ALL]: the working
    table starts as the non-recursive term; the recursive term is applied
    to the working table until it comes out empty, and all working tables
    are appended.  A recursion that is still producing rows after [fuel]
    rounds is reported as [None]. *)
Fixpoint recursive_cte {A} (step : list A → list A) (fuel : nat)
    (work : list A) : option (list A) :=
  match work with
  | [] => Some []
  | _ =>
      match fuel with
      | O => None
      | S n => (work ++.) <$> recursive_cte step n (step work)
      end
  end.

(** *** Further statements

    The statements of the remaining methods.  Whether the store raises on
    one of them is not part of [db_fault]; the methods that issue them take
    it as a parameter. *)
Inductive further_statement :=
| Q_role_exists             (* create_custom_role *)
| Q_insert_custom_role      (* create_custom_role *)
| Q_permission_by_name      (* create_custom_role *)
| Q_insert_role_permission  (* create_custom_role *)
| Q_user_roles              (* get_user_roles *)
| Q_all_roles               (* get_all_roles *)
| Q_role_permissions        (* RoleManager.get_role_permissions *)
| Q_role_tree.              (* get_role_hierarchy *)

#[global] Instance further_statement_eq_dec : EqDecision further_statement.
Proof. solve_decision. Defined.

Definition set_roles (v : list role_row) (db : Db) : Db :=
  {| db_shape := db_shape db; db_fault := db_fault db; db_now := db_now db;
     db_users := db_users db; db_roles := v;
     db_permissions := db_permissions db;
     db_role_permissions := db_role_permissions db;
     db_user_roles := db_user_roles db;
     db_user_roles_unique := db_user_roles_unique db;
     db_permission_audit := db_permission_audit db;
     db_role_hierarchy := db_role_hierarchy db;
     db_next_role_id := db_next_role_id db;
     db_permission_registry := db_permission_registry db;
     db_role_permissions_mapping := db_role_permissions_mapping db;
     db_role_audit_log := db_role_audit_log db |}.

Definition set_role_permissions (v : list role_permission_row) (db : Db) : Db :=
  {| db_shape := db_shape db; db_fault := db_fault db; db_now := db_now db;
     db_users := db_users db; db_roles := db_roles db;
     db_permissions := db_permissions db;
     db_role_permissions := v;
     db_user_roles := db_user_roles db;
     db_user_roles_unique := db_user_roles_unique db;
     db_permission_audit := db_permission_audit db;
     db_role_hierarchy := db_role_hierarchy db;
     db_next_role_id := db_next_role_id db;
     db_permission_registry := db_permission_registry db;
     db_role_permissions_mapping := db_role_permissions_mapping db;
     db_role_audit_log := db_role_audit_log db |}.

(** [execute_query] on a further statement; [faulty] says whether the
    store raises on it. *)
Definition execute_further_query {A} (faulty : bool)
    (sem : Db → exn + (list A * Db)) : M (result A) := λ db,
  if faulty then Raise StoreError db
  else match sem db with
       | inl e => Raise e db
       | inr (rows, db') => Ok (wrap (db_shape db) rows) db'
       end.

Definition execute_further_update (faulty : bool) (sem : Db → exn + Db)
    : M unit := λ db,
  if faulty then Raise StoreError db
  else match sem db with
       | inl e => Raise e db
       | inr db' => Ok () db'
       end.

(** [ORDER BY key DESC].  Rows with equal keys come in an order the
    statement leaves open; the merge sort keeps them as they were. *)
Definition key_desc {A} (key : A → Z) : relation A := λ a b, key b ≤ key a.

#[global] Instance key_desc_dec {A} (key : A → Z) a b :
  Decision (key_desc key a b).
Proof. unfold key_desc. apply _. Defined.

Definition order_by_desc {A} (key : A → Z) (rows : list A) : list A :=
  merge_sort (key_desc key) rows.

End Store.

(** ** [role_management.py]: class [RoleManager] *)

Module RoleManager.
Import Store.

(** The dictionaries returned by the mutating methods:
    [{'success': True, 'message': m}] and [{'success': False, 'error': e}]. *)
Inductive outcome :=
| Success (message : string)
| Failure (error : string).

Definition success (o : outcome) : bool :=
  match o with Success _ => true | Failure _ => false end.

(** *** SQL statements *)

(** The user's assignments that pass
    [ur.user_id = %s AND ur.is_active = TRUE AND
     (ur.expires_at IS NULL OR ur.expires_at > CURRENT_TIMESTAMP)]. *)
Definition live_assignments (user_id : Z) (db : Db) : list user_role_row :=
  filter (λ ur, ur_user_id ur = user_id ∧ ur_is_active ur = true ∧
                unexpired (db_now db) (ur_expires_at ur) = true)
         (db_user_roles db).

(** [[
SELECT DISTINCT p.permission_name
FROM user_roles ur
JOIN roles r ON ur.role_id = r.role_id
JOIN role_permissions rp ON r.role_id = rp.role_id
JOIN permissions p ON rp.permission_id = p.permission_id
WHERE ur.user_id = %s AND ur.is_active = TRUE AND r.is_active = TRUE
AND (ur.expires_at IS NULL OR ur.expires_at > CURRENT_TIMESTAMP)
]] *)
Definition select_user_permissions (user_id : Z) (db : Db) : list string :=
  remove_dups (
    ur ← live_assignments user_id db;
    r ← filter (λ r, r_role_id r = ur_role_id ur ∧ r_is_active r = true)
               (db_roles db);
    rp ← filter (λ rp, rp_role_id rp = r_role_id r) (db_role_permissions db);
    p ← filter (λ p, p_permission_id p = rp_permission_id rp)
               (db_permissions db);
    [p_permission_name p]).

(** SQL [MAX]: [NULL] over no rows. *)
Definition sql_max (l : list Z) : option Z :=
  foldr (λ x acc, Some (match acc with None => x | Some m => Z.max x m end))
        None l.

(** [[
SELECT MAX(r.priority) as max_priority
FROM user_roles ur JOIN roles r ON ur.role_id = r.role_id
WHERE ur.user_id = %s AND ur.is_active = TRUE AND r.is_active = TRUE
AND (ur.expires_at IS NULL OR ur.expires_at > CURRENT_TIMESTAMP)
]]
    An aggregate without [GROUP BY] returns exactly one row. *)
Definition select_user_max_priority (user_id : Z) (db : Db) : list (option Z) :=
  [sql_max (
    ur ← live_assignments user_id db;
    r ← filter (λ r, r_role_id r = ur_role_id ur ∧ r_is_active r = true)
               (db_roles db);
    [r_priority r])].

(** [SELECT role_id, priority FROM roles
     WHERE role_name = %s AND is_active = TRUE] *)
Definition select_active_role_by_name (role_name : string) (db : Db)
    : list (Z * Z) :=
  (λ r, (r_role_id r, r_priority r)) <$>
    filter (λ r, r_role_name r = role_name ∧ r_is_active r = true) (db_roles db).

(** [SELECT r.role_id, r.priority, r.is_system FROM roles r
     WHERE r.role_name = %s] *)
Definition select_role_by_name (role_name : string) (db : Db)
    : list (Z * Z * bool) :=
  (λ r, (r_role_id r, r_priority r, r_is_system r)) <$>
    filter (λ r, r_role_name r = role_name) (db_roles db).

(** [SELECT id FROM user_roles
     WHERE user_id = %s AND role_id = %s AND is_active = TRUE] *)
Definition select_existing_assignment (user_id role_id : Z) (db : Db)
    : list user_role_row :=
  filter (λ ur, ur_user_id ur = user_id ∧ ur_role_id ur = role_id ∧
                ur_is_active ur = true)
         (db_user_roles db).

(** [INSERT INTO user_roles (user_id, role_id, assigned_by, expires_at)
     VALUES (%s, %s, %s, %s)]; [is_active] defaults to [TRUE].  The row is
    refused when it breaks one of the foreign keys to [users] and [roles]
    or, on a store whose table is [UNIQUE(user_id, role_id)], when the pair
    has a row already. *)
Definition insert_user_role (user_id role_id assigned_by : Z)
    (expires_at : option Z) (db : Db) : exn + Db :=
  if bool_decide (user_id ∈ db_users db) &&
     bool_decide (assigned_by ∈ db_users db) &&
     bool_decide (role_id ∈ (r_role_id <$> db_roles db)) &&
     (negb (db_user_roles_unique db) ||
      is_nil (filter (λ ur, ur_user_id ur = user_id ∧ ur_role_id ur = role_id)
                     (db_user_roles db)))
  then inr (set_user_roles
              (db_user_roles db ++
               [{| ur_user_id := user_id; ur_role_id := role_id;
                   ur_assigned_by := Some assigned_by;
                   ur_expires_at := expires_at; ur_is_active := true |}])
              db)
  else inl IntegrityError.

Definition deactivate (ur : user_role_row) : user_role_row :=
  {| ur_user_id := ur_user_id ur; ur_role_id := ur_role_id ur;
     ur_assigned_by := ur_assigned_by ur; ur_expires_at := ur_expires_at ur;
     ur_is_active := false |}.

(** [UPDATE user_roles SET is_active = FALSE
     WHERE user_id = %s AND role_id = %s AND is_active = TRUE] *)
Definition deactivate_user_role (user_id role_id : Z) (db : Db) : exn + Db :=
  inr (set_user_roles
         ((λ ur, if bool_decide (ur_user_id ur = user_id ∧
                                 ur_role_id ur = role_id ∧
                                 ur_is_active ur = true)
                 then deactivate ur else ur) <$> db_user_roles db)
         db).

(** [UPDATE user_roles SET is_active = FALSE
     WHERE expires_at < CURRENT_TIMESTAMP AND is_active = TRUE] *)
Definition expire_user_roles (db : Db) : exn + Db :=
  inr (set_user_roles
         ((λ ur, if match ur_expires_at ur with
                    | Some t => bool_decide (t < db_now db)
                    | None => false
                    end && ur_is_active ur
                 then deactivate ur else ur) <$> db_user_roles db)
         db).

(** [INSERT INTO permission_audit
     (user_id, action, target_type, target_id, permission_used, success)];
    [user_id] references [users]. *)
Definition insert_permission_audit (row : permission_audit_row) (db : Db)
    : exn + Db :=
  if bool_decide (pa_user_id row ∈ db_users db)
  then inr (set_permission_audit (db_permission_audit db ++ [row]) db)
  else inl IntegrityError.

(** *** Methods *)

Definition has_permission (user_id : Z) (permission : string) : M bool :=
  try_except
    (result ← execute_query Q_user_permissions
                (λ db, inr (select_user_permissions user_id db, db));
     empty ← df_empty result;
     if empty : bool then mret false
     else
       names ← tolist result;
       let user_permissions : gset string := list_to_set names in
       mret (bool_decide (permission ∈ user_permissions)))
    (mret false).

Definition get_user_permissions (user_id : Z) : M (gset string) :=
  try_except
    (result ← execute_query Q_user_permissions
                (λ db, inr (select_user_permissions user_id db, db));
     empty ← df_empty result;
     if empty : bool then mret ∅
     else
       names ← tolist result;
       mret (list_to_set names))
    (mret ∅).

Definition get_user_max_priority (user_id : Z) : M Z :=
  try_except
    (result ← execute_query Q_user_max_priority
                (λ db, inr (select_user_max_priority user_id db, db));
     empty ← df_empty result;
     if empty : bool then mret 0
     else
       max_priority ← iloc0 result;
       match max_priority with
       | None => mret 0
       | Some m => mret m
       end)
    (mret 0).

Definition _log_permission_action (user_id : Z) (action target_type : string)
    (target_id : Z) (permission_used : string) : M unit :=
  try_except
    (execute_update Q_insert_permission_audit
       (insert_permission_audit
          {| pa_user_id := user_id; pa_action := action;
             pa_target_type := target_type; pa_target_id := target_id;
             pa_permission_used := permission_used; pa_success := true |}))
    (mret ()).

Definition assign_role_to_user (assigner_id user_id : Z) (role_name : string)
    (expires_at : option Z) : M outcome :=
  try_except
    (allowed ← has_permission assigner_id "roles.assign";
     if negb allowed
     then mret (Failure "Insufficient permissions to assign roles")
     else
       role_result ← execute_query Q_active_role_by_name
                       (λ db, inr (select_active_role_by_name role_name db, db));
       empty ← df_empty role_result;
       if empty : bool then mret (Failure "Role not found")
       else
         '(role_id, role_priority) ← iloc0 role_result;
         assigner_max_priority ← get_user_max_priority assigner_id;
         if role_priority >=? assigner_max_priority
         then mret (Failure "Cannot assign role with equal or higher priority")
         else
           existing ← execute_query Q_existing_assignment
                        (λ db, inr (select_existing_assignment user_id role_id db, db));
           empty ← df_empty existing;
           if negb empty then mret (Failure "User already has this role")
           else
             execute_update Q_insert_user_role
               (insert_user_role user_id role_id assigner_id expires_at);;
             _log_permission_action assigner_id "role_assigned" "user"
               user_id "roles.assign";;
             mret (Success "Role assigned successfully"))
    (mret (Failure "Internal error assigning role")).

Definition remove_role_from_user (remover_id user_id : Z) (role_name : string)
    : M outcome :=
  try_except
    (allowed ← has_permission remover_id "roles.assign";
     if negb allowed
     then mret (Failure "Insufficient permissions to remove roles")
     else
       role_result ← execute_query Q_role_by_name
                       (λ db, inr (select_role_by_name role_name db, db));
       empty ← df_empty role_result;
       if empty : bool then mret (Failure "Role not found")
       else
         '(role_id, role_priority, is_system) ← iloc0 role_result;
         blocked ←
           (if is_system && bool_decide (role_name ∈ ["owner"; "admin"])
            then
              remover_max_priority ← get_user_max_priority remover_id;
              mret (role_priority >=? remover_max_priority)
            else mret false);
         if blocked : bool
         then mret (Failure "Cannot remove system role with equal or higher priority")
         else
           execute_update Q_deactivate_user_role
             (deactivate_user_role user_id role_id);;
           _log_permission_action remover_id "role_removed" "user"
             user_id "roles.assign";;
           mret (Success "Role removed successfully"))
    (mret (Failure "Internal error removing role")).

Definition cleanup_expired_roles : M unit :=
  try_except
    (execute_update Q_expire_user_roles expire_user_roles)
    (mret ()).

(** *** Further methods *)

(** The keys of [self.ALL_PERMISSIONS]. *)
Definition ALL_PERMISSIONS : list string :=
  ["users.view"; "users.edit"; "users.delete"; "users.ban"; "users.promote";
   "trading.basic"; "trading.advanced"; "trading.admin"; "currency.grant";
   "currency.adjust"; "characters.view"; "characters.edit";
   "characters.create"; "characters.delete"; "characters.values";
   "content.moderate"; "content.delete"; "reports.handle"; "chat.moderate";
   "analytics.view"; "analytics.export"; "logs.view"; "logs.admin";
   "system.settings"; "system.maintenance"; "system.backup";
   "database.access"; "roles.view"; "roles.edit"; "roles.create";
   "roles.delete"; "roles.assign"; "achievements.manage"; "events.create";
   "events.manage"; "security.audit"; "security.manage"; "ip.ban";
   "notifications.send"; "announcements.create"; "messages.admin"].

(** The dictionary returned by [create_custom_role]:
    [{'success': True, 'role_id': id, 'message': m}] or
    [{'success': False, 'error': e}]. *)
Inductive creation :=
| Created (role_id : Z) (message : string)
| NotCreated (error : string).

(** The dictionaries listed by [get_user_roles] and [get_all_roles]. *)
Record user_role_info := {
  uri_name : string;
  uri_priority : Z;
  uri_expires_at : option Z;
  uri_is_active : bool
}.

Record role_info := {
  ri_id : Z;
  ri_name : string;
  ri_priority : Z;
  ri_is_system : bool
}.

Definition double_quote : string := String (Ascii.ascii_of_nat 34) EmptyString.

(** [SELECT role_id FROM roles WHERE role_name = %s] *)
Definition select_role_exists (role_name : string) (db : Db) : list Z :=
  r_role_id <$> filter (λ r, r_role_name r = role_name) (db_roles db).

(** [SELECT permission_id FROM permissions WHERE permission_name = %s] *)
Definition select_permission_by_name (perm_name : string) (db : Db) : list Z :=
  p_permission_id <$>
    filter (λ p, p_permission_name p = perm_name) (db_permissions db).

(** [INSERT INTO role_permissions (role_id, permission_id, granted_by)
     VALUES (%s, %s, %s)]; refused when it breaks
    [UNIQUE(role_id, permission_id)] or a foreign key to [roles],
    [permissions] or [users]. *)
Definition insert_role_permission (role_id permission_id granted_by : Z)
    (db : Db) : exn + Db :=
  if bool_decide (role_id ∈ (r_role_id <$> db_roles db)) &&
     bool_decide (permission_id ∈ (p_permission_id <$> db_permissions db)) &&
     bool_decide (granted_by ∈ db_users db) &&
     is_nil (filter (λ rp, rp_role_id rp = role_id ∧
                           rp_permission_id rp = permission_id)
                    (db_role_permissions db))
  then inr (set_role_permissions
              (db_role_permissions db ++
               [{| rp_role_id := role_id; rp_permission_id := permission_id;
                   rp_granted_by := Some granted_by |}])
              db)
  else inl IntegrityError.

(** [[
SELECT r.role_name, r.display_name, r.description, r.color, r.priority,
       ur.assigned_at, ur.expires_at, ur.is_active
FROM user_roles ur JOIN roles r ON ur.role_id = r.role_id
WHERE ur.user_id = %s
ORDER BY r.priority DESC
]] *)
Definition select_user_roles (user_id : Z) (db : Db) : list user_role_info :=
  order_by_desc uri_priority (
    ur ← filter (λ ur, ur_user_id ur = user_id) (db_user_roles db);
    r ← filter (λ r, r_role_id r = ur_role_id ur) (db_roles db);
    [{| uri_name := r_role_name r; uri_priority := r_priority r;
        uri_expires_at := ur_expires_at ur;
        uri_is_active := ur_is_active ur |}]).

(** [[
SELECT role_id, role_name, display_name, description, color, priority,
       is_system, is_active, created_at
FROM roles WHERE is_active = TRUE ORDER BY priority DESC
]]
    of which the method keeps every column but [is_active]. *)
Definition select_all_roles (db : Db) : list role_info :=
  order_by_desc ri_priority (
    (λ r, {| ri_id := r_role_id r; ri_name := r_role_name r;
             ri_priority := r_priority r; ri_is_system := r_is_system r |}) <$>
      filter (λ r, r_is_active r = true) (db_roles db)).

(** [[
SELECT p.permission_name
FROM roles r
JOIN role_permissions rp ON r.role_id = rp.role_id
JOIN permissions p ON rp.permission_id = p.permission_id
WHERE r.role_name = %s AND r.is_active = TRUE
]] *)
Definition select_role_permissions (role_name : string) (db : Db) : list string :=
  r ← filter (λ r, r_role_name r = role_name ∧ r_is_active r = true)
             (db_roles db);
  rp ← filter (λ rp, rp_role_id rp = r_role_id r) (db_role_permissions db);
  p ← filter (λ p, p_permission_id p = rp_permission_id rp) (db_permissions db);
  [p_permission_name p].

Fixpoint for_each {A} (l : list A) (body : A → M unit) : M unit :=
  match l with
  | [] => mret ()
  | x :: l' => body x;; for_each l' body
  end.

Section further.

(** The statements among the further ones on which the store raises, and
    the id the store draws for a new row of [roles] (the declaration of
    that table, and with it the sequence behind [role_id], is not part of
    the source). *)
Variable further_fault : further_statement → bool.
Variable roles_sequence : Db → Z.

(** [[
INSERT INTO roles
(role_name, display_name, description, color, priority, is_system, created_by)
VALUES (%s, %s, %s, %s, %s, %s, %s) RETURNING role_id
]]
    with [is_system = False]; [is_active] takes its default.  [role_id] is
    the key of the table and [role_name] is unique (it is the conflict
    target of [_create_default_role]). *)
Definition insert_custom_role (role_name : string) (priority : Z) (db : Db)
    : exn + (list Z * Db) :=
  let role_id := roles_sequence db in
  if bool_decide (role_id ∉ (r_role_id <$> db_roles db)) &&
     bool_decide (role_name ∉ (r_role_name <$> db_roles db))
  then inr ([role_id],
            set_roles
              (db_roles db ++
               [{| r_role_id := role_id; r_role_name := role_name;
                   r_priority := priority; r_is_system := false;
                   r_is_active := true |}])
              db)
  else inl IntegrityError.

(** [create_custom_role(creator_id, role_name, display_name, description,
    permissions, color, priority)]; [description] and [color] only fill
    columns that are not modelled. *)
Definition create_custom_role (creator_id : Z) (role_name display_name : string)
    (permissions : list string) (priority : Z) : M creation :=
  try_except
    (allowed ← has_permission creator_id "roles.create";
     if negb allowed
     then mret (NotCreated "Insufficient permissions to create roles")
     else if bool_decide (role_name = "") ||
             bool_decide (String.length role_name < 2)%nat
     then mret (NotCreated "Role name must be at least 2 characters")
     else
       existing ← execute_further_query (further_fault Q_role_exists)
                    (λ db, inr (select_role_exists role_name db, db));
       empty ← df_empty existing;
       if negb empty then mret (NotCreated "Role name already exists")
       else
         let valid_perms :=
           filter (λ perm, perm ∈ ALL_PERMISSIONS) permissions in
         result ← execute_further_query (further_fault Q_insert_custom_role)
                    (insert_custom_role role_name priority);
         empty ← df_empty result;
         if empty : bool then mret (NotCreated "Failed to create role")
         else
           role_id ← iloc0 result;
           for_each valid_perms (λ perm_name,
             perm_result ← execute_further_query
                             (further_fault Q_permission_by_name)
                             (λ db, inr (select_permission_by_name perm_name db, db));
             empty ← df_empty perm_result;
             if empty : bool then mret ()
             else
               perm_id ← iloc0 perm_result;
               execute_further_update (further_fault Q_insert_role_permission)
                 (insert_role_permission role_id perm_id creator_id));;
           _log_permission_action creator_id "role_created" "role" role_id
             "roles.create";;
           mret (Created role_id
                   ("Custom role " +:+ double_quote +:+ display_name +:+
                    double_quote +:+ " created successfully")))
    (mret (NotCreated "Internal error creating role")).

Definition get_user_roles (user_id : Z) : M (list user_role_info) :=
  try_except
    (result ← execute_further_query (further_fault Q_user_roles)
                (λ db, inr (select_user_roles user_id db, db));
     empty ← df_empty result;
     if empty : bool then mret []
     else tolist result)                       (* one dictionary per row *)
    (mret []).

Definition get_all_roles : M (list role_info) :=
  try_except
    (result ← execute_further_query (further_fault Q_all_roles)
                (λ db, inr (select_all_roles db, db));
     empty ← df_empty result;
     if empty : bool then mret []
     else tolist result)
    (mret []).

Definition get_role_permissions (role_name : string) : M (list string) :=
  try_except
    (result ← execute_further_query (further_fault Q_role_permissions)
                (λ db, inr (select_role_permissions role_name db, db));
     empty ← df_empty result;
     if empty : bool then mret []
     else tolist result)
    (mret []).

End further.

End RoleManager.

(** ** [role_configurator.py]: class [RoleConfigurator] *)

Module RoleConfigurator.
Import Store.

(** *** SQL statements *)

(** The rounds a recursive statement over [role_hierarchy] is given.
    [role_id] is the primary key, so every role has one parent pointer and
    a walk along parent pointers that has not ended after as many rounds as
    the table has rows is on a cycle and never ends. *)
Definition rounds (db : Db) : nat := S (length (db_role_hierarchy db)).

(** [[
WITH RECURSIVE role_inheritance AS (
    SELECT role_id, parent_role_id, inherit_permissions
    FROM role_hierarchy WHERE role_id = %s
  UNION ALL
    SELECT rh.role_id, rh.parent_role_id, rh.inherit_permissions
    FROM role_hierarchy rh
    JOIN role_inheritance ri ON rh.role_id = ri.parent_role_id
    WHERE ri.inherit_permissions = TRUE)
]] *)
Definition inheritance_row (rh : hierarchy_row) : Z * option Z * bool :=
  (rh_role_id rh, rh_parent_role_id rh, rh_inherit_permissions rh).

Definition role_inheritance_base (role_id : Z) (db : Db)
    : list (Z * option Z * bool) :=
  inheritance_row <$> filter (λ rh, rh_role_id rh = role_id) (db_role_hierarchy db).

Definition role_inheritance_step (db : Db) (work : list (Z * option Z * bool))
    : list (Z * option Z * bool) :=
  '(_, parent_role_id, inherit_permissions) ← work;
  inheritance_row <$>
    filter (λ rh, Some (rh_role_id rh) = parent_role_id ∧
                  inherit_permissions = true)
           (db_role_hierarchy db).

Definition role_inheritance (role_id : Z) (db : Db)
    : option (list (Z * option Z * bool)) :=
  recursive_cte (role_inheritance_step db) (rounds db)
    (role_inheritance_base role_id db).

(** [[
SELECT DISTINCT pr.permission_key
FROM role_inheritance ri
JOIN role_permissions_mapping rpm ON ri.role_id = rpm.role_id
JOIN permission_registry pr ON rpm.permission_id = pr.permission_id
WHERE rpm.granted = TRUE
AND (rpm.expires_at IS NULL OR rpm.expires_at > CURRENT_TIMESTAMP)
]] *)
Definition granted_keys (db : Db) (ri : list (Z * option Z * bool))
    : list string :=
  remove_dups (
    '(role_id, _, _) ← ri;
    rpm ← filter (λ rpm, rpm_role_id rpm = role_id ∧ rpm_granted rpm = true ∧
                         unexpired (db_now db) (rpm_expires_at rpm) = true)
                 (db_role_permissions_mapping db);
    pr ← filter (λ pr, pr_permission_id pr = rpm_permission_id rpm)
                (db_permission_registry db);
    [pr_permission_key pr]).

Definition select_role_permissions (role_id : Z) (db : Db)
    : exn + (list string * Db) :=
  match role_inheritance role_id db with
  | Some ri => inr (granted_keys db ri, db)
  | None => inl StoreError
  end.

(** The dictionary [role_data] of [create_role]; an absent key is [None]. *)
Record role_data := {
  rd_role_name : option string;
  rd_display_name : option string;
  rd_parent_role_id : option Z;
  rd_level : option Z;
  rd_priority : option Z;
  rd_max_users : option Z;
  rd_auto_assign : option bool;
  rd_inherit_permissions : option bool;
  rd_created_by : option Z
}.

Definition role_ids (db : Db) : list Z := rh_role_id <$> db_role_hierarchy db.

(** The foreign key [parent_role_id REFERENCES role_hierarchy(role_id)]:
    [NULL] or the id of a stored role. *)
Definition references_role (db : Db) (parent_role_id : option Z) : bool :=
  match parent_role_id with
  | Some p => bool_decide (p ∈ role_ids db)
  | None => true
  end.

(** [[
INSERT INTO role_hierarchy
(role_name, display_name, description, parent_role_id, level,
 color, icon, priority, max_users, auto_assign, inherit_permissions, created_by)
VALUES (...) RETURNING role_id
]]
    [role_id] is drawn from the sequence behind the column; [is_system]
    and [is_active] take their defaults.  The constraints are checked on
    the table with the new row in it, so a row may name itself as parent.
    The row is refused when its id or name is taken or its parent is
    missing; the id it drew is spent all the same. *)
Definition insert_role (role_name display_name : string)
    (parent_role_id : option Z) (level priority : Z) (max_users : option Z)
    (auto_assign inherit_permissions : bool) (created_by : option Z)
    (db : Db) : (exn + list Z) * Db :=
  let role_id := db_next_role_id db in
  let drawn := set_next_role_id (role_id + 1) db in
  let stored :=
    set_role_hierarchy
      (db_role_hierarchy db ++
       [{| rh_role_id := role_id; rh_role_name := role_name;
           rh_display_name := display_name;
           rh_parent_role_id := parent_role_id;
           rh_level := level; rh_priority := priority;
           rh_is_system := false; rh_is_active := true;
           rh_max_users := max_users; rh_auto_assign := auto_assign;
           rh_inherit_permissions := inherit_permissions;
           rh_created_by := created_by |}])
      drawn in
  if bool_decide (role_id ∉ role_ids db) &&
     bool_decide (role_name ∉ (rh_role_name <$> db_role_hierarchy db)) &&
     references_role stored parent_role_id
  then (inr [role_id], stored)
  else (inl IntegrityError, drawn).

(** [SELECT permission_id, permission_key FROM permission_registry
     WHERE permission_key IN (%s, ..., %s)]; with no keys the list between
    the brackets is empty and the statement does not parse. *)
Definition select_permissions_in (permission_keys : list string) (db : Db)
    : exn + (list (Z * string) * Db) :=
  match permission_keys with
  | [] => inl SyntaxError
  | _ => inr ((λ pr, (pr_permission_id pr, pr_permission_key pr)) <$>
                filter (λ pr, pr_permission_key pr ∈ permission_keys)
                       (db_permission_registry db),
              db)
  end.

Definition same_grant (role_id permission_id : Z) (rpm : mapping_row) : Prop :=
  rpm_role_id rpm = role_id ∧ rpm_permission_id rpm = permission_id.

#[global] Instance same_grant_dec role_id permission_id rpm :
  Decision (same_grant role_id permission_id rpm).
Proof. unfold same_grant. apply _. Defined.

(** [[
INSERT INTO role_permissions_mapping (role_id, permission_id, granted_by)
VALUES (%s, %s, %s)
ON CONFLICT (role_id, permission_id)
DO UPDATE SET granted = TRUE, granted_by = EXCLUDED.granted_by
]]
    A new row takes the defaults [granted = TRUE], [expires_at = NULL]. *)
Definition regrant (granted_by : option Z) (rpm : mapping_row) : mapping_row :=
  {| rpm_role_id := rpm_role_id rpm; rpm_permission_id := rpm_permission_id rpm;
     rpm_granted := true; rpm_granted_by := granted_by;
     rpm_expires_at := rpm_expires_at rpm |}.

Definition new_grant (role_id permission_id : Z) (granted_by : option Z)
    : mapping_row :=
  {| rpm_role_id := role_id; rpm_permission_id := permission_id;
     rpm_granted := true; rpm_granted_by := granted_by;
     rpm_expires_at := None |}.

Definition upsert_rows (role_id permission_id : Z) (granted_by : option Z)
    (tbl : list mapping_row) : list mapping_row :=
  if is_nil (filter (same_grant role_id permission_id) tbl)
  then tbl ++ [new_grant role_id permission_id granted_by]
  else (λ rpm, if decide (same_grant role_id permission_id rpm)
               then regrant granted_by rpm else rpm) <$> tbl.

Definition upsert_mapping (role_id permission_id : Z) (granted_by : option Z)
    (db : Db) : exn + Db :=
  if bool_decide (role_id ∈ role_ids db) &&
     bool_decide (permission_id ∈ (pr_permission_id <$> db_permission_registry db))
  then inr (set_role_permissions_mapping
              (upsert_rows role_id permission_id granted_by
                 (db_role_permissions_mapping db))
              db)
  else inl IntegrityError.

(** [SELECT parent_role_id FROM role_hierarchy WHERE role_id = %s] *)
Definition select_old_parent (role_id : Z) (db : Db) : list (option Z) :=
  rh_parent_role_id <$>
    filter (λ rh, rh_role_id rh = role_id) (db_role_hierarchy db).

Definition with_parent (parent : option Z) (rh : hierarchy_row) : hierarchy_row :=
  {| rh_role_id := rh_role_id rh; rh_role_name := rh_role_name rh;
     rh_display_name := rh_display_name rh; rh_parent_role_id := parent;
     rh_level := rh_level rh; rh_priority := rh_priority rh;
     rh_is_system := rh_is_system rh; rh_is_active := rh_is_active rh;
     rh_max_users := rh_max_users rh; rh_auto_assign := rh_auto_assign rh;
     rh_inherit_permissions := rh_inherit_permissions rh;
     rh_created_by := rh_created_by rh |}.

Definition with_level (level : Z) (rh : hierarchy_row) : hierarchy_row :=
  {| rh_role_id := rh_role_id rh; rh_role_name := rh_role_name rh;
     rh_display_name := rh_display_name rh;
     rh_parent_role_id := rh_parent_role_id rh;
     rh_level := level; rh_priority := rh_priority rh;
     rh_is_system := rh_is_system rh; rh_is_active := rh_is_active rh;
     rh_max_users := rh_max_users rh; rh_auto_assign := rh_auto_assign rh;
     rh_inherit_permissions := rh_inherit_permissions rh;
     rh_created_by := rh_created_by rh |}.

(** [UPDATE role_hierarchy
     SET parent_role_id = %s, updated_at = CURRENT_TIMESTAMP
     WHERE role_id = %s]; a row that would point at a missing parent is
    refused. *)
Definition reparent_rows (role_id : Z) (new_parent_id : option Z)
    (tbl : list hierarchy_row) : list hierarchy_row :=
  (λ rh, if decide (rh_role_id rh = role_id)
         then with_parent new_parent_id rh else rh) <$> tbl.

Definition update_parent (role_id : Z) (new_parent_id : option Z) (db : Db)
    : exn + Db :=
  if bool_decide (role_id ∈ role_ids db) &&
     negb (references_role db new_parent_id)
  then inl IntegrityError
  else inr (set_role_hierarchy
              (reparent_rows role_id new_parent_id (db_role_hierarchy db)) db).

(** [[
WITH RECURSIVE parent_chain AS (
    SELECT role_id, parent_role_id, 1 as depth
    FROM role_hierarchy WHERE role_id = %s
  UNION ALL
    SELECT rh.role_id, rh.parent_role_id, pc.depth + 1
    FROM role_hierarchy rh
    JOIN parent_chain pc ON rh.role_id = pc.parent_role_id
    WHERE pc.depth < 10  -- Prevent infinite recursion
)
SELECT role_id FROM parent_chain WHERE role_id = %s
]]
    with parameters [(new_parent_id, role_id)].  The depth bound ends the
    recursion by the tenth round ([parent_chain_rounds] below). *)
Definition parent_chain_base (start : Z) (db : Db) : list (Z * option Z * Z) :=
  (λ rh, (rh_role_id rh, rh_parent_role_id rh, 1)) <$>
    filter (λ rh, rh_role_id rh = start) (db_role_hierarchy db).

Definition parent_chain_step (db : Db) (work : list (Z * option Z * Z))
    : list (Z * option Z * Z) :=
  '(_, parent_role_id, depth) ← work;
  (λ rh, (rh_role_id rh, rh_parent_role_id rh, depth + 1)) <$>
    filter (λ rh, Some (rh_role_id rh) = parent_role_id ∧ depth < 10)
           (db_role_hierarchy db).

Definition parent_chain (start : Z) (db : Db) : option (list (Z * option Z * Z)) :=
  recursive_cte (parent_chain_step db) 10 (parent_chain_base start db).

Definition select_parent_chain (new_parent_id role_id : Z) (db : Db)
    : exn + (list Z * Db) :=
  match parent_chain new_parent_id db with
  | Some pc => inr (filter (λ id, id = role_id) ((λ row, row.1.1) <$> pc), db)
  | None => inl StoreError
  end.

(** [[
WITH RECURSIVE role_levels AS (
    SELECT role_id, 0 as new_level
    FROM role_hierarchy WHERE parent_role_id IS NULL
  UNION ALL
    SELECT rh.role_id, rl.new_level + 1
    FROM role_hierarchy rh
    JOIN role_levels rl ON rh.parent_role_id = rl.role_id)
UPDATE role_hierarchy SET level = role_levels.new_level
FROM role_levels WHERE role_hierarchy.role_id = role_levels.role_id
]] *)
Definition role_levels_base (db : Db) : list (Z * Z) :=
  (λ rh, (rh_role_id rh, 0)) <$>
    filter (λ rh, rh_parent_role_id rh = None) (db_role_hierarchy db).

Definition role_levels_step (db : Db) (work : list (Z * Z)) : list (Z * Z) :=
  '(role_id, new_level) ← work;
  (λ rh, (rh_role_id rh, new_level + 1)) <$>
    filter (λ rh, rh_parent_role_id rh = Some role_id) (db_role_hierarchy db).

Definition role_levels (db : Db) : option (list (Z * Z)) :=
  recursive_cte (role_levels_step db) (rounds db) (role_levels_base db).

Definition relevel (rl : list (Z * Z)) (rh : hierarchy_row) : hierarchy_row :=
  match filter (λ row, row.1 = rh_role_id rh) rl with
  | (_, new_level) :: _ => with_level new_level rh
  | [] => rh
  end.

Definition update_levels (db : Db) : exn + Db :=
  match role_levels db with
  | Some rl => inr (set_role_hierarchy (relevel rl <$> db_role_hierarchy db) db)
  | None => inl StoreError
  end.

(** [INSERT INTO role_audit_log
     (action_type, role_id, changed_by, old_value, new_value, change_reason)] *)
Definition insert_role_audit (row : role_audit_row) (db : Db) : exn + Db :=
  inr (set_role_audit_log (db_role_audit_log db ++ [row]) db).

(** *** Methods *)

(** [d['key']] on a dictionary argument. *)
Definition subscript {A} (v : option A) : M A :=
  match v with
  | Some a => mret a
  | None => raise KeyError
  end.

Fixpoint for_each {A} (l : list A) (body : A → M unit) : M unit :=
  match l with
  | [] => mret ()
  | x :: l' => body x;; for_each l' body
  end.

Definition _log_role_action (action_type : string) (role_id changed_by : option Z)
    (old_value new_value : option audit_value) (change_reason : option string)
    : M unit :=
  try_except
    (execute_update Q_insert_role_audit
       (insert_role_audit
          {| al_action_type := action_type; al_role_id := role_id;
             al_changed_by := changed_by; al_old_value := old_value;
             al_new_value := new_value; al_change_reason := change_reason |}))
    (mret ()).

Definition get_role_permissions (role_id : Z) : M (gset string) :=
  try_except
    (result ← execute_query Q_role_inheritance (select_role_permissions role_id);
     match result with
     | DataFrame rows =>                       (* hasattr(result, 'empty') *)
         if negb (is_nil rows) then mret (list_to_set rows)
         else mret ∅                           (* not a list either *)
     | RowList rows => mret (list_to_set rows)  (* isinstance(result, list) *)
     end)
    (mret ∅).

Definition create_role (role_data : role_data) : M (option Z) :=
  try_except
    (role_name ← subscript (rd_role_name role_data);
     display_name ← subscript (rd_display_name role_data);
     result ← execute_query_returning Q_insert_role
                (insert_role role_name display_name
                   (rd_parent_role_id role_data)
                   (default 0 (rd_level role_data))
                   (default 0 (rd_priority role_data))
                   (rd_max_users role_data)
                   (default false (rd_auto_assign role_data))
                   (default true (rd_inherit_permissions role_data))
                   (rd_created_by role_data));
     nonempty ← truthy result;
     if nonempty && bool_decide (0 < len result)%nat
     then
       role_id ← item0 result;
       _log_role_action "create_role" (Some role_id) (rd_created_by role_data)
         None None (Some ("Created role: " +:+ display_name));;
       mret (Some role_id)
     else mret None)
    (mret None).

(** [permission_mapping[row[1]] = row[0]] for every returned row. *)
Definition permission_mapping_of (rows : list (Z * string)) : gmap string Z :=
  foldl (λ m row, <[row.2 := row.1]> m) ∅ rows.

Definition assign_permissions_to_role (role_id : Z)
    (permission_keys : list string) (assigned_by : option Z) : M bool :=
  try_except
    (result ← execute_query Q_lookup_permissions
                (select_permissions_in permission_keys);
     nonempty ← truthy result;
     if negb nonempty then mret false
     else
       let permission_mapping :=
         match result with
         | DataFrame rows => permission_mapping_of rows   (* iterrows() *)
         | RowList rows => permission_mapping_of rows
         end in
       for_each permission_keys (λ perm_key,
         match permission_mapping !! perm_key with
         | Some permission_id =>
             execute_update Q_upsert_mapping
               (upsert_mapping role_id permission_id assigned_by)
         | None => mret ()
         end);;
       _log_role_action "assign_permissions" (Some role_id) assigned_by
         None (Some (Permissions permission_keys))
         (Some ("Assigned " +:+ pretty (length permission_keys) +:+
                " permissions"));;
       mret true)
    (mret false).

Definition _would_create_cycle (role_id new_parent_id : Z) : M bool :=
  try_except
    (result ← execute_query Q_parent_chain
                (select_parent_chain new_parent_id role_id);
     mret (bool_decide (0 < len result)%nat))
    (mret true).                               (* Assume cycle to be safe *)

Definition _update_role_levels : M unit :=
  try_except
    (execute_update Q_update_levels update_levels)
    (mret ()).

Definition update_role_hierarchy (role_id : Z) (new_parent_id : option Z)
    (updated_by : option Z) : M bool :=
  try_except
    (cycle ←
       match new_parent_id with                (* if new_parent_id and ... *)
       | Some p =>
           if bool_decide (p ≠ 0) then _would_create_cycle role_id p
           else mret false
       | None => mret false
       end;
     if cycle : bool then mret false
     else
       old_result ← execute_query Q_old_parent
                      (λ db, inr (select_old_parent role_id db, db));
       nonempty ← truthy old_result;
       old_parent ← (if nonempty : bool then item0 old_result else mret None);
       execute_update Q_update_parent (update_parent role_id new_parent_id);;
       _update_role_levels;;
       _log_role_action "update_hierarchy" (Some role_id) updated_by
         (Some (ParentRoleId old_parent)) (Some (ParentRoleId new_parent_id))
         (Some "Updated role hierarchy");;
       mret true)
    (mret false).

(** *** Further methods *)

(** Comparison of two [path] arrays: element by element, a proper prefix
    first. *)
Fixpoint path_le (p q : list Z) : bool :=
  match p, q with
  | [], _ => true
  | _ :: _, [] => false
  | x :: p', y :: q' =>
      bool_decide (x < y) || (bool_decide (x = y) && path_le p' q')
  end.

(** [[
WITH RECURSIVE role_tree AS (
    SELECT ..., ARRAY[role_id] as path, role_name as root_role
    FROM role_hierarchy WHERE parent_role_id IS NULL
  UNION ALL
    SELECT rh. ..., rt.path || rh.role_id, rt.root_role
    FROM role_hierarchy rh
    JOIN role_tree rt ON rh.parent_role_id = rt.role_id)
SELECT * FROM role_tree ORDER BY path
]] *)
Definition role_tree_base (db : Db) : list (hierarchy_row * list Z * string) :=
  (λ rh, (rh, [rh_role_id rh], rh_role_name rh)) <$>
    filter (λ rh, rh_parent_role_id rh = None) (db_role_hierarchy db).

Definition role_tree_step (db : Db)
    (work : list (hierarchy_row * list Z * string))
    : list (hierarchy_row * list Z * string) :=
  '(rt, path, root_role) ← work;
  (λ rh, (rh, (path ++ [rh_role_id rh])%list, root_role)) <$>
    filter (λ rh, rh_parent_role_id rh = Some (rh_role_id rt))
           (db_role_hierarchy db).

Definition path_order : relation (hierarchy_row * list Z * string) :=
  λ a b, path_le a.1.2 b.1.2 = true.

#[global] Instance path_order_dec a b : Decision (path_order a b).
Proof. unfold path_order. apply _. Defined.

Definition select_role_tree (db : Db)
    : exn + (list (hierarchy_row * list Z * string) * Db) :=
  match recursive_cte (role_tree_step db) (rounds db) (role_tree_base db) with
  | Some rows =>
      inr (merge_sort path_order rows, db)
  | None => inl StoreError
  end.

Section further.

Variable further_fault : further_statement → bool.

(** The records are the rows with their [path] and [root_role]. *)
Definition get_role_hierarchy : M (list (hierarchy_row * list Z * string)) :=
  try_except
    (result ← execute_further_query (further_fault Q_role_tree) select_role_tree;
     match result with
     | DataFrame rows =>                       (* hasattr(result, 'empty') *)
         if negb (is_nil rows) then mret rows  (* to_dict('records') *)
         else mret []
     | RowList rows =>                         (* elif result: *)
         if negb (is_nil rows) then mret rows
         else mret []
     end)
    (mret []).

End further.

End RoleConfigurator.

(** ** Vocabulary of the properties *)

Module Notions.
Import Store.

(** [permissions(R)]: [key] is registered and [role_id] has a mapping row
    for it that is granted and not expired. *)
Definition grants (db : Db) (role_id : Z) (key : string) : Prop :=
  ∃ rpm pr,
    rpm ∈ db_role_permissions_mapping db ∧ pr ∈ db_permission_registry db ∧
    rpm_role_id rpm = role_id ∧ rpm_granted rpm = true ∧
    unexpired (db_now db) (rpm_expires_at rpm) = true ∧
    pr_permission_id pr = rpm_permission_id rpm ∧
    pr_permission_key pr = key.

(** The user holds, by an assignment row of their own, a role that has a
    [role_permissions] row of its own for the permission. *)
Definition directly_granted (db : Db) (user_id : Z) (permission : string) : Prop :=
  ∃ ur r rp p,
    ur ∈ db_user_roles db ∧ ur_user_id ur = user_id ∧
    r ∈ db_roles db ∧ r_role_id r = ur_role_id ur ∧
    rp ∈ db_role_permissions db ∧ rp_role_id rp = r_role_id r ∧
    p ∈ db_permissions db ∧ p_permission_id p = rp_permission_id rp ∧
    p_permission_name p = permission.

(** The mapping rows of a (role, permission) pair. *)
Definition grant_rows (role_id permission_id : Z) (tbl : list mapping_row)
    : list mapping_row :=
  filter (RoleConfigurator.same_grant role_id permission_id) tbl.

(** A row is granted by [granted_by]. *)
Definition granted_by_row (granted_by : option Z) (rpm : mapping_row) : Prop :=
  rpm_granted rpm = true ∧ rpm_granted_by rpm = granted_by.

(** The rows a pair has once it was granted: a fresh row when it had none,
    its old rows re-granted otherwise. *)
Definition regranted (role_id : Z) (granted_by : option Z) (permission_id : Z)
    (tbl : list mapping_row) : list mapping_row :=
  if is_nil (grant_rows role_id permission_id tbl)
  then [RoleConfigurator.new_grant role_id permission_id granted_by]
  else RoleConfigurator.regrant granted_by <$> grant_rows role_id permission_id tbl.

(** A pair is settled when it has rows and all of them are granted by
    [granted_by]. *)
Definition settled (role_id : Z) (granted_by : option Z) (permission_id : Z)
    (tbl : list mapping_row) : Prop :=
  grant_rows role_id permission_id tbl ≠ [] ∧
  Forall (granted_by_row granted_by) (grant_rows role_id permission_id tbl).

(** The upserts of a list of permission ids, in turn. *)
Definition grant_all (role_id : Z) (granted_by : option Z) (pids : list Z)
    (tbl : list mapping_row) : list mapping_row :=
  foldl (λ tbl pid, RoleConfigurator.upsert_rows role_id pid granted_by tbl)
        tbl pids.

(** The permission ids that [assign_permissions_to_role] upserts for a
    list of keys: the registered ones, in the order of the keys. *)
Definition requested_ids (db : Db) (permission_keys : list string) : list Z :=
  omap (λ perm_key,
          RoleConfigurator.permission_mapping_of
            ((λ pr, (pr_permission_id pr, pr_permission_key pr)) <$>
               filter (λ pr, pr_permission_key pr ∈ permission_keys)
                      (db_permission_registry db)) !! perm_key)
       permission_keys.

(** [getUserMaxPriority(userId)]: the priorities of the active roles the
    user holds by an active, unexpired assignment, and their maximum, 0
    when there is none. *)
Definition holds_priority (db : Db) (user_id p : Z) : Prop :=
  ∃ ur r,
    ur ∈ db_user_roles db ∧ ur_user_id ur = user_id ∧
    ur_is_active ur = true ∧
    unexpired (db_now db) (ur_expires_at ur) = true ∧
    r ∈ db_roles db ∧ r_role_id r = ur_role_id ur ∧ r_is_active r = true ∧
    r_priority r = p.

Definition max_active_priority (db : Db) (user_id m : Z) : Prop :=
  (holds_priority db user_id m ∧ ∀ p, holds_priority db user_id p → p ≤ m) ∨
  (m = 0 ∧ ∀ p, ¬ holds_priority db user_id p).

(** The stored row of a role id, its parent pointer, and the role reached
    by following [n] parent pointers. *)
Definition role_of (tbl : list hierarchy_row) (role_id : Z) : option hierarchy_row :=
  head (filter (λ rh, rh_role_id rh = role_id) tbl).

Definition parent_of (tbl : list hierarchy_row) (role_id : Z) : option Z :=
  rh ← role_of tbl role_id; rh_parent_role_id rh.

Fixpoint ancestor (tbl : list hierarchy_row) (n : nat) (role_id : Z) : option Z :=
  match n with
  | O => Some role_id
  | S n' => p ← parent_of tbl role_id; ancestor tbl n' p
  end.

(** [p] is [r] or a descendant of [r]: the walk up from [p] meets [r]. *)
Definition descends_from (tbl : list hierarchy_row) (p r : Z) : Prop :=
  ∃ n, ancestor tbl n p = Some r.

(** A role that comes back to itself along parent pointers. *)
Definition on_cycle (tbl : list hierarchy_row) (role_id : Z) : Prop :=
  ∃ n, ancestor tbl (S n) role_id = Some role_id.

(** The number of parent pointers between a role and its root, when the
    root is reached within [n] steps. *)
Fixpoint depth_within (tbl : list hierarchy_row) (n : nat) (rh : hierarchy_row)
    : option Z :=
  match rh_parent_role_id rh with
  | None => Some 0
  | Some p =>
      match n with
      | O => None
      | S n' =>
          prow ← role_of tbl p; d ← depth_within tbl n' prow; Some (d + 1)
      end
  end.

(** What a row of [role_levels] says in round [k]: it names a stored role
    whose root is [k] parent pointers away. *)
Definition counted (tbl : list hierarchy_row) (k : nat) (row : Z * Z) : Prop :=
  row.2 = Z.of_nat k ∧
  ∃ rh n, rh ∈ tbl ∧ rh_role_id rh = row.1 ∧
          depth_within tbl n rh = Some row.2.

(** The parent pointers form a forest: role ids are unique and every role
    reaches a root (within as many steps as there are roles). *)
Definition forest (tbl : list hierarchy_row) : Prop :=
  NoDup (rh_role_id <$> tbl) ∧
  Forall (λ rh, is_Some (depth_within tbl (length tbl) rh)) tbl.

(** [level(R) = 0] without a parent, [level(parent(R)) + 1] otherwise. *)
Definition level_ok (tbl : list hierarchy_row) (rh : hierarchy_row) : Prop :=
  match rh_parent_role_id rh with
  | None => rh_level rh = 0
  | Some p => ∃ prow, role_of tbl p = Some prow ∧ rh_level rh = rh_level prow + 1
  end.

Definition levels_consistent (tbl : list hierarchy_row) : Prop :=
  Forall (level_ok tbl) tbl.

(** The role reached from [role_id] by following [n] parent pointers, each
    from a stored role that inherits: the roles whose permissions
    [parent(R)] hands down to [role_id]. *)
Fixpoint inheriting_ancestor (tbl : list hierarchy_row) (n : nat) (role_id : Z)
    : option Z :=
  match n with
  | O => Some role_id
  | S n' =>
      rh ← role_of tbl role_id;
      if rh_inherit_permissions rh
      then p ← rh_parent_role_id rh; inheriting_ancestor tbl n' p
      else None
  end.

(** What a row of [role_tree] says in round [k]: it carries a stored role
    whose root is [k] parent pointers away, and a path of [k + 1] ids that
    ends in the role's own. *)
Definition tree_row (tbl : list hierarchy_row) (k : nat)
    (row : hierarchy_row * list Z * string) : Prop :=
  row.1.1 ∈ tbl ∧
  (∃ n, depth_within tbl n row.1.1 = Some (Z.of_nat k)) ∧
  length row.1.2 = S k ∧
  last row.1.2 = Some (rh_role_id row.1.1).

End Notions.

(** ** Concrete stores *)

Module Examples.
Import Store.

Definition no_fault : statement → bool := λ _, false.

Definition fault_on (q : statement) : statement → bool := λ q',
  bool_decide (q' = q).

Definition mk_role (id : Z) (name : string) (priority : Z) (system : bool)
    : role_row :=
  {| r_role_id := id; r_role_name := name; r_priority := priority;
     r_is_system := system; r_is_active := true |}.

Definition mk_assignment (user role : Z) (expires_at : option Z) (active : bool)
    : user_role_row :=
  {| ur_user_id := user; ur_role_id := role; ur_assigned_by := Some 1;
     ur_expires_at := expires_at; ur_is_active := active |}.

Definition mk_node (id : Z) (name : string) (parent : option Z) (level : Z)
    (inherit : bool) : hierarchy_row :=
  {| rh_role_id := id; rh_role_name := name; rh_display_name := name;
     rh_parent_role_id := parent; rh_level := level; rh_priority := 0;
     rh_is_system := false; rh_is_active := true; rh_max_users := None;
     rh_auto_assign := false; rh_inherit_permissions := inherit;
     rh_created_by := None |}.

Definition mk_grant (role permission : Z) (expires_at : option Z) : mapping_row :=
  {| rpm_role_id := role; rpm_permission_id := permission; rpm_granted := true;
     rpm_granted_by := Some 1; rpm_expires_at := expires_at |}.

(** A store of the [RoleManager] tables only, read at time 1000. *)
Definition manager_db (fault : statement → bool) (roles : list role_row)
    (permissions : list permission_row)
    (role_permissions : list role_permission_row)
    (user_roles : list user_role_row) : Db :=
  {| db_shape := Frame; db_fault := fault; db_now := 1000;
     db_users := [1; 2; 7];
     db_roles := roles; db_permissions := permissions;
     db_role_permissions := role_permissions; db_user_roles := user_roles;
     db_user_roles_unique := true;
     db_permission_audit := [];
     db_role_hierarchy := []; db_next_role_id := 1;
     db_permission_registry := []; db_role_permissions_mapping := [];
     db_role_audit_log := [] |}.

(** A store of the [RoleConfigurator] tables only, answering with row
    lists. *)
Definition configurator_db (fault : statement → bool)
    (hierarchy : list hierarchy_row) (next_role_id : Z)
    (registry : list registry_row) (mapping : list mapping_row) : Db :=
  {| db_shape := Rows; db_fault := fault; db_now := 1000;
     db_users := [1; 2; 7];
     db_roles := []; db_permissions := []; db_role_permissions := [];
     db_user_roles := [];
     db_user_roles_unique := true;
     db_permission_audit := [];
     db_role_hierarchy := hierarchy; db_next_role_id := next_role_id;
     db_permission_registry := registry;
     db_role_permissions_mapping := mapping;
     db_role_audit_log := [] |}.

(** Roles A (1), B (2), C (3) with C under B under A, the permission [x]
    granted to A alone, and user 7 holding C alone; the same roles, grant
    and assignment in the tables of both classes. *)
Definition chain_db (b_inherits : bool) : Db :=
  {| db_shape := Frame; db_fault := no_fault; db_now := 1000;
     db_users := [1; 7];
     db_roles := [mk_role 1 "A" 30 false; mk_role 2 "B" 20 false;
                  mk_role 3 "C" 10 false];
     db_permissions := [{| p_permission_id := 100; p_permission_name := "x" |}];
     db_role_permissions :=
       [{| rp_role_id := 1; rp_permission_id := 100; rp_granted_by := Some 1 |}];
     db_user_roles := [mk_assignment 7 3 None true];
     db_user_roles_unique := true;
     db_permission_audit := [];
     db_role_hierarchy :=
       [mk_node 1 "A" None 0 true; mk_node 2 "B" (Some 1) 1 b_inherits;
        mk_node 3 "C" (Some 2) 2 true];
     db_next_role_id := 4;
     db_permission_registry :=
       [{| pr_permission_id := 100; pr_permission_key := "x" |}];
     db_role_permissions_mapping := [mk_grant 1 100 None];
     db_role_audit_log := [] |}.

(** An actor (user 1) whose only role is [lead], priority 50, carrying
    [roles.assign]; [peer] has priority 50 and [junior] 49; [moderator]
    and [admin] are system roles of priority 50 and 90.  User 2 holds
    [moderator] and [admin]. *)
Definition guard_db : Db :=
  manager_db no_fault
    [mk_role 1 "lead" 50 false; mk_role 2 "peer" 50 false;
     mk_role 3 "junior" 49 false; mk_role 4 "moderator" 50 true;
     mk_role 5 "admin" 90 true]
    [{| p_permission_id := 1; p_permission_name := "roles.assign" |}]
    [{| rp_role_id := 1; rp_permission_id := 1; rp_granted_by := None |}]
    [mk_assignment 1 1 None true; mk_assignment 2 4 None true;
     mk_assignment 2 5 None true].

(** The actor and the roles [lead], [peer] and [junior] of [guard_db] on
    a store whose priority statement raises; user 2 holds [aide], of
    priority -10, which carries [roles.assign] too, and [minor] has
    priority -5. *)
Definition unanswered_db : Db :=
  manager_db (fault_on Q_user_max_priority)
    [mk_role 1 "lead" 50 false; mk_role 2 "peer" 50 false;
     mk_role 3 "junior" 49 false; mk_role 4 "aide" (-10) false;
     mk_role 5 "minor" (-5) false]
    [{| p_permission_id := 1; p_permission_name := "roles.assign" |}]
    [{| rp_role_id := 1; rp_permission_id := 1; rp_granted_by := None |};
     {| rp_role_id := 4; rp_permission_id := 1; rp_granted_by := None |}]
    [mk_assignment 1 1 None true; mk_assignment 2 4 None true].

(** [guard_db] with one more assignment for the actor: the role [admin],
    expired at 999 and still flagged active. *)
Definition expiry_db : Db :=
  set_user_roles
    [mk_assignment 1 1 None true; mk_assignment 1 5 (Some 999) true;
     mk_assignment 2 4 None true; mk_assignment 2 5 None true]
    guard_db.

(** Eleven roles in a line: role 1 is the root and role [i+1] is the child
    of role [i]. *)
Definition line_db : Db :=
  configurator_db no_fault
    ((λ i : Z, mk_node i ("r" +:+ pretty i)
                 (if bool_decide (i = 1) then None else Some (i - 1))
                 (i - 1) true) <$>
     [1; 2; 3; 4; 5; 6; 7; 8; 9; 10; 11])
    12 [] [].

(** A root role and two registered permissions. *)
Definition small_db (mapping : list mapping_row) : Db :=
  configurator_db no_fault
    [mk_node 1 "root" None 0 true; mk_node 2 "left" (Some 1) 1 true;
     mk_node 3 "right" (Some 1) 1 true; mk_node 4 "leaf" (Some 2) 2 true]
    5
    [{| pr_permission_id := 100; pr_permission_key := "users.view" |};
     {| pr_permission_id := 101; pr_permission_key := "users.edit" |}]
    mapping.

Definition child_data : RoleConfigurator.role_data :=
  {| RoleConfigurator.rd_role_name := Some "child";
     RoleConfigurator.rd_display_name := Some "Child";
     RoleConfigurator.rd_parent_role_id := Some 4;
     RoleConfigurator.rd_level := None;
     RoleConfigurator.rd_priority := None;
     RoleConfigurator.rd_max_users := None;
     RoleConfigurator.rd_auto_assign := None;
     RoleConfigurator.rd_inherit_permissions := None;
     RoleConfigurator.rd_created_by := Some 1 |}.

(** A role that names the id it is about to draw, 5 on [small_db], as its
    parent. *)
Definition self_parent_data : RoleConfigurator.role_data :=
  {| RoleConfigurator.rd_role_name := Some "loop";
     RoleConfigurator.rd_display_name := Some "Loop";
     RoleConfigurator.rd_parent_role_id := Some 5;
     RoleConfigurator.rd_level := None;
     RoleConfigurator.rd_priority := None;
     RoleConfigurator.rd_max_users := None;
     RoleConfigurator.rd_auto_assign := None;
     RoleConfigurator.rd_inherit_permissions := None;
     RoleConfigurator.rd_created_by := Some 1 |}.

(** No further statement raises; the [roles] sequence is one past the
    number of stored roles. *)
Definition no_further : further_statement → bool := λ _, false.

Definition next_role : Db → Z := λ db, Z.of_nat (length (db_roles db)) + 1.

(** User 1 holds [lead] (priority 50), which carries [roles.assign] and
    [roles.create]; user 2 holds [viewer] (priority 10), which carries
    [users.view]; user 7 holds nothing. *)
Definition studio_db : Db :=
  manager_db no_fault
    [mk_role 1 "lead" 50 false; mk_role 2 "viewer" 10 false]
    [{| p_permission_id := 1; p_permission_name := "roles.assign" |};
     {| p_permission_id := 2; p_permission_name := "roles.create" |};
     {| p_permission_id := 3; p_permission_name := "users.view" |};
     {| p_permission_id := 4; p_permission_name := "users.edit" |}]
    [{| rp_role_id := 1; rp_permission_id := 1; rp_granted_by := None |};
     {| rp_role_id := 1; rp_permission_id := 2; rp_granted_by := None |};
     {| rp_role_id := 2; rp_permission_id := 3; rp_granted_by := None |}]
    [mk_assignment 1 1 None true; mk_assignment 2 2 None true].

(** Two roles that inherit from each other; role 1 is granted
    [users.view]. *)
Definition loop_db : Db :=
  configurator_db no_fault
    [mk_node 1 "a" (Some 2) 0 true; mk_node 2 "b" (Some 1) 1 true]
    3
    [{| pr_permission_id := 100; pr_permission_key := "users.view" |}]
    [mk_grant 1 100 None].

(** [studio_db] after user 7 was given [viewer] and lost it again. *)
Definition revoked_db : Db :=
  set_user_roles
    [mk_assignment 1 1 None true; mk_assignment 2 2 None true;
     mk_assignment 7 2 None false]
    studio_db.

End Examples.

(** ** Properties *)

Import Store.

(** *** Running the monad *)

Ltac run :=
  unfold try_except, execute_query, execute_query_returning, execute_update,
         raise,
         mbind, M_bind, mret, M_ret in *;
  simpl in *.

Lemma wrap_Frame {A} (db : Db) (rows : list A) :
  db_shape db = Frame → wrap (db_shape db) rows = DataFrame rows.
Proof. intros ->. reflexivity. Qed.

Lemma wrap_Rows {A} (db : Db) (rows : list A) :
  db_shape db = Rows → wrap (db_shape db) rows = RowList rows.
Proof. intros ->. reflexivity. Qed.

(** The read methods of [RoleManager] never raise and leave the store as
    it was. *)
Lemma has_permission_pure user_id permission db :
  ∃ b, RoleManager.has_permission user_id permission db = Ok b db.
Proof.
  unfold RoleManager.has_permission. run.
  destruct (db_fault db Q_user_permissions); [eauto|].
  destruct (db_shape db); simpl; [|eauto].
  destruct (RoleManager.select_user_permissions user_id db); simpl; eauto.
Qed.

Lemma get_user_permissions_pure user_id db :
  ∃ s, RoleManager.get_user_permissions user_id db = Ok s db.
Proof.
  unfold RoleManager.get_user_permissions. run.
  destruct (db_fault db Q_user_permissions); [eauto|].
  destruct (db_shape db); simpl; [|eauto].
  destruct (RoleManager.select_user_permissions user_id db); simpl; eauto.
Qed.

Lemma get_user_max_priority_pure user_id db :
  ∃ m, RoleManager.get_user_max_priority user_id db = Ok m db.
Proof.
  unfold RoleManager.get_user_max_priority. run.
  destruct (db_fault db Q_user_max_priority); [eauto|].
  destruct (db_shape db); simpl; [|eauto].
  destruct (RoleManager.sql_max _); simpl; eauto.
Qed.

(** When [has_permission] answers [True] the store returned a frame without
    raising and the permission is among the selected names. *)
Lemma has_permission_true user_id permission db db' :
  RoleManager.has_permission user_id permission db = Ok true db' →
  db_shape db = Frame ∧ db_fault db Q_user_permissions = false ∧
  permission ∈ RoleManager.select_user_permissions user_id db.
Proof.
  unfold RoleManager.has_permission. run.
  destruct (db_fault db Q_user_permissions); [discriminate|].
  destruct (db_shape db); simpl; [|discriminate].
  destruct (RoleManager.select_user_permissions user_id db) as [|n names] eqn:E;
    simpl; [discriminate|].
  intros H. injection H as H _. apply bool_decide_eq_true in H.
  change (permission ∈ list_to_set (C:=gset string) (n :: names)) in H.
  by rewrite elem_of_list_to_set in H.
Qed.

(** *** Failing closed *)

(** C8: when the store raises on the permission query, [has_permission]
    answers [False] and [get_user_permissions] answers the empty set, for
    every user and permission key; the store is left as it was. *)
Theorem store_failure_denies db user_id permission :
  db_fault db Q_user_permissions = true →
  RoleManager.has_permission user_id permission db = Ok false db ∧
  RoleManager.get_user_permissions user_id db = Ok ∅ db.
Proof.
  intros Hfault.
  unfold RoleManager.has_permission, RoleManager.get_user_permissions. run.
  rewrite Hfault. done.
Qed.

Lemma store_failure_denies_witness :
  RoleManager.has_permission 1 "roles.assign"
    (Examples.manager_db (Examples.fault_on Q_user_permissions)
       (db_roles Examples.guard_db) (db_permissions Examples.guard_db)
       (db_role_permissions Examples.guard_db)
       (db_user_roles Examples.guard_db))
  = Ok false
      (Examples.manager_db (Examples.fault_on Q_user_permissions)
         (db_roles Examples.guard_db) (db_permissions Examples.guard_db)
         (db_role_permissions Examples.guard_db)
         (db_user_roles Examples.guard_db)).
Proof.
  apply (store_failure_denies
           (Examples.manager_db (Examples.fault_on Q_user_permissions)
              (db_roles Examples.guard_db) (db_permissions Examples.guard_db)
              (db_role_permissions Examples.guard_db)
              (db_user_roles Examples.guard_db)) 1 "roles.assign").
  reflexivity.
Defined.

(** C10: when the store raises on the parent-chain query, the cycle check
    answers [True] and a reparent that consults it answers [False] and
    leaves the whole store, the parent pointer included, as it was. *)
Theorem cycle_check_failure_blocks_reparent db role_id new_parent_id updated_by :
  db_fault db Q_parent_chain = true →
  new_parent_id ≠ 0 →
  RoleConfigurator._would_create_cycle role_id new_parent_id db = Ok true db ∧
  RoleConfigurator.update_role_hierarchy role_id (Some new_parent_id) updated_by db
    = Ok false db.
Proof.
  intros Hfault Hp.
  unfold RoleConfigurator.update_role_hierarchy,
         RoleConfigurator._would_create_cycle. run.
  rewrite bool_decide_eq_true_2 by done.
  rewrite Hfault. done.
Qed.

Lemma cycle_check_failure_blocks_reparent_witness :
  RoleConfigurator.update_role_hierarchy 3 (Some 4) (Some 1)
    (Examples.configurator_db (Examples.fault_on Q_parent_chain)
       (db_role_hierarchy (Examples.small_db [])) 5 [] [])
  = Ok false
      (Examples.configurator_db (Examples.fault_on Q_parent_chain)
         (db_role_hierarchy (Examples.small_db [])) 5 [] []).
Proof.
  apply (cycle_check_failure_blocks_reparent
           (Examples.configurator_db (Examples.fault_on Q_parent_chain)
              (db_role_hierarchy (Examples.small_db [])) 5 [] [])
           3 4 (Some 1)).
  - reflexivity.
  - discriminate.
Defined.
(** *** The priority guard *)

Lemma log_permission_action_user_roles user_id action target_type target_id used db :
  ∃ db', RoleManager._log_permission_action user_id action target_type target_id used db = Ok () db'
         ∧ db_user_roles db' = db_user_roles db.
Proof.
  unfold RoleManager._log_permission_action, RoleManager.insert_permission_audit. run.
  destruct (db_fault db Q_insert_permission_audit); [eauto|].
  case_bool_decide; eauto.
Qed.

(** *** Maximum priority over the tables *)

Lemma filter_none {A} (P : A → Prop) `{!∀ x, Decision (P x)} (l : list A) :
  (∀ x, x ∈ l → ¬ P x) → filter P l = [].
Proof.
  intros HP. induction l as [|x l IH]; [done|].
  rewrite filter_cons_False; [apply IH|apply HP; by left].
  intros y Hy. apply HP. by right.
Qed.

Lemma sql_max_nil l : RoleManager.sql_max l = None ↔ l = [].
Proof. destruct l; simpl; split; congruence. Qed.

Lemma sql_max_spec l m :
  RoleManager.sql_max l = Some m → m ∈ l ∧ ∀ x, x ∈ l → x ≤ m.
Proof.
  revert m. induction l as [|y l IH]; intros m; simpl; [done|].
  destruct (RoleManager.sql_max l) as [m'|] eqn:Hl; intros [= <-].
  - destruct (IH m' eq_refl) as [Hin Hmax]. split.
    + destruct (Z.max_spec y m') as [[_ ->]|[_ ->]]; [by right|by left].
    + intros x [->|Hx]%elem_of_cons; [lia|]. specialize (Hmax x Hx). lia.
  - apply sql_max_nil in Hl as ->. split; [by left|].
    by intros x ->%list_elem_of_singleton.
Qed.

(** The priorities the maximum is taken over. *)
Lemma held_priority_elem db user_id p :
  p ∈ (ur ← RoleManager.live_assignments user_id db;
       r ← filter (λ r, r_role_id r = ur_role_id ur ∧ r_is_active r = true)
                  (db_roles db);
       [r_priority r]) ↔
  ∃ ur r, ur ∈ RoleManager.live_assignments user_id db ∧ r ∈ db_roles db ∧
          r_role_id r = ur_role_id ur ∧ r_is_active r = true ∧
          r_priority r = p.
Proof.
  rewrite list_elem_of_bind. split.
  - intros (ur & Hp & Hur). apply list_elem_of_bind in Hp as (r & Hp & Hr).
    apply list_elem_of_singleton in Hp as ->.
    apply list_elem_of_filter in Hr as [[? ?] ?]. eauto 10.
  - intros (ur & r & Hur & Hr & Hid & Hact & <-). exists ur. split; [|done].
    apply list_elem_of_bind. exists r. split; [by apply list_elem_of_singleton|].
    by apply list_elem_of_filter.
Qed.

Lemma holds_priority_elem db user_id p :
  Notions.holds_priority db user_id p ↔
  p ∈ (ur ← RoleManager.live_assignments user_id db;
       r ← filter (λ r, r_role_id r = ur_role_id ur ∧ r_is_active r = true)
                  (db_roles db);
       [r_priority r]).
Proof.
  rewrite held_priority_elem. unfold Notions.holds_priority. split.
  - intros (ur & r & Hur & Hu & Ha & He & Hr & Hid & Hact & Hp).
    exists ur, r. split; [|done].
    by apply list_elem_of_filter.
  - intros (ur & r & Hur & Hr & Hid & Hact & Hp).
    apply list_elem_of_filter in Hur as [(Hu & Ha & He) Hur].
    exists ur, r. done.
Qed.

(** The maximum over the tables is what the priority statement selects,
    with 0 for [NULL]. *)
Lemma max_active_priority_select db user_id m :
  Notions.max_active_priority db user_id m ↔
  default 0 <$> RoleManager.select_user_max_priority user_id db = [m].
Proof.
  unfold Notions.max_active_priority, RoleManager.select_user_max_priority.
  simpl.
  destruct (RoleManager.sql_max _) as [m'|] eqn:Hmax; simpl.
  - apply sql_max_spec in Hmax as [Hin Hle]. split.
    + intros [[Hm Hall]|[_ Hnone]].
      * f_equal. apply holds_priority_elem in Hm.
        apply holds_priority_elem, Hall in Hin. apply Hle in Hm. lia.
      * by apply holds_priority_elem, Hnone in Hin.
    + intros [= <-]. left. split; [by apply holds_priority_elem|].
      intros p Hp. by apply Hle, holds_priority_elem.
  - apply sql_max_nil in Hmax. split.
    + intros [[Hm _]|[-> _]]; [|done].
      apply holds_priority_elem in Hm. rewrite Hmax in Hm.
      by apply elem_of_nil in Hm.
    + intros [= <-]. right. split; [done|].
      intros p Hp%holds_priority_elem. rewrite Hmax in Hp.
      by apply elem_of_nil in Hp.
Qed.

(** When the store answers the priority statement with a frame,
    [get_user_max_priority] returns the maximum over the tables. *)
Lemma get_user_max_priority_answer db user_id m :
  db_shape db = Frame →
  db_fault db Q_user_max_priority = false →
  Notions.max_active_priority db user_id m →
  RoleManager.get_user_max_priority user_id db = Ok m db.
Proof.
  intros Hshape Hfault Hmax. apply max_active_priority_select in Hmax.
  unfold RoleManager.get_user_max_priority. run.
  rewrite Hfault, Hshape.
  unfold RoleManager.select_user_max_priority in *. simpl in *.
  injection Hmax as <-. by destruct (RoleManager.sql_max _).
Qed.

(** *** The priority guard of an assignment *)

(** The checks of [assign_role_to_user] in the order the method makes
    them, against the value [get_user_max_priority] returns. *)
Lemma assign_checks_in_order db assigner_id user_id role_name expires_at o db' :
  RoleManager.assign_role_to_user assigner_id user_id role_name expires_at db
    = Ok o db' →
  (RoleManager.success o = true →
     RoleManager.has_permission assigner_id "roles.assign" db = Ok true db ∧
     ∃ role_id role_priority m,
       head (RoleManager.select_active_role_by_name role_name db)
         = Some (role_id, role_priority) ∧
       RoleManager.get_user_max_priority assigner_id db = Ok m db ∧
       role_priority < m) ∧
  (∀ role_id role_priority m,
     RoleManager.has_permission assigner_id "roles.assign" db = Ok true db →
     db_fault db Q_active_role_by_name = false →
     head (RoleManager.select_active_role_by_name role_name db)
       = Some (role_id, role_priority) →
     RoleManager.get_user_max_priority assigner_id db = Ok m db →
     (m ≤ role_priority →
        o = RoleManager.Failure "Cannot assign role with equal or higher priority" ∧
        db' = db) ∧
     (role_priority < m →
        o ≠ RoleManager.Failure "Cannot assign role with equal or higher priority" ∧
        o ≠ RoleManager.Failure "Insufficient permissions to assign roles")).
Proof.
  unfold RoleManager.assign_role_to_user. run.
  destruct (has_permission_pure assigner_id "roles.assign" db) as [b Hb].
  rewrite Hb. destruct b; simpl.
  2:{ intros [= <- <-]. split; [done|]. intros; congruence. }
  destruct (db_fault db Q_active_role_by_name) eqn:Hf.
  { intros [= <- <-]. split; [done|]. intros; congruence. }
  destruct (has_permission_true _ _ _ _ Hb) as (Hs & _ & _).
  rewrite Hs; simpl.
  destruct (RoleManager.select_active_role_by_name role_name db)
    as [|[role_id role_priority] rest] eqn:Hsel; simpl.
  { intros [= <- <-]. split; [done|]. intros; simplify_eq. }
  destruct (get_user_max_priority_pure assigner_id db) as [m Hm].
  rewrite Hm.
  destruct (role_priority >=? m) eqn:Hge.
  { intros [= <- <-]. split; [done|].
    intros ? ? ? _ _ [= <- <-] [= <-]. split; [done|]. lia. }
  assert (role_priority < m) as Hlt by lia.
  intros Hrun.
  split.
  - intros _. split; [done|]. eauto 10.
  - intros ? ? ? _ _ [= <- <-] [= <-]. split; [lia|]. intros _.
    revert Hrun.
    destruct (db_fault db Q_existing_assignment); [intros [= <- <-]; done|].
    rewrite Hs; simpl.
    destruct (RoleManager.select_existing_assignment user_id role_id db); simpl;
      [|intros [= <- <-]; done].
    destruct (db_fault db Q_insert_user_role); [intros [= <- <-]; done|].
    destruct (RoleManager.insert_user_role _ _ _ _ db) as [e|db1];
      [intros [= <- <-]; done|].
    destruct (log_permission_action_user_roles assigner_id "role_assigned" "user"
                user_id "roles.assign" db1) as (db2 & -> & _).
    intros [= <- <-]; done.
Qed.

(** C2, as stated, fails when the priority statement raises, for
    [get_user_max_priority] then answers 0 whatever the tables hold.  On
    [unanswered_db] user 2, whose maximum priority is -10, assigns [minor],
    of priority -5; and user 1, whose maximum priority is 50, is refused
    [junior], of priority 49, with the priority error. *)
Lemma assign_against_unanswered_priority :
  ¬ (∀ db assigner_id user_id role_name expires_at role_id role_priority m
       o db',
       head (RoleManager.select_active_role_by_name role_name db)
         = Some (role_id, role_priority) →
       Notions.max_active_priority db assigner_id m →
       RoleManager.assign_role_to_user assigner_id user_id role_name
         expires_at db = Ok o db' →
       RoleManager.success o = true →
       role_priority < m) ∧
  ¬ (∀ db assigner_id user_id role_name expires_at role_id role_priority m
       o db',
       RoleManager.has_permission assigner_id "roles.assign" db = Ok true db →
       db_fault db Q_active_role_by_name = false →
       head (RoleManager.select_active_role_by_name role_name db)
         = Some (role_id, role_priority) →
       Notions.max_active_priority db assigner_id m →
       role_priority < m →
       RoleManager.assign_role_to_user assigner_id user_id role_name
         expires_at db = Ok o db' →
       o ≠ RoleManager.Failure
             "Cannot assign role with equal or higher priority").
Proof.
  assert (Notions.max_active_priority Examples.unanswered_db 2 (-10)) as Haide.
  { apply max_active_priority_select. reflexivity. }
  assert (Notions.max_active_priority Examples.unanswered_db 1 50) as Hlead.
  { apply max_active_priority_select. reflexivity. }
  split; intros H.
  - specialize (H Examples.unanswered_db 2 7 "minor" None 5 (-5) (-10) _ _
                  eq_refl Haide eq_refl eq_refl).
    lia.
  - by specialize (H Examples.unanswered_db 1 7 "junior" None 3 49 50 _ _
                     eq_refl eq_refl eq_refl Hlead ltac:(lia) eq_refl).
Qed.

(** C2 (amended): on a store that answers the priority statement, an
    assignment succeeds only when the assigner has [roles.assign] and a
    maximum active priority, taken over the tables, strictly above the
    role's; when the assigner has the permission and the role is found, a
    maximum at or below the role's priority ends the call in the priority
    error with the store untouched, and a maximum above it gets the call
    past both the permission and the priority check. *)
Theorem assign_priority_guard db assigner_id user_id role_name expires_at m
    o db' :
  db_fault db Q_user_max_priority = false →
  Notions.max_active_priority db assigner_id m →
  RoleManager.assign_role_to_user assigner_id user_id role_name expires_at db
    = Ok o db' →
  (RoleManager.success o = true →
     RoleManager.has_permission assigner_id "roles.assign" db = Ok true db ∧
     ∃ role_id role_priority,
       head (RoleManager.select_active_role_by_name role_name db)
         = Some (role_id, role_priority) ∧
       role_priority < m) ∧
  (∀ role_id role_priority,
     RoleManager.has_permission assigner_id "roles.assign" db = Ok true db →
     db_fault db Q_active_role_by_name = false →
     head (RoleManager.select_active_role_by_name role_name db)
       = Some (role_id, role_priority) →
     (m ≤ role_priority →
        o = RoleManager.Failure "Cannot assign role with equal or higher priority" ∧
        db' = db) ∧
     (role_priority < m →
        o ≠ RoleManager.Failure "Cannot assign role with equal or higher priority" ∧
        o ≠ RoleManager.Failure "Insufficient permissions to assign roles")).
Proof.
  intros Hfault Hmax Hrun.
  apply assign_checks_in_order in Hrun as [Hok Hguard].
  assert (RoleManager.has_permission assigner_id "roles.assign" db = Ok true db →
          RoleManager.get_user_max_priority assigner_id db = Ok m db) as Hm.
  { intros Hb. destruct (has_permission_true _ _ _ _ Hb) as (Hs & _ & _).
    by apply get_user_max_priority_answer. }
  split.
  - intros Hsuccess.
    destruct (Hok Hsuccess) as (Hb & role_id & role_priority & m' & Hsel & Hm'
                                & Hlt).
    split; [done|]. exists role_id, role_priority. split; [done|].
    rewrite (Hm Hb) in Hm'. by injection Hm' as ->.
  - intros role_id role_priority Hb Hf Hsel.
    exact (Hguard role_id role_priority m Hb Hf Hsel (Hm Hb)).
Qed.

Lemma assign_priority_guard_witness :
  (∃ o db',
     RoleManager.assign_role_to_user 1 7 "peer" None Examples.guard_db
       = Ok o db' ∧
     o = RoleManager.Failure "Cannot assign role with equal or higher priority" ∧
     db' = Examples.guard_db) ∧
  (∃ o db',
     RoleManager.assign_role_to_user 1 7 "junior" None Examples.guard_db
       = Ok o db' ∧
     RoleManager.success o = true ∧
     o ≠ RoleManager.Failure "Cannot assign role with equal or higher priority").
Proof.
  assert (Notions.max_active_priority Examples.guard_db 1 50) as Hmax.
  { apply max_active_priority_select. reflexivity. }
  split.
  - eexists _, _. split; [vm_compute; reflexivity|].
    destruct (assign_priority_guard Examples.guard_db 1 7 "peer" None 50 _ _
                eq_refl Hmax eq_refl) as [_ H].
    destruct (H 2 50) as [Heq _]; [vm_compute; reflexivity..|].
    apply Heq. lia.
  - eexists _, _. split; [vm_compute; reflexivity|].
    split; [reflexivity|].
    destruct (assign_priority_guard Examples.guard_db 1 7 "junior" None 50 _ _
                eq_refl Hmax eq_refl) as [_ H].
    destruct (H 3 49) as [_ Hlt]; [vm_compute; reflexivity..|].
    apply Hlt. lia.
Defined.

(** *** The priority guard of a removal *)

Lemma deactivated_none user_id role_id (l : list user_role_row) :
  filter (λ ur, ur_user_id ur = user_id ∧ ur_role_id ur = role_id ∧
                ur_is_active ur = true)
         ((λ ur, if bool_decide (ur_user_id ur = user_id ∧
                                 ur_role_id ur = role_id ∧
                                 ur_is_active ur = true)
                 then RoleManager.deactivate ur else ur) <$> l) = [].
Proof.
  apply filter_none. intros x (ur & -> & _)%list_elem_of_fmap.
  case_bool_decide; simpl; [|done]. intros (_ & _ & ?). done.
Qed.

(** C4, as stated, fails: [moderator] is a system role of priority 50, the
    remover's maximum priority is 50, and the removal goes through. *)
Lemma system_role_removed_at_equal_priority :
  ¬ (∀ db remover_id user_id role_name role_id role_priority m o db',
       head (RoleManager.select_role_by_name role_name db)
         = Some (role_id, role_priority, true) →
       Notions.max_active_priority db remover_id m →
       m ≤ role_priority →
       RoleManager.remove_role_from_user remover_id user_id role_name db
         = Ok o db' →
       RoleManager.success o = false).
Proof.
  intros H.
  assert (Notions.max_active_priority Examples.guard_db 1 50) as Hmax.
  { apply max_active_priority_select. reflexivity. }
  specialize (H Examples.guard_db 1 2 "moderator" 4 50 50 _ _
                eq_refl Hmax ltac:(lia) eq_refl).
  discriminate H.
Qed.

(** C4 (amended): the priority comparison of [remove_role_from_user] goes
    by the name the call is given.  When that name is [owner] or [admin]
    and the role found under it is a system role, then, on a store that
    answers the priority statement, a remover whose maximum active
    priority over the tables is at or below the role's gets a failure and
    the store is left as it was; when the remover has [roles.assign] and
    the role lookup does not raise, the failure is the priority error.
    Under any other name, or when the role found is not a system role,
    no priority is compared: a remover with [roles.assign] removes the
    role when the store does not raise. *)
Theorem named_system_role_guard db remover_id user_id role_name
    role_id role_priority is_system :
  head (RoleManager.select_role_by_name role_name db)
    = Some (role_id, role_priority, is_system) →
  (is_system = true → role_name ∈ ["owner"; "admin"] →
   db_fault db Q_user_max_priority = false →
   ∀ m, Notions.max_active_priority db remover_id m →
        m ≤ role_priority →
        ∃ o, RoleManager.remove_role_from_user remover_id user_id role_name db
               = Ok o db ∧
             RoleManager.success o = false ∧
             (RoleManager.has_permission remover_id "roles.assign" db
                = Ok true db →
              db_fault db Q_role_by_name = false →
              o = RoleManager.Failure
                    "Cannot remove system role with equal or higher priority")) ∧
  (¬ (is_system = true ∧ role_name ∈ ["owner"; "admin"]) →
   RoleManager.has_permission remover_id "roles.assign" db = Ok true db →
   db_fault db Q_role_by_name = false →
   db_fault db Q_deactivate_user_role = false →
   ∃ db', RoleManager.remove_role_from_user remover_id user_id role_name db
            = Ok (RoleManager.Success "Role removed successfully") db' ∧
          RoleManager.select_existing_assignment user_id role_id db' = []).
Proof.
  intros Hsel. split.
  - intros -> Hname Hfault m Hmax Hle.
    unfold RoleManager.remove_role_from_user. run.
    destruct (has_permission_pure remover_id "roles.assign" db) as [b Hb].
    rewrite Hb. destruct b; simpl.
    2:{ eexists. split; [done|]. split; [done|]. intros; congruence. }
    destruct (db_fault db Q_role_by_name) eqn:Hf.
    { eexists. split; [done|]. split; [done|]. intros; congruence. }
    destruct (has_permission_true _ _ _ _ Hb) as (Hs & _ & _).
    rewrite Hs; simpl.
    destruct (RoleManager.select_role_by_name role_name db)
      as [|[[rid rp] sys] rest]; simpl in *; [done|].
    injection Hsel as -> -> ->. simpl.
    rewrite bool_decide_eq_true_2 by done.
    rewrite (get_user_max_priority_answer db remover_id m Hs Hfault Hmax).
    replace (role_priority >=? m) with true by lia.
    eexists. split; [done|]. split; done.
  - intros Hother Hb Hf Hf'.
    unfold RoleManager.remove_role_from_user. run.
    rewrite Hb; simpl. rewrite Hf.
    destruct (has_permission_true _ _ _ _ Hb) as (Hs & _ & _).
    rewrite Hs; simpl.
    destruct (RoleManager.select_role_by_name role_name db)
      as [|[[rid rp] sys] rest]; simpl in *; [done|].
    injection Hsel as -> -> ->.
    assert (is_system && bool_decide (role_name ∈ ["owner"; "admin"]) = false)
      as ->.
    { destruct is_system; [|done]. simpl.
      apply bool_decide_eq_false_2. tauto. }
    simpl. rewrite Hf'. simpl.
    match goal with
    | |- context [RoleManager._log_permission_action ?a ?b ?c ?d ?e ?db0] =>
        destruct (log_permission_action_user_roles a b c d e db0)
          as (db2 & -> & Hrows)
    end.
    exists db2. split; [done|].
    unfold RoleManager.select_existing_assignment. rewrite Hrows.
    apply deactivated_none.
Qed.

Lemma named_system_role_guard_witness :
  (∃ o, RoleManager.remove_role_from_user 1 2 "admin" Examples.guard_db
          = Ok o Examples.guard_db ∧
        o = RoleManager.Failure
              "Cannot remove system role with equal or higher priority") ∧
  (∃ db', RoleManager.remove_role_from_user 1 2 "moderator" Examples.guard_db
            = Ok (RoleManager.Success "Role removed successfully") db' ∧
          RoleManager.select_existing_assignment 2 4 db' = []).
Proof.
  split.
  - destruct (proj1 (named_system_role_guard Examples.guard_db 1 2 "admin"
                       5 90 true eq_refl) eq_refl) with (m := 50)
      as (o & Hrun & _ & Herr).
    + repeat constructor.
    + reflexivity.
    + apply max_active_priority_select. reflexivity.
    + lia.
    + exists o. split; [exact Hrun|]. apply Herr; reflexivity.
  - apply (proj2 (named_system_role_guard Examples.guard_db 1 2 "moderator"
                    4 50 true eq_refl)).
    + apply (bool_decide_unpack _). vm_compute. exact I.
    + vm_compute; reflexivity.
    + reflexivity.
    + reflexivity.
Defined.

(** C9: when the remover passes the permission check and the priority
    check, the role exists, the store does not raise on the lookup or the
    update, and the user has no active assignment of the role, the removal
    reports success and [user_roles] is left as it was. *)
Theorem remove_unheld_role_succeeds db remover_id user_id role_name
    role_id role_priority is_system :
  RoleManager.has_permission remover_id "roles.assign" db = Ok true db →
  db_fault db Q_role_by_name = false →
  db_fault db Q_deactivate_user_role = false →
  head (RoleManager.select_role_by_name role_name db)
    = Some (role_id, role_priority, is_system) →
  (is_system = true → role_name ∈ ["owner"; "admin"] →
   ∃ m, RoleManager.get_user_max_priority remover_id db = Ok m db ∧
        role_priority < m) →
  RoleManager.select_existing_assignment user_id role_id db = [] →
  ∃ db', RoleManager.remove_role_from_user remover_id user_id role_name db
           = Ok (RoleManager.Success "Role removed successfully") db' ∧
         db_user_roles db' = db_user_roles db.
Proof.
  intros Hb Hf Hf' Hsel Hprio Hnone.
  unfold RoleManager.remove_role_from_user. run.
  rewrite Hb; simpl. rewrite Hf.
  destruct (has_permission_true _ _ _ _ Hb) as (Hs & _ & _).
  rewrite Hs; simpl.
  destruct (RoleManager.select_role_by_name role_name db)
    as [|[[rid rp] sys] rest]; simpl in *; [done|].
  injection Hsel as -> -> ->.
  assert (db_user_roles
            (set_user_roles
               ((λ ur, if bool_decide (ur_user_id ur = user_id ∧
                                        ur_role_id ur = role_id ∧
                                        ur_is_active ur = true)
                       then RoleManager.deactivate ur else ur)
                  <$> db_user_roles db) db) = db_user_roles db) as Hsame.
  { simpl. unfold RoleManager.select_existing_assignment in Hnone.
    induction (db_user_roles db) as [|ur l IH]; [done|].
    rewrite filter_cons in Hnone. case_decide; [done|].
    simpl. rewrite bool_decide_eq_false_2 by done. f_equal. by apply IH. }
  assert (is_system && bool_decide (role_name ∈ ["owner"; "admin"]) = false ∨
          ∃ m, RoleManager.get_user_max_priority remover_id db = Ok m db ∧
               role_priority < m) as Hguard.
  { destruct (is_system && bool_decide (role_name ∈ ["owner"; "admin"])) eqn:Hg;
      [right|by left].
    apply andb_true_iff in Hg as [-> Hn]. apply bool_decide_eq_true in Hn.
    by apply Hprio. }
  destruct Hguard as [-> | (m & Hm & Hlt)].
  2: destruct (is_system && bool_decide (role_name ∈ ["owner"; "admin"]));
       [rewrite Hm; replace (role_priority >=? m) with false by lia|].
  all: simpl; rewrite Hf'; unfold RoleManager.deactivate_user_role;
    match goal with
    | |- context [RoleManager._log_permission_action ?a ?b ?c ?d ?e ?db0] =>
        destruct (log_permission_action_user_roles a b c d e db0)
          as (db2 & -> & Hur)
    end;
    exists db2; (split; [done|congruence]).
Qed.

Lemma remove_unheld_role_succeeds_witness :
  ∃ db', RoleManager.remove_role_from_user 1 7 "junior" Examples.guard_db
           = Ok (RoleManager.Success "Role removed successfully") db' ∧
         db_user_roles db' = db_user_roles Examples.guard_db.
Proof.
  apply (remove_unheld_role_succeeds Examples.guard_db 1 7 "junior" 3 49 false).
  - vm_compute; reflexivity.
  - reflexivity.
  - reflexivity.
  - reflexivity.
  - discriminate.
  - reflexivity.
Defined.

(** *** Expiry *)

(** A row that fails the filter of [live_assignments] can be taken out of
    [user_roles] without changing what is selected. *)
Lemma live_assignments_skip db (before after : list user_role_row) ur user_id :
  db_user_roles db = (before ++ ur :: after)%list →
  ¬ (ur_is_active ur = true ∧ unexpired (db_now db) (ur_expires_at ur) = true) →
  RoleManager.live_assignments user_id (set_user_roles (before ++ after) db) =
  RoleManager.live_assignments user_id db.
Proof.
  intros Hrows Hdead. unfold RoleManager.live_assignments. simpl.
  rewrite Hrows, !filter_app, filter_cons.
  case_decide; [|done]. tauto.
Qed.

(** An update that neither creates nor changes a row passing a filter
    leaves the filtered table as it was. *)
Lemma filter_fmap_untouched {A} (P : A → Prop) `{!∀ x, Decision (P x)}
    (f : A → A) (l : list A) :
  (∀ x, P (f x) → P x) →
  (∀ x, P x → f x = x) →
  filter P (f <$> l) = filter P l.
Proof.
  intros Hback Hfix. induction l as [|x l IH]; [done|].
  rewrite fmap_cons, !filter_cons, IH.
  destruct (decide (P x)) as [Hx|Hx].
  - rewrite (Hfix x Hx). by rewrite decide_True.
  - rewrite decide_False; [done|]. intros ?. by apply Hx, Hback.
Qed.

(** The sweep only touches rows that [live_assignments] rejects before and
    after. *)
Lemma live_assignments_sweep db db' user_id :
  RoleManager.expire_user_roles db = inr db' →
  RoleManager.live_assignments user_id db' =
  RoleManager.live_assignments user_id db.
Proof.
  intros [= <-]. unfold RoleManager.live_assignments. simpl.
  apply filter_fmap_untouched.
  - intros ur.
    match goal with |- context [if ?c then _ else _] => destruct c end; [|done].
    intros (_ & ? & _). done.
  - intros ur (_ & Ha & Hlive). rewrite Ha.
    destruct (ur_expires_at ur) as [t|]; simpl in *; [|done].
    apply bool_decide_eq_true in Hlive.
    by rewrite bool_decide_eq_false_2 by lia.
Qed.

Lemma select_user_permissions_live db db' user_id :
  RoleManager.live_assignments user_id db' = RoleManager.live_assignments user_id db →
  db_roles db' = db_roles db →
  db_role_permissions db' = db_role_permissions db →
  db_permissions db' = db_permissions db →
  RoleManager.select_user_permissions user_id db' =
  RoleManager.select_user_permissions user_id db.
Proof.
  intros H1 H2 H3 H4. unfold RoleManager.select_user_permissions.
  by rewrite H1, H2, H3, H4.
Qed.

(** Both read methods are functions of the selected permission names, the
    shape of the results and the fault on the statement. *)
Lemma permission_reads_agree db db' user_id permission :
  RoleManager.select_user_permissions user_id db' =
    RoleManager.select_user_permissions user_id db →
  db_shape db' = db_shape db →
  db_fault db' = db_fault db →
  ∃ perms has,
    RoleManager.get_user_permissions user_id db = Ok perms db ∧
    RoleManager.get_user_permissions user_id db' = Ok perms db' ∧
    RoleManager.has_permission user_id permission db = Ok has db ∧
    RoleManager.has_permission user_id permission db' = Ok has db'.
Proof.
  intros Hsel Hshape Hfault.
  unfold RoleManager.get_user_permissions, RoleManager.has_permission. run.
  rewrite Hsel, Hshape, Hfault.
  destruct (db_fault db Q_user_permissions); [eauto 10|].
  destruct (db_shape db); simpl; [|eauto 10].
  destruct (RoleManager.select_user_permissions user_id db); simpl; eauto 10.
Qed.

Lemma cleanup_expired_roles_run db :
  ∃ swept, RoleManager.cleanup_expired_roles db = Ok () swept ∧
    (swept = db ∨ RoleManager.expire_user_roles db = inr swept).
Proof.
  unfold RoleManager.cleanup_expired_roles. run.
  destruct (db_fault db Q_expire_user_roles); eauto.
Qed.

(** C6: an assignment whose [expires_at] is not after the current time,
    active or not, can be deleted from [user_roles] without changing
    [get_user_permissions] or [has_permission] for any user; and running
    the expiry sweep changes neither. *)
Theorem expired_assignment_contributes_nothing db
    (before after : list user_role_row) ur t user_id permission :
  db_user_roles db = (before ++ ur :: after)%list →
  ur_expires_at ur = Some t →
  t ≤ db_now db →
  let without := set_user_roles (before ++ after) db in
  ∃ perms has swept,
    RoleManager.get_user_permissions user_id db = Ok perms db ∧
    RoleManager.get_user_permissions user_id without = Ok perms without ∧
    RoleManager.has_permission user_id permission db = Ok has db ∧
    RoleManager.has_permission user_id permission without = Ok has without ∧
    RoleManager.cleanup_expired_roles db = Ok () swept ∧
    RoleManager.get_user_permissions user_id swept = Ok perms swept ∧
    RoleManager.has_permission user_id permission swept = Ok has swept.
Proof.
  intros Hrows Ht Hpast without.
  destruct (permission_reads_agree db without user_id permission)
    as (perms & has & Hp & Hp' & Hh & Hh'); [|done|done|].
  { apply select_user_permissions_live; [|done..].
    apply (live_assignments_skip db before after ur); [done|].
    rewrite Ht. simpl. rewrite bool_decide_eq_true. intros [_ ?]. lia. }
  destruct (cleanup_expired_roles_run db) as (swept & Hsweep & Hswept).
  exists perms, has, swept. repeat split; try done.
  all: destruct Hswept as [-> | Hex]; [done|].
  all: destruct (permission_reads_agree db swept user_id permission)
         as (perms' & has' & Hq & Hq' & Hg & Hg');
       [apply select_user_permissions_live;
          [by apply live_assignments_sweep
          |by injection Hex as <-..]
       |by injection Hex as <-
       |by injection Hex as <-
       |congruence].
Qed.

Lemma expired_assignment_contributes_nothing_witness :
  ∃ perms has swept,
    RoleManager.get_user_permissions 1 Examples.expiry_db
      = Ok perms Examples.expiry_db ∧
    RoleManager.get_user_permissions 1 Examples.guard_db
      = Ok perms Examples.guard_db ∧
    RoleManager.has_permission 1 "roles.assign" Examples.expiry_db
      = Ok has Examples.expiry_db ∧
    RoleManager.has_permission 1 "roles.assign" Examples.guard_db
      = Ok has Examples.guard_db ∧
    RoleManager.cleanup_expired_roles Examples.expiry_db = Ok () swept ∧
    RoleManager.get_user_permissions 1 swept = Ok perms swept ∧
    RoleManager.has_permission 1 "roles.assign" swept = Ok has swept.
Proof.
  apply (expired_assignment_contributes_nothing Examples.expiry_db
           [Examples.mk_assignment 1 1 None true]
           [Examples.mk_assignment 2 4 None true;
            Examples.mk_assignment 2 5 None true]
           (Examples.mk_assignment 1 5 (Some 999) true) 999 1 "roles.assign").
  - reflexivity.
  - reflexivity.
  - simpl. lia.
Defined.

(** *** Recursive statements *)

Lemma recursive_cte_nil {A} (step : list A → list A) fuel :
  recursive_cte step fuel [] = Some [].
Proof. by destruct fuel. Qed.

Lemma recursive_cte_cons {A} (step : list A → list A) fuel x work :
  recursive_cte step (S fuel) (x :: work) =
  ((x :: work) ++.) <$> recursive_cte step fuel (step (x :: work)).
Proof. done. Qed.

(** *** Inheritance *)

(** With a unique key column, selecting by the key of a stored row returns
    that row alone. *)
Lemma filter_unique_key {A} (key : A → Z) (l : list A) (x : A) :
  NoDup (key <$> l) → x ∈ l → filter (λ y, key y = key x) l = [x].
Proof.
  induction l as [|y l IH]; intros Hnd Hx; [by apply not_elem_of_nil in Hx|].
  rewrite fmap_cons in Hnd. apply NoDup_cons in Hnd as [Hy Hnd].
  rewrite filter_cons. apply elem_of_cons in Hx as [<- | Hx].
  - rewrite decide_True by done. f_equal. apply filter_none.
    intros z Hz Heq. apply Hy. rewrite <- Heq. by apply list_elem_of_fmap_2.
  - rewrite decide_False; [by apply IH|].
    intros Heq. apply Hy. rewrite Heq. by apply list_elem_of_fmap_2.
Qed.

Lemma granted_keys_spec db ri key :
  key ∈ RoleConfigurator.granted_keys db ri ↔
  ∃ row, row ∈ ri ∧ Notions.grants db row.1.1 key.
Proof.
  unfold RoleConfigurator.granted_keys, Notions.grants.
  rewrite elem_of_remove_dups, list_elem_of_bind. split.
  - intros ([[role_id parent] inherit] & Hin & Hri).
    apply list_elem_of_bind in Hin as (rpm & Hin & Hrpm).
    apply list_elem_of_bind in Hin as (pr & Hin & Hpr).
    apply list_elem_of_singleton in Hin as ->.
    apply list_elem_of_filter in Hrpm as ((? & ? & ?) & ?).
    apply list_elem_of_filter in Hpr as (? & ?).
    eexists. split; [done|]. simpl. eauto 10.
  - intros ([[role_id parent] inherit] & Hri & rpm & pr & ? & ? & ? & ? & ? & ? & ?).
    simpl in *. eexists. split; [|done]. simpl.
    apply list_elem_of_bind. exists rpm. split.
    2:{ by apply list_elem_of_filter. }
    apply list_elem_of_bind. exists pr. split.
    2:{ by apply list_elem_of_filter. }
    by apply list_elem_of_singleton.
Qed.

(** The result of [get_role_permissions] once the recursive table is
    known. *)
Lemma get_role_permissions_run db role_id ri :
  db_fault db Q_role_inheritance = false →
  RoleConfigurator.role_inheritance role_id db = Some ri →
  RoleConfigurator.get_role_permissions role_id db
    = Ok (list_to_set (RoleConfigurator.granted_keys db ri)) db.
Proof.
  intros Hfault Hri.
  unfold RoleConfigurator.get_role_permissions,
         RoleConfigurator.select_role_permissions. run.
  rewrite Hfault, Hri.
  destruct (db_shape db); simpl; [|done].
  by destruct (RoleConfigurator.granted_keys db ri).
Qed.

Lemma step_of_row db (R : hierarchy_row) (P : hierarchy_row) :
  NoDup (RoleConfigurator.role_ids db) →
  P ∈ db_role_hierarchy db →
  rh_parent_role_id R = Some (rh_role_id P) →
  rh_inherit_permissions R = true →
  RoleConfigurator.role_inheritance_step db [RoleConfigurator.inheritance_row R]
    = [RoleConfigurator.inheritance_row P].
Proof.
  intros Hnd HP Hparent Hinherit.
  unfold RoleConfigurator.role_inheritance_step.
  rewrite bind_singleton. simpl.
  transitivity (RoleConfigurator.inheritance_row <$> [P]); [|done]. f_equal.
  rewrite <- (filter_unique_key rh_role_id (db_role_hierarchy db) P Hnd HP).
  apply list_filter_iff. intros rh. rewrite Hparent, Hinherit.
  split; [by intros [[= ->] _]|by intros ->].
Qed.

Lemma step_of_last db (R : hierarchy_row) :
  rh_parent_role_id R = None ∨ rh_inherit_permissions R = false →
  RoleConfigurator.role_inheritance_step db [RoleConfigurator.inheritance_row R]
    = [].
Proof.
  intros Hstop.
  unfold RoleConfigurator.role_inheritance_step.
  rewrite bind_singleton. simpl. rewrite filter_none; [done|].
  intros rh _ [Hp Hi]. destruct Hstop as [Hstop|Hstop]; congruence.
Qed.

Lemma has_permission_direct db user_id permission db' :
  RoleManager.has_permission user_id permission db = Ok true db' →
  Notions.directly_granted db user_id permission.
Proof.
  intros H. apply has_permission_true in H as (_ & _ & H).
  unfold RoleManager.select_user_permissions in H.
  apply elem_of_remove_dups, list_elem_of_bind in H as (ur & H & Hur).
  apply list_elem_of_bind in H as (r & H & Hr).
  apply list_elem_of_bind in H as (rp & H & Hrp).
  apply list_elem_of_bind in H as (p & H & Hp).
  apply list_elem_of_singleton in H.
  apply list_elem_of_filter in Hur as ((? & ? & ?) & ?).
  apply list_elem_of_filter in Hr as ((? & ?) & ?).
  apply list_elem_of_filter in Hrp as (? & ?).
  apply list_elem_of_filter in Hp as (? & ?).
  exists ur, r, rp, p. eauto 10.
Qed.

(** C1, as stated, fails: in [chain_db] the roles form the chain
    A -> B -> C with inheritance on throughout, [x] is granted to A alone
    and user 7 holds C alone; the closure of C contains [x], and
    [has_permission] answers [False]. *)
Lemma has_permission_ignores_inheritance :
  RoleConfigurator.get_role_permissions 3 (Examples.chain_db true)
    = Ok {["x"]} (Examples.chain_db true) ∧
  RoleManager.has_permission 7 "x" (Examples.chain_db true)
    = Ok false (Examples.chain_db true).
Proof. split; vm_compute; reflexivity. Qed.

(** C1 (amended): for a chain A -> B -> C in [role_hierarchy] with A a root
    and C inheriting, and a permission [x] granted to A only, the set
    returned by [get_role_permissions(C)] contains [x] exactly when B
    inherits.  [has_permission] does not read the hierarchy: it answers
    [True] only for a permission that a role assigned to the user holds
    itself. *)
Theorem inheritance_closure db (A B C : hierarchy_row) x :
  NoDup (RoleConfigurator.role_ids db) →
  db_fault db Q_role_inheritance = false →
  A ∈ db_role_hierarchy db → B ∈ db_role_hierarchy db → C ∈ db_role_hierarchy db →
  rh_parent_role_id C = Some (rh_role_id B) →
  rh_parent_role_id B = Some (rh_role_id A) →
  rh_parent_role_id A = None →
  rh_inherit_permissions C = true →
  Notions.grants db (rh_role_id A) x →
  (∀ r, Notions.grants db r x → r = rh_role_id A) →
  (∃ perms,
     RoleConfigurator.get_role_permissions (rh_role_id C) db = Ok perms db ∧
     (x ∈ perms ↔ rh_inherit_permissions B = true)) ∧
  (∀ user_id db',
     RoleManager.has_permission user_id x db = Ok true db' →
     Notions.directly_granted db user_id x).
Proof.
  intros Hnd Hfault HA HB HC HCB HBA HAroot HCinh Hgrant Honly.
  split; [|intros; by eapply has_permission_direct].
  assert (rh_role_id B ≠ rh_role_id A) as HBneA.
  { intros Heq.
    assert (B = A) as -> by
      (apply (list_elem_of_singleton (A:=hierarchy_row));
       rewrite <- (filter_unique_key rh_role_id (db_role_hierarchy db) A Hnd HA);
       by apply list_elem_of_filter).
    congruence. }
  assert (rh_role_id C ≠ rh_role_id A) as HCneA.
  { intros Heq.
    assert (C = A) as -> by
      (apply (list_elem_of_singleton (A:=hierarchy_row));
       rewrite <- (filter_unique_key rh_role_id (db_role_hierarchy db) A Hnd HA);
       by apply list_elem_of_filter).
    congruence. }
  assert (RoleConfigurator.role_inheritance_base (rh_role_id C) db
          = [RoleConfigurator.inheritance_row C]) as Hbase.
  { unfold RoleConfigurator.role_inheritance_base.
    by rewrite (filter_unique_key rh_role_id). }
  assert (∃ n, length (db_role_hierarchy db) = S (S n)) as [n Hlen].
  { destruct (db_role_hierarchy db) as [|r1 [|r2 l]]; simpl; eauto.
    - by apply not_elem_of_nil in HA.
    - apply list_elem_of_singleton in HA, HB. congruence. }
  destruct (rh_inherit_permissions B) eqn:HBinh.
  - eexists. split.
    + apply get_role_permissions_run; [done|].
      unfold RoleConfigurator.role_inheritance, RoleConfigurator.rounds.
      rewrite Hbase, Hlen, !recursive_cte_cons.
      rewrite (step_of_row db C B), recursive_cte_cons by done.
      rewrite (step_of_row db B A), recursive_cte_cons by done.
      rewrite step_of_last, recursive_cte_nil by auto. done.
    + rewrite elem_of_list_to_set, granted_keys_spec. split; [done|].
      intros _. exists (RoleConfigurator.inheritance_row A).
      split; [|done]. set_solver.
  - eexists. split.
    + apply get_role_permissions_run; [done|].
      unfold RoleConfigurator.role_inheritance, RoleConfigurator.rounds.
      rewrite Hbase, Hlen, !recursive_cte_cons.
      rewrite (step_of_row db C B), recursive_cte_cons by done.
      rewrite step_of_last, recursive_cte_nil by auto. done.
    + rewrite elem_of_list_to_set, granted_keys_spec. split; [|done].
      intros (row & Hrow & Hg). apply Honly in Hg.
      apply elem_of_cons in Hrow as [-> | Hrow]; [done|].
      apply list_elem_of_singleton in Hrow as ->. done.
Qed.

Lemma inheritance_closure_witness :
  ∃ perms,
    RoleConfigurator.get_role_permissions 3 (Examples.chain_db false)
      = Ok perms (Examples.chain_db false) ∧
    (("x" : string) ∈ perms ↔ false = true).
Proof.
  apply (inheritance_closure (Examples.chain_db false)
           (Examples.mk_node 1 "A" None 0 true)
           (Examples.mk_node 2 "B" (Some 1) 1 false)
           (Examples.mk_node 3 "C" (Some 2) 2 true) "x").
  - apply (bool_decide_unpack _). vm_compute. exact I.
  - reflexivity.
  - set_solver.
  - set_solver.
  - set_solver.
  - reflexivity.
  - reflexivity.
  - reflexivity.
  - reflexivity.
  - exists (Examples.mk_grant 1 100 None),
           {| pr_permission_id := 100; pr_permission_key := "x" |}.
    repeat split; set_solver.
  - intros r (rpm & pr & Hrpm & _ & <- & _). 
    apply list_elem_of_singleton in Hrpm as ->. reflexivity.
Defined.

(** *** Granting permissions *)

Lemma filter_fmap_stable {A} (P : A → Prop) `{!∀ x, Decision (P x)}
    (f : A → A) (l : list A) :
  (∀ x, P (f x) ↔ P x) → filter P (f <$> l) = f <$> filter P l.
Proof.
  intros HP. induction l as [|x l IH]; [done|].
  rewrite fmap_cons, !filter_cons, IH.
  destruct (decide (P x)) as [Hx|Hx].
  - by rewrite decide_True by by apply HP.
  - by rewrite decide_False by by rewrite HP.
Qed.

Lemma fmap_fixed {A} (f : A → A) (l : list A) :
  (∀ x, x ∈ l → f x = x) → f <$> l = l.
Proof.
  intros Hf. induction l as [|x l IH]; [done|].
  rewrite fmap_cons, Hf, IH; [done| |by left].
  intros y Hy. apply Hf. by right.
Qed.

Lemma regrant_granted granted_by rpm :
  Notions.granted_by_row granted_by rpm →
  RoleConfigurator.regrant granted_by rpm = rpm.
Proof. destruct rpm. unfold Notions.granted_by_row. simpl. by intros [-> ->]. Qed.

Section upsert.
Context (role_id : Z) (granted_by : option Z).

Lemma regranted_settled pid tbl :
  Notions.regranted role_id granted_by pid tbl ≠ [] ∧
  Forall (Notions.granted_by_row granted_by)
         (Notions.regranted role_id granted_by pid tbl).
Proof.
  unfold Notions.regranted.
  destruct (Notions.grant_rows role_id pid tbl) as [|rpm l]; simpl.
  - split; [done|]. by repeat constructor.
  - split; [done|]. apply Forall_cons. split; [done|].
    by apply Forall_fmap, Forall_true.
Qed.

Lemma grant_rows_upsert pid pid' tbl :
  Notions.grant_rows role_id pid
    (RoleConfigurator.upsert_rows role_id pid' granted_by tbl) =
  if decide (pid = pid') then Notions.regranted role_id granted_by pid tbl
  else Notions.grant_rows role_id pid tbl.
Proof.
  unfold RoleConfigurator.upsert_rows, Notions.regranted, Notions.grant_rows.
  destruct (is_nil (filter (RoleConfigurator.same_grant role_id pid') tbl)) eqn:Hnil.
  - rewrite filter_app, filter_cons, filter_nil.
    destruct (decide (pid = pid')) as [->|Hne].
    + rewrite Hnil, decide_True by done.
      by destruct (filter _ tbl).
    + rewrite decide_False, app_nil_r; [done|].
      unfold RoleConfigurator.same_grant. simpl. intros [_ ?]. congruence.
  - rewrite filter_fmap_stable.
    2:{ intros rpm. unfold RoleConfigurator.same_grant.
        by destruct (decide _). }
    destruct (decide (pid = pid')) as [->|Hne].
    + rewrite Hnil. apply list_fmap_ext. intros ? rpm Hrpm.
      apply list_elem_of_lookup_2, list_elem_of_filter in Hrpm as [? _].
      by rewrite decide_True.
    + apply fmap_fixed. intros rpm Hrpm.
      apply list_elem_of_filter in Hrpm as [[? ?] _].
      rewrite decide_False; [done|].
      unfold RoleConfigurator.same_grant. intros [_ ?]. congruence.
Qed.

Lemma upsert_settled pid tbl :
  Notions.settled role_id granted_by pid tbl →
  RoleConfigurator.upsert_rows role_id pid granted_by tbl = tbl.
Proof.
  intros [Hne Hall]. unfold RoleConfigurator.upsert_rows.
  unfold Notions.grant_rows in *.
  destruct (filter _ tbl) eqn:Hrows; [done|]. simpl.
  apply fmap_fixed. intros rpm Hrpm. destruct (decide _) as [Hs|]; [|done].
  apply regrant_granted.
  rewrite Forall_forall in Hall. apply Hall. rewrite <- Hrows.
  by apply list_elem_of_filter.
Qed.

Lemma grant_rows_grant_all pids pid tbl :
  Notions.grant_rows role_id pid (Notions.grant_all role_id granted_by pids tbl) =
  if decide (pid ∈ pids) then Notions.regranted role_id granted_by pid tbl
  else Notions.grant_rows role_id pid tbl.
Proof.
  revert tbl. induction pids as [|p pids IH]; intros tbl.
  { destruct (decide _) as [Hin|]; [|done]. by apply not_elem_of_nil in Hin. }
  unfold Notions.grant_all in *. simpl. rewrite IH.
  destruct (decide (pid ∈ pids)) as [Hin|Hnin].
  - rewrite decide_True by by right.
    unfold Notions.regranted at 1. rewrite grant_rows_upsert.
    destruct (decide (pid = p)) as [->|Hne]; [|done].
    destruct (regranted_settled p tbl) as [Hne Hall].
    destruct (Notions.regranted role_id granted_by p tbl) eqn:Ht; [done|].
    simpl is_nil. cbv iota. apply fmap_fixed. intros rpm Hrpm.
    apply regrant_granted. rewrite Forall_forall in Hall. by apply Hall.
  - rewrite grant_rows_upsert.
    destruct (decide (pid = p)) as [->|Hne].
    + by rewrite decide_True by by left.
    + rewrite decide_False; [done|]. rewrite elem_of_cons. tauto.
Qed.

Lemma grant_all_settled pids tbl :
  (∀ pid, pid ∈ pids → Notions.settled role_id granted_by pid tbl) →
  Notions.grant_all role_id granted_by pids tbl = tbl.
Proof.
  revert tbl. induction pids as [|p pids IH]; intros tbl Hall; [done|].
  unfold Notions.grant_all in *. simpl.
  rewrite upsert_settled by (apply Hall; by left).
  apply IH. intros pid Hin. apply Hall. by right.
Qed.

Lemma grant_all_twice pids tbl :
  Notions.grant_all role_id granted_by pids
    (Notions.grant_all role_id granted_by pids tbl) =
  Notions.grant_all role_id granted_by pids tbl.
Proof.
  apply grant_all_settled. intros pid Hin. unfold Notions.settled.
  rewrite grant_rows_grant_all, decide_True by done.
  apply regranted_settled.
Qed.

Lemma grant_all_rows pids pid tbl :
  pid ∈ pids →
  let before := Notions.grant_rows role_id pid tbl in
  let after := Notions.grant_rows role_id pid
                 (Notions.grant_all role_id granted_by pids tbl) in
  length after = Nat.max 1 (length before) ∧
  Forall (Notions.granted_by_row granted_by) after ∧
  rpm_expires_at <$> after =
    if is_nil before then [None] else rpm_expires_at <$> before.
Proof.
  intros Hin before after. unfold after.
  rewrite grant_rows_grant_all, decide_True by done.
  split; [|split; [apply regranted_settled|]].
  - unfold Notions.regranted. fold before. destruct before; simpl; [done|].
    by rewrite length_fmap.
  - unfold Notions.regranted. fold before.
    destruct before as [|rpm l]; simpl; [done|].
    f_equal. rewrite <- list_fmap_compose. by apply list_fmap_ext.
Qed.
End upsert.

Lemma log_role_action_run action_type role_id changed_by old_value new_value
    change_reason db :
  ∃ db', RoleConfigurator._log_role_action action_type role_id changed_by
           old_value new_value change_reason db = Ok () db' ∧
         db_role_permissions_mapping db' = db_role_permissions_mapping db ∧
         db_permission_registry db' = db_permission_registry db ∧
         db_role_hierarchy db' = db_role_hierarchy db.
Proof.
  unfold RoleConfigurator._log_role_action, RoleConfigurator.insert_role_audit. run.
  destruct (db_fault db Q_insert_role_audit); eauto.
Qed.

Lemma grant_loop_run role_id granted_by (pm : gmap string Z) keys db db' :
  RoleConfigurator.for_each keys
    (λ perm_key,
       match pm !! perm_key with
       | Some permission_id =>
           execute_update Q_upsert_mapping
             (RoleConfigurator.upsert_mapping role_id permission_id granted_by)
       | None => mret ()
       end) db = Ok () db' →
  db_permission_registry db' = db_permission_registry db ∧
  db_role_permissions_mapping db' =
    Notions.grant_all role_id granted_by (omap (pm !!.) keys)
      (db_role_permissions_mapping db).
Proof.
  revert db. induction keys as [|key keys IH]; intros db; simpl.
  { run. by intros [= <-]. }
  run. destruct (pm !! key) as [pid|] eqn:Hpid; simpl.
  - destruct (db_fault db Q_upsert_mapping); [done|].
    unfold RoleConfigurator.upsert_mapping.
    destruct (_ && _); [|done].
    intros Hrun. apply IH in Hrun as [-> ->]. done.
  - intros Hrun. by apply IH in Hrun.
Qed.

Lemma assign_permissions_run role_id keys granted_by db db' :
  RoleConfigurator.assign_permissions_to_role role_id keys granted_by db
    = Ok true db' →
  db_permission_registry db' = db_permission_registry db ∧
  db_role_permissions_mapping db' =
    Notions.grant_all role_id granted_by (Notions.requested_ids db keys)
      (db_role_permissions_mapping db).
Proof.
  unfold RoleConfigurator.assign_permissions_to_role. run.
  destruct (db_fault db Q_lookup_permissions); [done|].
  destruct (RoleConfigurator.select_permissions_in keys db)
    as [e|[rows db0]] eqn:Hsel; [done|].
  assert (db0 = db ∧
          rows = (λ pr, (pr_permission_id pr, pr_permission_key pr)) <$>
                   filter (λ pr, pr_permission_key pr ∈ keys)
                          (db_permission_registry db)) as [-> Hrows].
  { unfold RoleConfigurator.select_permissions_in in Hsel.
    destruct keys; [done|]. by injection Hsel as <- <-. }
  destruct (db_shape db); simpl; [done|].
  destruct (negb (is_nil rows)); simpl; [|done].
  match goal with
  | |- context [RoleConfigurator.for_each ?ks ?body db] =>
      destruct (RoleConfigurator.for_each ks body db) as [[] db1|] eqn:Hloop;
        [|done]
  end.
  apply grant_loop_run in Hloop as [Hreg Hmap].
  match goal with
  | |- context [RoleConfigurator._log_role_action ?a ?b ?c ?d ?e ?f db1] =>
      destruct (log_role_action_run a b c d e f db1)
        as (db2 & -> & Hmap2 & Hreg2 & _)
  end.
  intros [= <-]. split; [congruence|]. rewrite Hmap2, Hmap, Hrows. done.
Qed.

(** With unique keys, the dictionary built from the returned rows maps a
    key to the id of its row. *)
Lemma permission_mapping_of_lookup (rows : list (Z * string)) id key :
  NoDup (snd <$> rows) → (id, key) ∈ rows →
  RoleConfigurator.permission_mapping_of rows !! key = Some id.
Proof.
  unfold RoleConfigurator.permission_mapping_of.
  generalize (∅ : gmap string Z).
  induction rows as [|[i k] rows IH]; intros m Hnd Hin;
    [by apply not_elem_of_nil in Hin|].
  rewrite fmap_cons in Hnd. apply NoDup_cons in Hnd as [Hk Hnd]. simpl in *.
  apply elem_of_cons in Hin as [[= -> ->]|Hin]; [|by apply IH].
  clear IH Hnd. revert m. induction rows as [|[i' k'] rows IH]; intros m; simpl.
  { apply lookup_insert_eq. }
  rewrite fmap_cons in Hk. apply not_elem_of_cons in Hk as [Hne Hk]. simpl in *.
  rewrite insert_insert_ne by done. by apply IH.
Qed.

Lemma requested_ids_registered db keys pr :
  NoDup (pr_permission_key <$> db_permission_registry db) →
  pr ∈ db_permission_registry db →
  pr_permission_key pr ∈ keys →
  pr_permission_id pr ∈ Notions.requested_ids db keys.
Proof.
  intros Hnd Hpr Hkey. unfold Notions.requested_ids.
  apply list_elem_of_omap. exists (pr_permission_key pr). split; [done|].
  apply permission_mapping_of_lookup.
  - rewrite <- list_fmap_compose.
    assert (NoDup (pr_permission_key <$>
                     filter (λ pr, pr_permission_key pr ∈ keys)
                            (db_permission_registry db))) as H; [|exact H].
    revert Hnd. generalize (db_permission_registry db).
    induction l as [|x l IH]; [done|].
    rewrite fmap_cons, NoDup_cons, filter_cons. intros [Hx Hnd].
    destruct (decide _); [|by apply IH].
    rewrite fmap_cons. apply NoDup_cons. split; [|by apply IH].
    intros Hin. apply Hx. apply list_elem_of_fmap in Hin as (y & -> & Hy).
    apply list_elem_of_filter in Hy as [_ Hy]. by apply list_elem_of_fmap_2.
  - apply (list_elem_of_fmap_2'  _ _ pr); [|done].
    by apply list_elem_of_filter.
Qed.

(** C7, as stated, fails: role 2 holds a grant of [users.view] that expired
    at 5; granting the key twice more at time 1000 keeps the one row but
    leaves its [expires_at] at 5, so the role still has no active grant. *)
Lemma regrant_keeps_expiry :
  ∃ db1 db2,
    RoleConfigurator.assign_permissions_to_role 2 ["users.view"] (Some 7)
      (Examples.small_db [Examples.mk_grant 2 100 (Some 5)]) = Ok true db1 ∧
    RoleConfigurator.assign_permissions_to_role 2 ["users.view"] (Some 7) db1
      = Ok true db2 ∧
    db_role_permissions_mapping db2 =
      [{| rpm_role_id := 2; rpm_permission_id := 100; rpm_granted := true;
          rpm_granted_by := Some 7; rpm_expires_at := Some 5 |}] ∧
    RoleConfigurator.get_role_permissions 2 db2 = Ok ∅ db2.
Proof.
  eexists _, _. split; [vm_compute; reflexivity|].
  split; [vm_compute; reflexivity|].
  split; vm_compute; reflexivity.
Qed.

(** C7 (amended): two identical, successful calls of
    [assign_permissions_to_role] leave the mapping table as the first call
    left it.  For every registered key among those granted, the pair
    (role, permission) has its old number of rows, or one row when it had
    none; every such row is granted with [granted_by] of the caller; and
    [expires_at] is not touched: a fresh row has none, an old row keeps
    its own. *)
Theorem regrant_is_idempotent db role_id keys granted_by db1 db2 :
  RoleConfigurator.assign_permissions_to_role role_id keys granted_by db
    = Ok true db1 →
  RoleConfigurator.assign_permissions_to_role role_id keys granted_by db1
    = Ok true db2 →
  db_role_permissions_mapping db2 = db_role_permissions_mapping db1 ∧
  ∀ pr,
    NoDup (pr_permission_key <$> db_permission_registry db) →
    pr ∈ db_permission_registry db →
    pr_permission_key pr ∈ keys →
    let before := Notions.grant_rows role_id (pr_permission_id pr)
                    (db_role_permissions_mapping db) in
    let after := Notions.grant_rows role_id (pr_permission_id pr)
                   (db_role_permissions_mapping db2) in
    length after = Nat.max 1 (length before) ∧
    Forall (Notions.granted_by_row granted_by) after ∧
    rpm_expires_at <$> after =
      if is_nil before then [None] else rpm_expires_at <$> before.
Proof.
  intros H1 H2.
  apply assign_permissions_run in H1 as [Hreg1 Hmap1].
  apply assign_permissions_run in H2 as [Hreg2 Hmap2].
  assert (Notions.requested_ids db1 keys = Notions.requested_ids db keys) as Hids
    by (unfold Notions.requested_ids; by rewrite Hreg1).
  assert (db_role_permissions_mapping db2 = db_role_permissions_mapping db1) as Hsame.
  { rewrite Hmap2, Hids, Hmap1. apply grant_all_twice. }
  split; [done|].
  intros pr Hnd Hpr Hkey. rewrite Hsame, Hmap1.
  apply grant_all_rows. by apply requested_ids_registered.
Qed.

Lemma regrant_is_idempotent_witness :
  ∃ db1 db2,
    RoleConfigurator.assign_permissions_to_role 2 ["users.view"; "users.edit"]
      (Some 7) (Examples.small_db [Examples.mk_grant 2 100 (Some 5)])
      = Ok true db1 ∧
    RoleConfigurator.assign_permissions_to_role 2 ["users.view"; "users.edit"]
      (Some 7) db1 = Ok true db2 ∧
    db_role_permissions_mapping db2 = db_role_permissions_mapping db1.
Proof.
  eexists _, _. split; [vm_compute; reflexivity|].
  split; [vm_compute; reflexivity|].
  eapply (regrant_is_idempotent
            (Examples.small_db [Examples.mk_grant 2 100 (Some 5)]) 2
            ["users.view"; "users.edit"] (Some 7)).
  - vm_compute; reflexivity.
  - vm_compute; reflexivity.
Defined.

(** *** Levels *)

Lemma recursive_cte_indexed {A} (step : list A → list A) (P : nat → A → Prop) :
  (∀ k work, (∀ x, x ∈ work → P k x) → ∀ y, y ∈ step work → P (S k) y) →
  ∀ fuel k work out,
    (∀ x, x ∈ work → P k x) →
    recursive_cte step fuel work = Some out →
    ∀ x, x ∈ out → ∃ j, P j x.
Proof.
  intros Hstep. induction fuel as [|fuel IH]; intros k work out Hwork Hrun x Hx.
  - destruct work; [|done]. injection Hrun as <-. by apply not_elem_of_nil in Hx.
  - destruct work as [|w work].
    { injection Hrun as <-. by apply not_elem_of_nil in Hx. }
    rewrite recursive_cte_cons in Hrun.
    destruct (recursive_cte step fuel (step (w :: work))) as [out'|] eqn:Hrec;
      [|done].
    injection Hrun as <-. rewrite app_comm_cons in Hx.
    apply elem_of_app in Hx as [Hx|Hx]; [eauto|].
    eapply (IH (S k)); [|done..]. by apply Hstep.
Qed.

(** A recursion whose rows carry a bounded round number ends. *)
Lemma recursive_cte_bounded {A} (step : list A → list A) (P : nat → A → Prop)
    (bound : nat) :
  (∀ k work, (∀ x, x ∈ work → P k x) → ∀ y, y ∈ step work → P (S k) y) →
  (∀ k x, P k x → (k ≤ bound)%nat) →
  ∀ fuel k work,
    (∀ x, x ∈ work → P k x) →
    (bound < k + fuel)%nat →
    is_Some (recursive_cte step fuel work).
Proof.
  intros Hstep Hbound. induction fuel as [|fuel IH]; intros k work Hwork Hlt.
  - destruct work as [|w work]; [by eexists|].
    assert (k ≤ bound)%nat by (eapply Hbound, Hwork; by left). lia.
  - destruct work as [|w work]; [by eexists|].
    rewrite recursive_cte_cons.
    destruct (IH (S k) (step (w :: work))) as [out Hout];
      [by apply Hstep|lia|].
    rewrite Hout. by eexists.
Qed.

(** The result contains the starting rows and is closed under the
    recursive term. *)
Lemma recursive_cte_closed {A} (step : list A → list A) :
  (∀ work y, y ∈ step work ↔ ∃ x, x ∈ work ∧ y ∈ step [x]) →
  ∀ fuel work out,
    recursive_cte step fuel work = Some out →
    (∀ x, x ∈ work → x ∈ out) ∧
    (∀ x y, x ∈ out → y ∈ step [x] → y ∈ out).
Proof.
  intros Hstep. induction fuel as [|fuel IH]; intros work out Hrun.
  - destruct work; [|done]. injection Hrun as <-.
    split; [done|]. intros x y Hx. by apply not_elem_of_nil in Hx.
  - destruct work as [|w work].
    { injection Hrun as <-. split; [done|].
      intros x y Hx. by apply not_elem_of_nil in Hx. }
    rewrite recursive_cte_cons in Hrun.
    destruct (recursive_cte step fuel (step (w :: work))) as [out'|] eqn:Hrec;
      [|done].
    injection Hrun as <-. destruct (IH _ _ Hrec) as [Hin Hclosed]. split.
    + intros x Hx. rewrite app_comm_cons. apply elem_of_app. by left.
    + intros x y Hx Hy. rewrite app_comm_cons in *. apply elem_of_app. right.
      apply elem_of_app in Hx as [Hx|Hx]; [|by eapply Hclosed].
      apply Hin, Hstep. eauto.
Qed.

Lemma role_of_elem tbl p prow :
  Notions.role_of tbl p = Some prow → prow ∈ tbl ∧ rh_role_id prow = p.
Proof.
  unfold Notions.role_of. intros Hhead.
  assert (prow ∈ filter (λ rh, rh_role_id rh = p) tbl) as Hin.
  { destruct (filter _ tbl); [done|]. injection Hhead as ->. by left. }
  apply list_elem_of_filter in Hin. tauto.
Qed.

Lemma role_of_stored tbl rh :
  NoDup (rh_role_id <$> tbl) → rh ∈ tbl →
  Notions.role_of tbl (rh_role_id rh) = Some rh.
Proof.
  intros Hnd Hin. unfold Notions.role_of.
  by rewrite (filter_unique_key rh_role_id).
Qed.

Lemma depth_within_mono tbl n m rh d :
  Notions.depth_within tbl n rh = Some d → (n ≤ m)%nat →
  Notions.depth_within tbl m rh = Some d.
Proof.
  revert m rh d. induction n as [|n IH]; intros m rh d Hd Hle.
  - destruct m; simpl in *; destruct (rh_parent_role_id rh); done.
  - destruct m as [|m]; [lia|]. simpl in *.
    destruct (rh_parent_role_id rh) as [p|]; [|done].
    destruct (Notions.role_of tbl p) as [prow|]; [|done]. simpl in *.
    destruct (Notions.depth_within tbl n prow) as [d'|] eqn:Hd'; [|done].
    rewrite (IH m prow d') by (done || lia). done.
Qed.

Lemma depth_within_bound tbl n rh d :
  Notions.depth_within tbl n rh = Some d → 0 ≤ d ≤ Z.of_nat n.
Proof.
  revert rh d. induction n as [|n IH]; intros rh d Hd; simpl in Hd.
  - destruct (rh_parent_role_id rh); [done|]. injection Hd as <-. lia.
  - destruct (rh_parent_role_id rh) as [p|]; [|injection Hd as <-; lia].
    destruct (Notions.role_of tbl p) as [prow|]; [|done]. simpl in Hd.
    destruct (Notions.depth_within tbl n prow) as [d'|] eqn:Hd'; [|done].
    injection Hd as <-. apply IH in Hd'. lia.
Qed.

Lemma depth_within_fun tbl n m rh d d' :
  Notions.depth_within tbl n rh = Some d →
  Notions.depth_within tbl m rh = Some d' → d = d'.
Proof.
  intros Hn Hm.
  apply (depth_within_mono _ _ (n `max` m)%nat) in Hn; [|lia].
  apply (depth_within_mono _ _ (n `max` m)%nat) in Hm; [|lia].
  congruence.
Qed.

Section levels.
Context (db : Db).
Context (Hnd : NoDup (rh_role_id <$> db_role_hierarchy db)).

Lemma role_levels_base_counted row :
  row ∈ RoleConfigurator.role_levels_base db →
  Notions.counted (db_role_hierarchy db) 0 row.
Proof.
  unfold RoleConfigurator.role_levels_base.
  intros Hrow. apply list_elem_of_fmap in Hrow as (rh & -> & Hrh).
  apply list_elem_of_filter in Hrh as [Hroot Hrh].
  split; [done|]. exists rh, 0%nat. simpl. by rewrite Hroot.
Qed.

Lemma role_levels_step_elem work y :
  y ∈ RoleConfigurator.role_levels_step db work ↔
  ∃ x rh, x ∈ work ∧ rh ∈ db_role_hierarchy db ∧
          rh_parent_role_id rh = Some x.1 ∧ y = (rh_role_id rh, x.2 + 1).
Proof.
  unfold RoleConfigurator.role_levels_step.
  rewrite list_elem_of_bind. split.
  - intros ([role_id new_level] & Hy & Hx).
    apply list_elem_of_fmap in Hy as (rh & -> & Hrh).
    apply list_elem_of_filter in Hrh as [? ?]. eauto 10.
  - intros ([role_id new_level] & rh & Hx & Hrh & Hp & ->).
    eexists. split; [|done]. simpl.
    apply list_elem_of_fmap. exists rh. split; [done|].
    by apply list_elem_of_filter.
Qed.

Lemma role_levels_step_counted k work :
  (∀ x, x ∈ work → Notions.counted (db_role_hierarchy db) k x) →
  ∀ y, y ∈ RoleConfigurator.role_levels_step db work →
       Notions.counted (db_role_hierarchy db) (S k) y.
Proof.
  intros Hwork y Hy.
  apply role_levels_step_elem in Hy as (x & rh & Hx & Hrh & Hp & ->).
  destruct (Hwork x Hx) as (Hk & prow & n & Hprow & Hid & Hd).
  split; [simpl; lia|]. exists rh, (S n). simpl.
  split; [done|]. split; [done|].
  rewrite Hp, <- Hid, (role_of_stored (db_role_hierarchy db) prow) by done.
  simpl. by rewrite Hd.
Qed.

Lemma role_levels_step_split work y :
  y ∈ RoleConfigurator.role_levels_step db work ↔
  ∃ x, x ∈ work ∧ y ∈ RoleConfigurator.role_levels_step db [x].
Proof.
  rewrite role_levels_step_elem. split.
  - intros (x & rh & Hx & Hrest). exists x. split; [done|].
    apply role_levels_step_elem. exists x, rh.
    split; [by left|done].
  - intros (x & Hx & Hy).
    apply role_levels_step_elem in Hy as (x' & rh & Hx' & Hrest).
    apply list_elem_of_singleton in Hx' as ->. eauto.
Qed.

Context (Hforest :
  Forall (λ rh, is_Some (Notions.depth_within (db_role_hierarchy db)
                           (length (db_role_hierarchy db)) rh))
         (db_role_hierarchy db)).

Lemma counted_bound k row :
  Notions.counted (db_role_hierarchy db) k row →
  (k ≤ length (db_role_hierarchy db))%nat.
Proof.
  intros (Hk & rh & n & Hrh & _ & Hd).
  rewrite Forall_forall in Hforest.
  destruct (Hforest rh Hrh) as [d Hd'].
  rewrite (depth_within_fun _ _ _ _ _ _ Hd Hd') in Hk.
  apply depth_within_bound in Hd'. lia.
Qed.

(** On a forest the level statement ends, and the first level it lists
    for a role is the role's depth. *)
Lemma role_levels_forest :
  ∃ rl, RoleConfigurator.role_levels db = Some rl ∧
    ∀ rh, rh ∈ db_role_hierarchy db →
      ∃ d, Notions.depth_within (db_role_hierarchy db)
             (length (db_role_hierarchy db)) rh = Some d ∧
           RoleConfigurator.relevel rl rh = RoleConfigurator.with_level d rh.
Proof.
  destruct (recursive_cte_bounded (RoleConfigurator.role_levels_step db)
              (Notions.counted (db_role_hierarchy db))
              (length (db_role_hierarchy db))
              role_levels_step_counted counted_bound
              (RoleConfigurator.rounds db) 0
              (RoleConfigurator.role_levels_base db)) as [rl Hrl].
  { apply role_levels_base_counted. }
  { unfold RoleConfigurator.rounds. lia. }
  exists rl. split; [done|].
  destruct (recursive_cte_closed _ role_levels_step_split _ _ _ Hrl)
    as [Hbase Hclosed].
  assert (∀ n rh d, rh ∈ db_role_hierarchy db →
                    Notions.depth_within (db_role_hierarchy db) n rh = Some d →
                    (rh_role_id rh, d) ∈ rl) as Hcomplete.
  { induction n as [|n IH]; intros rh d Hrh Hd; simpl in Hd.
    - destruct (rh_parent_role_id rh) eqn:Hp; [done|]. injection Hd as <-.
      apply Hbase. unfold RoleConfigurator.role_levels_base.
      apply (list_elem_of_fmap_2' _ _ rh); [|done].
      by apply list_elem_of_filter.
    - destruct (rh_parent_role_id rh) as [p|] eqn:Hp.
      + destruct (Notions.role_of (db_role_hierarchy db) p) as [prow|] eqn:Hprow;
          [|done].
        simpl in Hd.
        destruct (Notions.depth_within (db_role_hierarchy db) n prow)
          as [d'|] eqn:Hd'; [|done].
        injection Hd as <-. apply role_of_elem in Hprow as [Hin <-].
        apply (Hclosed (rh_role_id prow, d')); [by apply IH|].
        apply role_levels_step_elem. exists (rh_role_id prow, d'), rh.
        split; [by left|done].
      + injection Hd as <-.
        apply Hbase. unfold RoleConfigurator.role_levels_base.
        apply (list_elem_of_fmap_2' _ _ rh); [|done].
        by apply list_elem_of_filter. }
  intros rh Hrh. rewrite Forall_forall in Hforest.
  destruct (Hforest rh Hrh) as [d Hd]. exists d. split; [done|].
  unfold RoleConfigurator.relevel.
  destruct (filter (λ row, row.1 = rh_role_id rh) rl) as [|[i l] rest] eqn:Hf.
  { exfalso. eapply (filter_nil_not_elem_of _ _ (rh_role_id rh, d)); [done..|].
    by eapply Hcomplete. }
  assert ((i, l) ∈ filter (λ row, row.1 = rh_role_id rh) rl) as Hil
    by (rewrite Hf; by left).
  apply list_elem_of_filter in Hil as [Hi Hil]. simpl in Hi. subst i.
  destruct (recursive_cte_indexed _ (Notions.counted (db_role_hierarchy db))
              role_levels_step_counted
              _ 0 _ _ role_levels_base_counted Hrl _ Hil)
    as (j & _ & rh' & n & Hrh' & Hid & Hd').
  simpl in *.
  assert (rh' = rh) as ->.
  { apply (list_elem_of_singleton (A:=hierarchy_row)).
    rewrite <- (filter_unique_key rh_role_id (db_role_hierarchy db) rh Hnd Hrh).
    by apply list_elem_of_filter. }
  by rewrite (depth_within_fun _ _ _ _ _ _ Hd' Hd).
Qed.
End levels.

Lemma relevel_id rl rh :
  rh_role_id (RoleConfigurator.relevel rl rh) = rh_role_id rh.
Proof.
  unfold RoleConfigurator.relevel. by destruct (filter _ rl) as [|[] ?].
Qed.

Lemma relevel_parent rl rh :
  rh_parent_role_id (RoleConfigurator.relevel rl rh) = rh_parent_role_id rh.
Proof.
  unfold RoleConfigurator.relevel. by destruct (filter _ rl) as [|[] ?].
Qed.

Lemma role_of_relevel rl tbl p :
  Notions.role_of (RoleConfigurator.relevel rl <$> tbl) p =
  RoleConfigurator.relevel rl <$> Notions.role_of tbl p.
Proof.
  unfold Notions.role_of.
  rewrite filter_fmap_stable by (intros rh; by rewrite relevel_id).
  by destruct (filter _ tbl).
Qed.

Lemma depth_within_relevel rl tbl n rh :
  Notions.depth_within (RoleConfigurator.relevel rl <$> tbl) n
    (RoleConfigurator.relevel rl rh) =
  Notions.depth_within tbl n rh.
Proof.
  revert rh. induction n as [|n IH]; intros rh; simpl; rewrite relevel_parent.
  - done.
  - destruct (rh_parent_role_id rh) as [p|]; [|done].
    rewrite role_of_relevel.
    destruct (Notions.role_of tbl p) as [prow|]; [|done]. simpl.
    by rewrite IH.
Qed.

Lemma forest_relevel rl tbl :
  Notions.forest (RoleConfigurator.relevel rl <$> tbl) → Notions.forest tbl.
Proof.
  intros [Hnd Hall]. split.
  - rewrite <- list_fmap_compose in Hnd.
    erewrite list_fmap_ext in Hnd; [exact Hnd|].
    intros ? rh _. simpl. apply relevel_id.
  - rewrite Forall_fmap, length_fmap in Hall.
    eapply Forall_impl; [exact Hall|].
    intros rh. simpl. by rewrite depth_within_relevel.
Qed.

Lemma depth_within_root tbl n rh d :
  rh_parent_role_id rh = None →
  Notions.depth_within tbl n rh = Some d → d = 0.
Proof. intros Hp. destruct n; simpl; rewrite Hp; congruence. Qed.

Lemma depth_within_child tbl n rh p d :
  rh_parent_role_id rh = Some p →
  Notions.depth_within tbl n rh = Some d →
  ∃ prow n' d', Notions.role_of tbl p = Some prow ∧
                Notions.depth_within tbl n' prow = Some d' ∧ d = d' + 1.
Proof.
  intros Hp. destruct n as [|n]; simpl; rewrite Hp; [done|].
  destruct (Notions.role_of tbl p) as [prow|]; [|done]. simpl.
  destruct (Notions.depth_within tbl n prow) as [d'|] eqn:Hd'; [|done].
  intros [= <-]. eauto 10.
Qed.

(** Writing each role's depth into [level] makes the levels consistent. *)
Lemma relevel_consistent rl tbl :
  (∀ rh, rh ∈ tbl →
     ∃ d, Notions.depth_within tbl (length tbl) rh = Some d ∧
          RoleConfigurator.relevel rl rh = RoleConfigurator.with_level d rh) →
  Notions.levels_consistent (RoleConfigurator.relevel rl <$> tbl).
Proof.
  intros Hdepth. unfold Notions.levels_consistent.
  rewrite Forall_fmap. apply Forall_forall. intros rh Hrh. simpl.
  unfold Notions.level_ok. rewrite relevel_parent.
  destruct (Hdepth rh Hrh) as (d & Hd & Hrl).
  destruct (rh_parent_role_id rh) as [p|] eqn:Hp.
  - destruct (depth_within_child _ _ _ _ _ Hp Hd)
      as (prow & n' & d' & Hprow & Hd' & ->).
    exists (RoleConfigurator.relevel rl prow).
    rewrite role_of_relevel, Hprow. split; [done|].
    apply role_of_elem in Hprow as [Hin _].
    destruct (Hdepth prow Hin) as (d'' & Hd'' & Hrl').
    rewrite Hrl, Hrl'. simpl.
    by rewrite (depth_within_fun _ _ _ _ _ _ Hd' Hd'').
  - rewrite Hrl. simpl. by eapply depth_within_root.
Qed.

Lemma would_create_cycle_pure role_id new_parent_id db :
  ∃ b, RoleConfigurator._would_create_cycle role_id new_parent_id db = Ok b db.
Proof.
  unfold RoleConfigurator._would_create_cycle,
         RoleConfigurator.select_parent_chain. run.
  destruct (db_fault db Q_parent_chain); [eauto|].
  destruct (RoleConfigurator.parent_chain new_parent_id db); eauto.
Qed.

(** An accepted reparent has updated the parent pointer and then run the
    level statement on the result. *)
Lemma update_role_hierarchy_run role_id new_parent_id updated_by db db' :
  RoleConfigurator.update_role_hierarchy role_id new_parent_id updated_by db
    = Ok true db' →
  db_fault db Q_update_levels = false →
  ∃ tbl,
    tbl = RoleConfigurator.reparent_rows role_id new_parent_id
            (db_role_hierarchy db) ∧
    match RoleConfigurator.role_levels (set_role_hierarchy tbl db) with
    | Some rl => db_role_hierarchy db' = RoleConfigurator.relevel rl <$> tbl
    | None => db_role_hierarchy db' = tbl
    end.
Proof.
  intros Hrun Hfault. revert Hrun.
  unfold RoleConfigurator.update_role_hierarchy. run.
  assert (∃ b,
    match new_parent_id with
    | Some p => if bool_decide (p ≠ 0)
                then RoleConfigurator._would_create_cycle role_id p
                else λ db, Ok false db
    | None => λ db, Ok false db
    end db = Ok b db) as [b ->].
  { destruct new_parent_id as [p|]; [|eauto].
    case_bool_decide; [|eauto]. apply would_create_cycle_pure. }
  destruct b; [done|].
  destruct (db_fault db Q_old_parent); [done|].
  destruct (db_shape db); simpl; [done|].
  destruct (RoleConfigurator.select_old_parent role_id db) as [|old rest]; simpl.
  all: destruct (db_fault db Q_update_parent); [done|].
  all: unfold RoleConfigurator.update_parent.
  all: destruct (_ && _); [done|].
  all: unfold RoleConfigurator._update_role_levels,
              RoleConfigurator.update_levels; run.
  all: rewrite Hfault.
  all: set (tbl := RoleConfigurator.reparent_rows role_id new_parent_id
                     (db_role_hierarchy db)).
  all: destruct (RoleConfigurator.role_levels (set_role_hierarchy tbl db))
         as [rl|] eqn:Hrl.
  all: match goal with
       | |- context [RoleConfigurator._log_role_action ?a ?b ?c ?d ?e ?f ?db0] =>
           destruct (log_role_action_run a b c d e f db0)
             as (db2 & -> & _ & _ & Htbl)
       end.
  all: intros [= <-]; exists tbl; split; [done|]; by rewrite Hrl, Htbl.
Qed.

Lemma create_role_run role_data role_id db db' :
  RoleConfigurator.create_role role_data db = Ok (Some role_id) db' →
  ∃ row,
    db_role_hierarchy db' = (db_role_hierarchy db ++ [row])%list ∧
    rh_role_id row = role_id ∧
    rh_parent_role_id row = RoleConfigurator.rd_parent_role_id role_data ∧
    rh_level row = default 0 (RoleConfigurator.rd_level role_data).
Proof.
  unfold RoleConfigurator.create_role, RoleConfigurator.subscript. run.
  destruct (RoleConfigurator.rd_role_name role_data) as [role_name|]; [|done].
  destruct (RoleConfigurator.rd_display_name role_data) as [display_name|];
    [|done].
  simpl. destruct (db_fault db Q_insert_role); [done|].
  unfold RoleConfigurator.insert_role.
  destruct (_ && _); [|done].
  destruct (db_shape db); simpl; [done|].
  match goal with
  | |- context [RoleConfigurator._log_role_action ?a ?b ?c ?d ?e ?f ?db0] =>
      destruct (log_role_action_run a b c d e f db0)
        as (db2 & -> & _ & _ & Htbl)
  end.
  intros [= <- <-]. eexists. rewrite Htbl. simpl. done.
Qed.

(** C5, as stated, fails: role 4 has level 2, and [create_role] stores its
    new child, role 5, with level 0. *)
Lemma create_role_ignores_parent_level :
  ∃ db' row,
    RoleConfigurator.create_role Examples.child_data (Examples.small_db [])
      = Ok (Some 5) db' ∧
    rh_level <$> Notions.role_of (db_role_hierarchy db') 4 = Some 2 ∧
    Notions.role_of (db_role_hierarchy db') 5 = Some row ∧
    rh_parent_role_id row = Some 4 ∧
    rh_level row = 0 ∧
    ¬ Notions.level_ok (db_role_hierarchy db') row.
Proof.
  eexists _, _. split; [vm_compute; reflexivity|].
  split; [vm_compute; reflexivity|].
  split; [vm_compute; reflexivity|].
  split; [reflexivity|]. split; [reflexivity|].
  intros (prow & Hprow & Hlevel). vm_compute in Hprow.
  injection Hprow as <-. vm_compute in Hlevel. discriminate.
Qed.

(** C5 (amended): [create_role] stores the level given in [role_data], 0
    when there is none, whatever the parent.  After an accepted reparent
    whose level statement did not raise and which leaves the hierarchy a
    forest, every role has level 0 when it has no parent and the level of
    its parent plus one otherwise. *)
Theorem reparent_restores_levels db role_id new_parent_id updated_by db' :
  db_fault db Q_update_levels = false →
  RoleConfigurator.update_role_hierarchy role_id new_parent_id updated_by db
    = Ok true db' →
  Notions.forest (db_role_hierarchy db') →
  Notions.levels_consistent (db_role_hierarchy db') ∧
  (∀ role_data new_id db0 db0',
     RoleConfigurator.create_role role_data db0 = Ok (Some new_id) db0' →
     ∃ row,
       db_role_hierarchy db0' = (db_role_hierarchy db0 ++ [row])%list ∧
       rh_role_id row = new_id ∧
       rh_parent_role_id row = RoleConfigurator.rd_parent_role_id role_data ∧
       rh_level row = default 0 (RoleConfigurator.rd_level role_data)).
Proof.
  intros Hfault Hrun Hforest. split; [|by apply create_role_run].
  apply update_role_hierarchy_run in Hrun as (tbl & _ & Hlevels); [|done].
  assert (Notions.forest tbl) as [Hnd Hall].
  { destruct (RoleConfigurator.role_levels _); rewrite Hlevels in Hforest;
      [by eapply forest_relevel|done]. }
  destruct (role_levels_forest (set_role_hierarchy tbl db) Hnd Hall)
    as (rl & Hrl & Hdepth).
  rewrite Hrl in Hlevels. rewrite Hlevels.
  by apply relevel_consistent.
Qed.

Lemma reparent_restores_levels_witness :
  ∃ db',
    RoleConfigurator.update_role_hierarchy 3 (Some 4) (Some 1)
      (Examples.small_db []) = Ok true db' ∧
    Notions.levels_consistent (db_role_hierarchy db').
Proof.
  eexists. split; [vm_compute; reflexivity|].
  refine (proj1 (reparent_restores_levels (Examples.small_db []) 3 (Some 4)
                   (Some 1) _ eq_refl eq_refl _)).
  split.
  - apply (bool_decide_unpack _). vm_compute. exact I.
  - repeat (apply Forall_cons; split; [by eexists|]). apply Forall_nil_2.
Defined.

(** *** Cycle detection *)

(** The depth bound ends the parent-chain statement by the tenth round. *)
Lemma parent_chain_rounds start db :
  is_Some (RoleConfigurator.parent_chain start db).
Proof.
  unfold RoleConfigurator.parent_chain.
  apply (recursive_cte_bounded _
           (λ k row, row.2 = Z.of_nat k + 1 ∧ row.2 ≤ 10) 9 ) with (k := 0%nat).
  - intros k work Hwork y Hy.
    unfold RoleConfigurator.parent_chain_step in Hy.
    apply list_elem_of_bind in Hy as ([[id parent] depth] & Hy & Hx).
    apply list_elem_of_fmap in Hy as (rh & -> & Hrh).
    apply list_elem_of_filter in Hrh as [[_ Hlt] _].
    destruct (Hwork _ Hx) as [Hk _]. simpl in *. lia.
  - intros k x [Hk Hle]. lia.
  - intros x Hx. unfold RoleConfigurator.parent_chain_base in Hx.
    apply list_elem_of_fmap in Hx as (rh & -> & _). simpl. lia.
  - lia.
Qed.

Lemma role_of_filter tbl q :
  NoDup (rh_role_id <$> tbl) →
  filter (λ rh, rh_role_id rh = q) tbl =
  match Notions.role_of tbl q with Some rh => [rh] | None => [] end.
Proof.
  intros Hnd. destruct (Notions.role_of tbl q) as [rh|] eqn:Hq.
  - apply role_of_elem in Hq as [Hin <-]. by apply filter_unique_key.
  - unfold Notions.role_of in Hq. by destruct (filter _ tbl).
Qed.

Section parent_chain.
Context (db : Db).
Context (Hnd : NoDup (rh_role_id <$> db_role_hierarchy db)).

Lemma parent_chain_step_row a parent d :
  RoleConfigurator.parent_chain_step db [(a, parent, d)] =
  match parent with
  | Some q =>
      if decide (d < 10)
      then match Notions.role_of (db_role_hierarchy db) q with
           | Some rh => [(q, rh_parent_role_id rh, d + 1)]
           | None => []
           end
      else []
  | None => []
  end.
Proof.
  unfold RoleConfigurator.parent_chain_step.
  rewrite bind_singleton. simpl.
  destruct parent as [q|].
  2:{ rewrite filter_none; [done|]. by intros rh _ [? _]. }
  destruct (decide (d < 10)) as [Hd|Hd].
  2:{ rewrite filter_none; [done|]. by intros rh _ [_ ?]. }
  rewrite (list_filter_iff _ (λ rh, rh_role_id rh = q)).
  2:{ intros rh. split; [by intros [[= ->] _]|by intros ->]. }
  rewrite role_of_filter by done.
  destruct (Notions.role_of (db_role_hierarchy db) q) as [rh|] eqn:Hq; [|done].
  apply role_of_elem in Hq as [_ <-]. done.
Qed.

(** The roles listed by the chain that starts at a stored role [a] in
    round [d] are the stored roles at most [10 - d] parent pointers above
    [a]. *)
Lemma parent_chain_from fuel a rh d :
  Notions.role_of (db_role_hierarchy db) a = Some rh →
  1 ≤ d ≤ 10 → 11 - d ≤ Z.of_nat fuel →
  ∃ out,
    recursive_cte (RoleConfigurator.parent_chain_step db) fuel
      [(a, rh_parent_role_id rh, d)] = Some out ∧
    ∀ r, r ∈ (λ row : Z * option Z * Z, row.1.1) <$> out ↔
         ∃ k, d + Z.of_nat k ≤ 10 ∧
              Notions.ancestor (db_role_hierarchy db) k a = Some r ∧
              is_Some (Notions.role_of (db_role_hierarchy db) r).
Proof.
  revert a rh d. induction fuel as [|fuel IH]; intros a rh d Ha Hd Hfuel; [lia|].
  rewrite recursive_cte_cons, parent_chain_step_row.
  assert (∀ r, r = a ↔
            ∃ k, d + Z.of_nat k ≤ 10 ∧ k = 0%nat ∧
                 Notions.ancestor (db_role_hierarchy db) k a = Some r ∧
                 is_Some (Notions.role_of (db_role_hierarchy db) r)) as Hzero.
  { intros r. split.
    - intros ->. exists 0%nat. simpl. rewrite Ha. split; [lia|]. eauto.
    - intros (k & _ & -> & [= <-] & _). done. }
  assert (∀ k r, Notions.ancestor (db_role_hierarchy db) (S k) a = Some r ↔
                 ∃ q, rh_parent_role_id rh = Some q ∧
                      Notions.ancestor (db_role_hierarchy db) k q = Some r)
    as Hsucc.
  { intros k r. simpl. unfold Notions.parent_of. rewrite Ha. simpl.
    destruct (rh_parent_role_id rh) as [q|]; simpl.
    - split; [eauto|]. by intros (q' & [= <-] & ?).
    - split; [done|]. by intros (q' & ? & _). }
  assert (∀ out' : list (Z * option Z * Z),
            (∀ r, r ∈ (λ row : Z * option Z * Z, row.1.1) <$> out' ↔
                  ∃ k, d + Z.of_nat (S k) ≤ 10 ∧
                       Notions.ancestor (db_role_hierarchy db) (S k) a = Some r ∧
                       is_Some (Notions.role_of (db_role_hierarchy db) r)) →
            ∀ r, r ∈ (λ row : Z * option Z * Z, row.1.1) <$>
                       ([(a, rh_parent_role_id rh, d)] ++ out')%list ↔
                 ∃ k, d + Z.of_nat k ≤ 10 ∧
                      Notions.ancestor (db_role_hierarchy db) k a = Some r ∧
                      is_Some (Notions.role_of (db_role_hierarchy db) r))
    as Hglue.
  { intros out' Hout r. rewrite fmap_app, elem_of_app, Hout. simpl.
    rewrite list_elem_of_singleton, Hzero. split.
    - intros [(k & ? & _ & ? & ?)|(k & ? & ? & ?)]; eauto.
    - intros ([|k] & ? & ? & ?); [left|right]; eauto 10. }
  destruct (rh_parent_role_id rh) as [q|] eqn:Hq.
  2:{ rewrite recursive_cte_nil. eexists. split; [done|].
      apply Hglue. intros r. rewrite fmap_nil, elem_of_nil. split; [done|].
      intros (k & _ & Hk & _). apply Hsucc in Hk as (? & ? & _). done. }
  destruct (decide (d < 10)) as [Hlt|Hlt].
  2:{ rewrite recursive_cte_nil. eexists. split; [done|].
      apply Hglue. intros r. rewrite fmap_nil, elem_of_nil. split; [done|].
      intros (k & ? & _). lia. }
  destruct (Notions.role_of (db_role_hierarchy db) q) as [rhq|] eqn:Hrq.
  2:{ rewrite recursive_cte_nil. eexists. split; [done|].
      apply Hglue. intros r. rewrite fmap_nil, elem_of_nil. split; [done|].
      intros (k & _ & Hk & Hr). apply Hsucc in Hk as (q' & [= <-] & Hk).
      destruct k as [|k]; simpl in Hk.
      - injection Hk as <-. rewrite Hrq in Hr. by destruct Hr.
      - unfold Notions.parent_of in Hk. by rewrite Hrq in Hk. }
  destruct (IH q rhq (d + 1)) as (out' & -> & Hout'); [done|lia|lia|].
  eexists. split; [done|]. apply Hglue. intros r. rewrite Hout'. split.
  - intros (k & ? & ? & ?). exists k. split; [lia|]. split; [|done].
    apply Hsucc. eauto.
  - intros (k & ? & Hk & ?). exists k. split; [lia|]. split; [|done].
    apply Hsucc in Hk as (q' & [= <-] & Hk). done.
Qed.

(** When the store answers, the cycle check is [True] exactly when the
    role is stored and met within ten rows of the walk up from the new
    parent: the new parent itself and its first nine ancestors. *)
Lemma would_create_cycle_within_ten role_id new_parent_id :
  db_fault db Q_parent_chain = false →
  ∃ b,
    RoleConfigurator._would_create_cycle role_id new_parent_id db = Ok b db ∧
    (b = true ↔
     ∃ k, (k < 10)%nat ∧
          Notions.ancestor (db_role_hierarchy db) k new_parent_id = Some role_id ∧
          is_Some (Notions.role_of (db_role_hierarchy db) role_id)).
Proof.
  intros Hfault.
  unfold RoleConfigurator._would_create_cycle. run. rewrite Hfault.
  unfold RoleConfigurator.select_parent_chain, RoleConfigurator.parent_chain.
  assert (∃ out,
    recursive_cte (RoleConfigurator.parent_chain_step db) 10
      (RoleConfigurator.parent_chain_base new_parent_id db) = Some out ∧
    ∀ r, r ∈ (λ row : Z * option Z * Z, row.1.1) <$> out ↔
         ∃ k, (k < 10)%nat ∧
              Notions.ancestor (db_role_hierarchy db) k new_parent_id = Some r ∧
              is_Some (Notions.role_of (db_role_hierarchy db) r))
    as (out & -> & Hout).
  { unfold RoleConfigurator.parent_chain_base.
    rewrite role_of_filter by done.
    destruct (Notions.role_of (db_role_hierarchy db) new_parent_id)
      as [rh|] eqn:Hp.
    - destruct (parent_chain_from 10 new_parent_id rh 1 Hp) as (out & Hrun & Hout);
        [lia|lia|].
      exists out. split.
      { destruct (role_of_elem _ _ _ Hp) as [_ Hid]. simpl. by rewrite Hid. }
      intros r. rewrite Hout.
      split; intros (k & ? & ?); exists k; (split; [lia|done]).
    - exists []. split; [done|]. intros r. rewrite fmap_nil, elem_of_nil.
      split; [done|]. intros ([|k] & _ & Hk & Hr); simpl in Hk.
      + injection Hk as <-. rewrite Hp in Hr. by destruct Hr.
      + unfold Notions.parent_of in Hk. by rewrite Hp in Hk. }
  eexists. split; [done|]. rewrite <- Hout.
  rewrite bool_decide_eq_true.
  assert (len (wrap (db_shape db)
                 (filter (λ id, id = role_id)
                    ((λ row : Z * option Z * Z, row.1.1) <$> out))) =
          length (filter (λ id, id = role_id)
                    ((λ row : Z * option Z * Z, row.1.1) <$> out))) as ->
    by by destruct (db_shape db).
  split.
  - intros Hlen.
    destruct (filter _ _) as [|x l] eqn:Hf; [simpl in Hlen; lia|].
    assert (x ∈ filter (λ id, id = role_id)
                  ((λ row : Z * option Z * Z, row.1.1) <$> out)) as Hx
      by (rewrite Hf; by left).
    by apply list_elem_of_filter in Hx as [-> ?].
  - intros Hin.
    assert (role_id ∈ filter (λ id, id = role_id)
                        ((λ row : Z * option Z * Z, row.1.1) <$> out)) as Hx
      by by apply list_elem_of_filter.
    destruct (filter _ _); [by apply elem_of_nil in Hx|simpl; lia].
Qed.
End parent_chain.

(** C3 fails on the code: in [line_db] role 11 is the tenth descendant of
    role 1.  The parent chain of 11 is cut at depth 10, one row short of
    role 1, so the cycle check answers [False], the reparent of 1 under 11
    is accepted, and role 1 is then its own ancestor.  (Up to ten rows
    the check is exact: [would_create_cycle_within_ten].) *)
Theorem deep_cycle_not_detected :
  Notions.descends_from (db_role_hierarchy Examples.line_db) 11 1 ∧
  RoleConfigurator._would_create_cycle 1 11 Examples.line_db
    = Ok false Examples.line_db ∧
  ∃ db',
    RoleConfigurator.update_role_hierarchy 1 (Some 11) (Some 1) Examples.line_db
      = Ok true db' ∧
    Notions.parent_of (db_role_hierarchy db') 1 = Some 11 ∧
    Notions.on_cycle (db_role_hierarchy db') 1.
Proof.
  split; [by exists 10%nat|]. split; [vm_compute; reflexivity|].
  eexists. split; [vm_compute; reflexivity|].
  split; [vm_compute; reflexivity|].
  exists 10%nat. vm_compute. reflexivity.
Qed.

(** *** Stores that answer with frames *)

(** [assign_permissions_to_role] and [update_role_hierarchy] take the truth
    value of a query result; against a store that answers with frames that
    raises, and they report failure without having written anything. *)
Lemma assign_permissions_on_frames role_id keys granted_by db :
  db_shape db = Frame →
  RoleConfigurator.assign_permissions_to_role role_id keys granted_by db
    = Ok false db.
Proof.
  intros Hshape. unfold RoleConfigurator.assign_permissions_to_role. run.
  destruct (db_fault db Q_lookup_permissions); [done|].
  destruct (RoleConfigurator.select_permissions_in keys db)
    as [e|[rows db0]] eqn:Hsel; [done|].
  assert (db0 = db) as ->.
  { unfold RoleConfigurator.select_permissions_in in Hsel.
    destruct keys; [done|]. by injection Hsel as _ <-. }
  by rewrite Hshape.
Qed.

Lemma update_role_hierarchy_on_frames role_id new_parent_id updated_by db :
  db_shape db = Frame →
  RoleConfigurator.update_role_hierarchy role_id new_parent_id updated_by db
    = Ok false db.
Proof.
  intros Hshape. unfold RoleConfigurator.update_role_hierarchy. run.
  assert (∃ b,
    match new_parent_id with
    | Some p => if bool_decide (p ≠ 0)
                then RoleConfigurator._would_create_cycle role_id p
                else λ db, Ok false db
    | None => λ db, Ok false db
    end db = Ok b db) as [b ->].
  { destruct new_parent_id as [p|]; [|eauto].
    case_bool_decide; [|eauto]. apply would_create_cycle_pure. }
  destruct b; [done|].
  destruct (db_fault db Q_old_parent); [done|].
  by rewrite Hshape.
Qed.

(** The assigner of [guard_db], maximum priority 50, assigns the role of
    priority 49. *)
Example assign_lower_priority_role :
  ∃ db',
    RoleManager.assign_role_to_user 1 7 "junior" None Examples.guard_db
      = Ok (RoleManager.Success "Role assigned successfully") db' ∧
    RoleManager.select_existing_assignment 7 3 db' ≠ [].
Proof. eexists. split; [vm_compute; reflexivity|]. done. Qed.

(** ** Further properties *)

(** *** Maximum priority *)

(** X1: when the store answers, [get_user_max_priority] is at least the
    priority of every active role the user holds by a live assignment, and
    it is 0 or the priority of one of them. *)
Theorem user_max_priority_is_max db user_id :
  db_shape db = Frame →
  db_fault db Q_user_max_priority = false →
  ∃ m,
    RoleManager.get_user_max_priority user_id db = Ok m db ∧
    (∀ ur r, ur ∈ RoleManager.live_assignments user_id db → r ∈ db_roles db →
             r_role_id r = ur_role_id ur → r_is_active r = true →
             r_priority r ≤ m) ∧
    (m = 0 ∨
     ∃ ur r, ur ∈ RoleManager.live_assignments user_id db ∧ r ∈ db_roles db ∧
             r_role_id r = ur_role_id ur ∧ r_is_active r = true ∧
             r_priority r = m).
Proof.
  intros Hshape Hfault.
  unfold RoleManager.get_user_max_priority,
         RoleManager.select_user_max_priority. run.
  rewrite Hfault, Hshape. simpl.
  destruct (RoleManager.sql_max _) as [m|] eqn:Hmax; simpl.
  - apply sql_max_spec in Hmax as [Hin Hle]. exists m. split; [done|]. split.
    + intros ur r ? ? ? ?. apply Hle, held_priority_elem. eauto 10.
    + right. by apply held_priority_elem.
  - apply sql_max_nil in Hmax. exists 0. split; [done|]. split; [|by left].
    intros ur r ? ? ? ?.
    assert (r_priority r ∈ @nil Z) as Hin; [|by apply elem_of_nil in Hin].
    rewrite <- Hmax. apply held_priority_elem. eauto 10.
Qed.


Lemma user_max_priority_is_max_witness :
  ∃ m, RoleManager.get_user_max_priority 2 Examples.guard_db
         = Ok m Examples.guard_db ∧
       r_priority (Examples.mk_role 5 "admin" 90 true) ≤ m.
Proof.
  destruct (user_max_priority_is_max Examples.guard_db 2 eq_refl eq_refl)
    as (m & Hrun & Hle & _).
  exists m. split; [exact Hrun|].
  apply (Hle (Examples.mk_assignment 2 5 None true)); [|set_solver|done..].
  apply list_elem_of_filter. split; [done|]. set_solver.
Defined.


(** *** Assigning a role *)

Lemma has_permission_intro user_id permission db :
  db_shape db = Frame → db_fault db Q_user_permissions = false →
  permission ∈ RoleManager.select_user_permissions user_id db →
  RoleManager.has_permission user_id permission db = Ok true db.
Proof.
  intros Hs Hf Hin. unfold RoleManager.has_permission. run.
  rewrite Hf, Hs. simpl.
  destruct (RoleManager.select_user_permissions user_id db) as [|n names] eqn:E;
    [by apply elem_of_nil in Hin|].
  simpl. rewrite bool_decide_eq_true_2; [done|].
  change (permission ∈ list_to_set (C:=gset string) (n :: names)).
  by apply elem_of_list_to_set.
Qed.

Lemma select_user_permissions_elem db user_id p :
  p ∈ RoleManager.select_user_permissions user_id db ↔
  ∃ ur r rp pm,
    ur ∈ RoleManager.live_assignments user_id db ∧
    r ∈ db_roles db ∧ r_role_id r = ur_role_id ur ∧ r_is_active r = true ∧
    rp ∈ db_role_permissions db ∧ rp_role_id rp = r_role_id r ∧
    pm ∈ db_permissions db ∧ p_permission_id pm = rp_permission_id rp ∧
    p_permission_name pm = p.
Proof.
  unfold RoleManager.select_user_permissions.
  rewrite elem_of_remove_dups, list_elem_of_bind. split.
  - intros (ur & H & Hur).
    apply list_elem_of_bind in H as (r & H & Hr).
    apply list_elem_of_bind in H as (rp & H & Hrp).
    apply list_elem_of_bind in H as (pm & H & Hpm).
    apply list_elem_of_singleton in H.
    apply list_elem_of_filter in Hr as ((? & ?) & ?).
    apply list_elem_of_filter in Hrp as (? & ?).
    apply list_elem_of_filter in Hpm as (? & ?).
    exists ur, r, rp, pm. eauto 10.
  - intros (ur & r & rp & pm & ? & ? & ? & ? & ? & ? & ? & ? & <-).
    exists ur. split; [|done].
    apply list_elem_of_bind. exists r. split; [|by apply list_elem_of_filter].
    apply list_elem_of_bind. exists rp. split; [|by apply list_elem_of_filter].
    apply list_elem_of_bind. exists pm. split; [|by apply list_elem_of_filter].
    by apply list_elem_of_singleton.
Qed.

(** What [_log_permission_action] leaves behind: the store as it was, or
    with the row appended to [permission_audit]. *)
Lemma log_permission_action_run user_id action target_type target_id used db :
  ∃ db',
    RoleManager._log_permission_action user_id action target_type target_id
      used db = Ok () db' ∧
    db' = (if negb (db_fault db Q_insert_permission_audit) &&
              bool_decide (user_id ∈ db_users db)
           then set_permission_audit
                  (db_permission_audit db ++
                   [{| pa_user_id := user_id; pa_action := action;
                       pa_target_type := target_type;
                       pa_target_id := target_id;
                       pa_permission_used := used; pa_success := true |}]) db
           else db).
Proof.
  unfold RoleManager._log_permission_action, RoleManager.insert_permission_audit.
  run. destruct (db_fault db Q_insert_permission_audit); simpl; [eauto|].
  case_bool_decide; eauto.
Qed.

Lemma select_active_role_head db role_name role_id role_priority :
  head (RoleManager.select_active_role_by_name role_name db)
    = Some (role_id, role_priority) →
  ∃ r, r ∈ db_roles db ∧ r_role_name r = role_name ∧ r_is_active r = true ∧
       r_role_id r = role_id ∧ r_priority r = role_priority.
Proof.
  intros Hhead.
  assert ((role_id, role_priority) ∈
            RoleManager.select_active_role_by_name role_name db) as Hin.
  { destruct (RoleManager.select_active_role_by_name role_name db);
      [done|]. injection Hhead as ->. by left. }
  apply list_elem_of_fmap in Hin as (r & [= -> ->] & Hr).
  apply list_elem_of_filter in Hr as [[? ?] ?]. eauto 10.
Qed.

(** An assignment that passes every check and whose row the table accepts:
    the row is inserted and the audit row is written on the new store. *)
Lemma assign_run db assigner_id user_id role_name expires_at role_id
    role_priority m :
  RoleManager.has_permission assigner_id "roles.assign" db = Ok true db →
  db_fault db Q_active_role_by_name = false →
  db_fault db Q_existing_assignment = false →
  db_fault db Q_insert_user_role = false →
  head (RoleManager.select_active_role_by_name role_name db)
    = Some (role_id, role_priority) →
  RoleManager.get_user_max_priority assigner_id db = Ok m db →
  role_priority < m →
  filter (λ ur, ur_user_id ur = user_id ∧ ur_role_id ur = role_id)
         (db_user_roles db) = [] →
  user_id ∈ db_users db →
  assigner_id ∈ db_users db →
  RoleManager.assign_role_to_user assigner_id user_id role_name expires_at db
    = Ok (RoleManager.Success "Role assigned successfully")
         (let db1 :=
            set_user_roles
              (db_user_roles db ++
               [{| ur_user_id := user_id; ur_role_id := role_id;
                   ur_assigned_by := Some assigner_id;
                   ur_expires_at := expires_at; ur_is_active := true |}]) db in
          if db_fault db Q_insert_permission_audit then db1
          else set_permission_audit
                 (db_permission_audit db ++
                  [{| pa_user_id := assigner_id; pa_action := "role_assigned";
                      pa_target_type := "user"; pa_target_id := user_id;
                      pa_permission_used := "roles.assign";
                      pa_success := true |}]) db1).
Proof.
  intros Hb Hf1 Hf2 Hf3 Hsel Hm Hlt Hfree Huser Hassigner.
  destruct (select_active_role_head _ _ _ _ Hsel) as (r & Hr & _ & _ & Hid & _).
  unfold RoleManager.assign_role_to_user. run.
  rewrite Hb; simpl. rewrite Hf1.
  destruct (has_permission_true _ _ _ _ Hb) as (Hs & _ & _).
  rewrite Hs; simpl.
  destruct (RoleManager.select_active_role_by_name role_name db)
    as [|[rid rp] rest]; simpl in *; [done|].
  injection Hsel as -> ->. rewrite Hm.
  replace (role_priority >=? m) with false by lia.
  rewrite Hf2, Hs; simpl.
  assert (RoleManager.select_existing_assignment user_id role_id db = [])
    as ->.
  { unfold RoleManager.select_existing_assignment. apply filter_none.
    intros ur Hur (? & ? & _).
    eapply (filter_nil_not_elem_of _ _ ur); [exact Hfree| |done]. done. }
  simpl. rewrite Hf3. unfold RoleManager.insert_user_role.
  rewrite Hfree, !bool_decide_eq_true_2;
    [|by rewrite <- Hid; apply list_elem_of_fmap_2|done..].
  simpl. rewrite orb_true_r.
  unfold RoleManager._log_permission_action, RoleManager.insert_permission_audit.
  run.
  destruct (db_fault db Q_insert_permission_audit); [done|].
  by rewrite bool_decide_eq_true_2.
Qed.

(** X2: an assignment that passes the permission and priority checks, for
    a pair (user, role) that has no row in [user_roles] and users that
    exist, succeeds when the store does not raise: one active row with the
    given expiry and the assigner is appended to [user_roles], one row is
    appended to [permission_audit] (none when the audit statement raises),
    and the role tables are untouched. *)
Theorem assign_stores_assignment db assigner_id user_id role_name expires_at
    role_id role_priority m :
  RoleManager.has_permission assigner_id "roles.assign" db = Ok true db →
  db_fault db Q_active_role_by_name = false →
  db_fault db Q_existing_assignment = false →
  db_fault db Q_insert_user_role = false →
  head (RoleManager.select_active_role_by_name role_name db)
    = Some (role_id, role_priority) →
  RoleManager.get_user_max_priority assigner_id db = Ok m db →
  role_priority < m →
  filter (λ ur, ur_user_id ur = user_id ∧ ur_role_id ur = role_id)
         (db_user_roles db) = [] →
  user_id ∈ db_users db →
  assigner_id ∈ db_users db →
  ∃ db',
    RoleManager.assign_role_to_user assigner_id user_id role_name expires_at db
      = Ok (RoleManager.Success "Role assigned successfully") db' ∧
    db_user_roles db' =
      (db_user_roles db ++
       [{| ur_user_id := user_id; ur_role_id := role_id;
           ur_assigned_by := Some assigner_id;
           ur_expires_at := expires_at; ur_is_active := true |}])%list ∧
    db_permission_audit db' =
      (if db_fault db Q_insert_permission_audit
       then db_permission_audit db
       else (db_permission_audit db ++
             [{| pa_user_id := assigner_id; pa_action := "role_assigned";
                 pa_target_type := "user"; pa_target_id := user_id;
                 pa_permission_used := "roles.assign";
                 pa_success := true |}])%list) ∧
    db_roles db' = db_roles db ∧
    db_permissions db' = db_permissions db ∧
    db_role_permissions db' = db_role_permissions db.
Proof.
  intros Hb Hf1 Hf2 Hf3 Hsel Hm Hlt Hfree Huser Hassigner.
  eexists. split.
  - by apply (assign_run db assigner_id user_id role_name expires_at role_id
                role_priority m).
  - simpl. by destruct (db_fault db Q_insert_permission_audit).
Qed.

Lemma assign_stores_assignment_witness :
  ∃ db',
    RoleManager.assign_role_to_user 1 7 "viewer" (Some 2000) Examples.studio_db
      = Ok (RoleManager.Success "Role assigned successfully") db' ∧
    db_user_roles db' =
      (db_user_roles Examples.studio_db ++
       [{| ur_user_id := 7; ur_role_id := 2; ur_assigned_by := Some 1;
           ur_expires_at := Some 2000; ur_is_active := true |}])%list.
Proof.
  destruct (assign_stores_assignment Examples.studio_db 1 7 "viewer"
              (Some 2000) 2 10 50)
    as (db' & Hrun & Hrows & _).
  - vm_compute; reflexivity.
  - reflexivity.
  - reflexivity.
  - reflexivity.
  - reflexivity.
  - vm_compute; reflexivity.
  - lia.
  - reflexivity.
  - apply (bool_decide_unpack _). vm_compute. exact I.
  - apply (bool_decide_unpack _). vm_compute. exact I.
  - exists db'. split; assumption.
Defined.

(** X3: while the user has an active assignment of the role found under
    the name and the two lookups do not raise, [assign_role_to_user] fails
    and leaves the store as it was; when the call gets past the permission
    and priority checks the error is the conflict. *)
Theorem existing_assignment_blocks_assign db assigner_id user_id role_name
    expires_at role_id role_priority :
  db_fault db Q_active_role_by_name = false →
  db_fault db Q_existing_assignment = false →
  head (RoleManager.select_active_role_by_name role_name db)
    = Some (role_id, role_priority) →
  RoleManager.select_existing_assignment user_id role_id db ≠ [] →
  ∃ o,
    RoleManager.assign_role_to_user assigner_id user_id role_name expires_at db
      = Ok o db ∧
    RoleManager.success o = false ∧
    (∀ m, RoleManager.has_permission assigner_id "roles.assign" db = Ok true db →
          RoleManager.get_user_max_priority assigner_id db = Ok m db →
          role_priority < m →
          o = RoleManager.Failure "User already has this role").
Proof.
  intros Hf1 Hf2 Hsel Hex.
  unfold RoleManager.assign_role_to_user. run.
  destruct (has_permission_pure assigner_id "roles.assign" db) as [b Hb].
  rewrite Hb. destruct b; simpl.
  2:{ eexists. split; [done|]. split; [done|]. intros; congruence. }
  rewrite Hf1.
  destruct (has_permission_true _ _ _ _ Hb) as (Hs & _ & _).
  rewrite Hs; simpl.
  destruct (RoleManager.select_active_role_by_name role_name db)
    as [|[rid rp] rest]; simpl in *; [done|].
  injection Hsel as -> ->.
  destruct (get_user_max_priority_pure assigner_id db) as [m Hm].
  rewrite Hm.
  destruct (role_priority >=? m) eqn:Hge.
  { eexists. split; [done|]. split; [done|].
    intros m' _ [= <-] ?. lia. }
  rewrite Hf2, Hs; simpl.
  destruct (RoleManager.select_existing_assignment user_id role_id db);
    [done|]. simpl.
  eexists. split; [done|]. split; done.
Qed.

Lemma existing_assignment_blocks_assign_witness :
  ∃ o, RoleManager.assign_role_to_user 1 2 "viewer" None Examples.studio_db
         = Ok o Examples.studio_db ∧
       RoleManager.success o = false.
Proof.
  destruct (existing_assignment_blocks_assign Examples.studio_db 1 2 "viewer"
              None 2 10) as (o & Hrun & Hfail & _).
  - reflexivity.
  - reflexivity.
  - reflexivity.
  - discriminate.
  - exists o. split; assumption.
Defined.

Lemma role_permissions_run further_fault role_name db :
  ∃ perms,
    RoleManager.get_role_permissions further_fault role_name db = Ok perms db ∧
    (perms = RoleManager.select_role_permissions role_name db ∨ perms = []).
Proof.
  unfold RoleManager.get_role_permissions, execute_further_query. run.
  destruct (further_fault Q_role_permissions); [eauto|].
  destruct (db_shape db); simpl; [|eauto].
  destruct (RoleManager.select_role_permissions role_name db); simpl; eauto.
Qed.

Lemma select_role_permissions_elem db role_name p :
  p ∈ RoleManager.select_role_permissions role_name db ↔
  ∃ r rp pm,
    r ∈ db_roles db ∧ r_role_name r = role_name ∧ r_is_active r = true ∧
    rp ∈ db_role_permissions db ∧ rp_role_id rp = r_role_id r ∧
    pm ∈ db_permissions db ∧ p_permission_id pm = rp_permission_id rp ∧
    p_permission_name pm = p.
Proof.
  unfold RoleManager.select_role_permissions.
  rewrite list_elem_of_bind. split.
  - intros (r & H & Hr).
    apply list_elem_of_bind in H as (rp & H & Hrp).
    apply list_elem_of_bind in H as (pm & H & Hpm).
    apply list_elem_of_singleton in H.
    apply list_elem_of_filter in Hr as ((? & ?) & ?).
    apply list_elem_of_filter in Hrp as (? & ?).
    apply list_elem_of_filter in Hpm as (? & ?).
    exists r, rp, pm. eauto 10.
  - intros (r & rp & pm & ? & ? & ? & ? & ? & ? & ? & <-).
    exists r. split; [|by apply list_elem_of_filter].
    apply list_elem_of_bind. exists rp. split; [|by apply list_elem_of_filter].
    apply list_elem_of_bind. exists pm. split; [|by apply list_elem_of_filter].
    by apply list_elem_of_singleton.
Qed.

(** With a unique key column, two stored rows with the same key are the
    same row. *)
Lemma unique_key_inj {A B} (key : A → B) (l : list A) x y :
  NoDup (key <$> l) → x ∈ l → y ∈ l → key x = key y → x = y.
Proof.
  induction l as [|z l IH]; intros Hnd Hx Hy Heq;
    [by apply elem_of_nil in Hx|].
  rewrite fmap_cons in Hnd. apply NoDup_cons in Hnd as [Hz Hnd].
  apply elem_of_cons in Hx as [->|Hx]; apply elem_of_cons in Hy as [->|Hy].
  - done.
  - exfalso. apply Hz. rewrite Heq. by apply list_elem_of_fmap_2.
  - exfalso. apply Hz. rewrite <- Heq. by apply list_elem_of_fmap_2.
  - by apply IH.
Qed.

(** X4: with unique role names, after an assignment that passes every
    check and has not expired, the user passes [has_permission] for every
    permission that [get_role_permissions] lists for the role. *)
Theorem assign_grants_role_permissions further_fault db assigner_id user_id
    role_name expires_at role_id role_priority m perms p :
  RoleManager.has_permission assigner_id "roles.assign" db = Ok true db →
  db_fault db Q_active_role_by_name = false →
  db_fault db Q_existing_assignment = false →
  db_fault db Q_insert_user_role = false →
  head (RoleManager.select_active_role_by_name role_name db)
    = Some (role_id, role_priority) →
  RoleManager.get_user_max_priority assigner_id db = Ok m db →
  role_priority < m →
  filter (λ ur, ur_user_id ur = user_id ∧ ur_role_id ur = role_id)
         (db_user_roles db) = [] →
  user_id ∈ db_users db →
  assigner_id ∈ db_users db →
  NoDup (r_role_name <$> db_roles db) →
  unexpired (db_now db) expires_at = true →
  RoleManager.get_role_permissions further_fault role_name db = Ok perms db →
  p ∈ perms →
  ∃ db',
    RoleManager.assign_role_to_user assigner_id user_id role_name expires_at db
      = Ok (RoleManager.Success "Role assigned successfully") db' ∧
    RoleManager.has_permission user_id p db' = Ok true db'.
Proof.
  intros Hb Hf1 Hf2 Hf3 Hsel Hm Hlt Hfree Huser Hassigner Hnames Hlive
    Hperms Hp.
  eexists. split.
  { by apply (assign_run db assigner_id user_id role_name expires_at role_id
                role_priority m). }
  destruct (role_permissions_run further_fault role_name db)
    as (perms' & Hperms' & Hlist).
  rewrite Hperms in Hperms'. injection Hperms' as <-.
  destruct Hlist as [-> | ->]; [|by apply elem_of_nil in Hp].
  apply select_role_permissions_elem in Hp
    as (r & rp & pm & Hr & Hname & Hact & Hrp & Hrpid & Hpm & Hpmid & Hpname).
  destruct (has_permission_true _ _ _ _ Hb) as (Hs & Hf & _).
  apply select_active_role_head in Hsel as (r0 & Hr0 & Hname0 & _ & Hid0 & _).
  assert (r0 = r) as ->
    by (apply (unique_key_inj r_role_name (db_roles db)); congruence).
  simpl. apply has_permission_intro.
  - by destruct (db_fault db Q_insert_permission_audit).
  - by destruct (db_fault db Q_insert_permission_audit).
  - apply select_user_permissions_elem.
    exists {| ur_user_id := user_id; ur_role_id := role_id;
              ur_assigned_by := Some assigner_id;
              ur_expires_at := expires_at; ur_is_active := true |}, r, rp, pm.
    destruct (db_fault db Q_insert_permission_audit); simpl.
    all: repeat split; try done.
    all: unfold RoleManager.live_assignments; simpl.
    all: apply list_elem_of_filter; split; [done|].
    all: apply elem_of_app; right; by left.
Qed.

Lemma assign_grants_role_permissions_witness :
  ∃ db', RoleManager.assign_role_to_user 1 7 "viewer" (Some 2000)
           Examples.studio_db
         = Ok (RoleManager.Success "Role assigned successfully") db' ∧
         RoleManager.has_permission 7 "users.view" db' = Ok true db'.
Proof.
  apply (assign_grants_role_permissions Examples.no_further Examples.studio_db
           1 7 "viewer" (Some 2000) 2 10 50 ["users.view"] "users.view").
  - vm_compute; reflexivity.
  - reflexivity.
  - reflexivity.
  - reflexivity.
  - reflexivity.
  - vm_compute; reflexivity.
  - lia.
  - reflexivity.
  - apply (bool_decide_unpack _). vm_compute. exact I.
  - apply (bool_decide_unpack _). vm_compute. exact I.
  - apply (bool_decide_unpack _). vm_compute. exact I.
  - reflexivity.
  - reflexivity.
  - by left.
Defined.

(** X5: [assign_role_to_user] always returns, and it never rewrites a
    row of [user_roles]: the table is left as it was, or one active row
    for the given user and the role of the given name, with the given
    expiry and the assigner, is appended to it.  So a deactivated row is
    never made active again by assigning the role once more. *)
Theorem assign_only_appends db assigner_id user_id role_name expires_at :
  ∃ o db',
    RoleManager.assign_role_to_user assigner_id user_id role_name expires_at db
      = Ok o db' ∧
    (db_user_roles db' = db_user_roles db ∨
     ∃ role_id role_priority,
       head (RoleManager.select_active_role_by_name role_name db)
         = Some (role_id, role_priority) ∧
       db_user_roles db' =
         (db_user_roles db ++
          [{| ur_user_id := user_id; ur_role_id := role_id;
              ur_assigned_by := Some assigner_id;
              ur_expires_at := expires_at; ur_is_active := true |}])%list).
Proof.
  unfold RoleManager.assign_role_to_user. run.
  destruct (has_permission_pure assigner_id "roles.assign" db) as [b Hb].
  rewrite Hb. destruct b; simpl; [|eauto].
  destruct (db_fault db Q_active_role_by_name); [eauto|].
  destruct (has_permission_true _ _ _ _ Hb) as (Hs & _ & _).
  rewrite Hs; simpl.
  destruct (RoleManager.select_active_role_by_name role_name db)
    as [|[role_id role_priority] rest]; simpl; [eauto|].
  destruct (get_user_max_priority_pure assigner_id db) as [m Hm].
  rewrite Hm.
  destruct (role_priority >=? m); [eauto|].
  destruct (db_fault db Q_existing_assignment); [eauto|].
  rewrite Hs; simpl.
  destruct (RoleManager.select_existing_assignment user_id role_id db);
    simpl; [|eauto].
  destruct (db_fault db Q_insert_user_role); [eauto|].
  unfold RoleManager.insert_user_role.
  destruct (_ && _); [|eauto].
  match goal with
  | |- context [RoleManager._log_permission_action ?a ?b ?c ?d ?e ?db0] =>
      destruct (log_permission_action_user_roles a b c d e db0)
        as (db2 & -> & Hrows)
  end.
  eexists _, _. split; [done|]. right. exists role_id, role_priority.
  split; [done|]. by rewrite Hrows.
Qed.

(** *** Removing a role *)

(** The rows that are live after the update are the live rows outside the
    pair (user, role). *)
Lemma live_assignments_deactivated db db1 user_id role_id u :
  RoleManager.deactivate_user_role user_id role_id db = inr db1 →
  RoleManager.live_assignments u db1 =
  filter (λ ur, ¬ (ur_user_id ur = user_id ∧ ur_role_id ur = role_id))
         (RoleManager.live_assignments u db).
Proof.
  intros [= <-]. unfold RoleManager.live_assignments. simpl.
  induction (db_user_roles db) as [|ur l IH]; [done|].
  rewrite fmap_cons, !filter_cons, IH.
  case_bool_decide as Hpair.
  - destruct Hpair as (Hu & Hr & Ha).
    rewrite decide_False by (simpl; intros (_ & ? & _); done).
    destruct (decide (ur_user_id ur = u ∧ _)); [|done].
    rewrite filter_cons. by rewrite decide_False by tauto.
  - destruct (decide (ur_user_id ur = u ∧ _)) as [(? & ? & ?)|]; [|done].
    rewrite filter_cons. by rewrite decide_True by tauto.
Qed.

Lemma live_assignments_logged user_id action target_type target_id used db db' u :
  RoleManager._log_permission_action user_id action target_type target_id
    used db = Ok () db' →
  RoleManager.live_assignments u db' = RoleManager.live_assignments u db.
Proof.
  intros Hlog.
  destruct (log_permission_action_run user_id action target_type target_id
              used db) as (db2 & Hlog' & Hdb2).
  rewrite Hlog in Hlog'. injection Hlog' as ->.
  rewrite Hdb2. by destruct (_ && _).
Qed.

(** X6: a remover with [roles.assign] removes any role that exists when
    the store does not raise; a priority above the role's is asked only for
    a system role named [owner] or [admin].  Afterwards the user has no
    active assignment of the role, the live assignments of every user are
    the ones they had outside the pair (user, role), and no row of
    [user_roles] is deleted. *)
Theorem remove_drops_assignment db remover_id user_id role_name
    role_id role_priority is_system :
  RoleManager.has_permission remover_id "roles.assign" db = Ok true db →
  db_fault db Q_role_by_name = false →
  db_fault db Q_deactivate_user_role = false →
  head (RoleManager.select_role_by_name role_name db)
    = Some (role_id, role_priority, is_system) →
  (is_system = true → role_name ∈ ["owner"; "admin"] →
   ∃ m, RoleManager.get_user_max_priority remover_id db = Ok m db ∧
        role_priority < m) →
  ∃ db',
    RoleManager.remove_role_from_user remover_id user_id role_name db
      = Ok (RoleManager.Success "Role removed successfully") db' ∧
    RoleManager.select_existing_assignment user_id role_id db' = [] ∧
    (∀ u, RoleManager.live_assignments u db' =
          filter (λ ur, ¬ (ur_user_id ur = user_id ∧ ur_role_id ur = role_id))
                 (RoleManager.live_assignments u db)) ∧
    length (db_user_roles db') = length (db_user_roles db).
Proof.
  intros Hb Hf Hf' Hsel Hprio.
  unfold RoleManager.remove_role_from_user. run.
  rewrite Hb; simpl. rewrite Hf.
  destruct (has_permission_true _ _ _ _ Hb) as (Hs & _ & _).
  rewrite Hs; simpl.
  destruct (RoleManager.select_role_by_name role_name db)
    as [|[[rid rp] sys] rest]; simpl in *; [done|].
  injection Hsel as -> -> ->.
  pose (db1 := set_user_roles
                 ((λ ur, if bool_decide (ur_user_id ur = user_id ∧
                                          ur_role_id ur = role_id ∧
                                          ur_is_active ur = true)
                         then RoleManager.deactivate ur else ur)
                    <$> db_user_roles db) db).
  destruct (log_permission_action_user_roles remover_id "role_removed" "user"
              user_id "roles.assign" db1) as (db2 & Hlog & Hrows).
  assert (RoleManager.select_existing_assignment user_id role_id db2 = [] ∧
          (∀ u, RoleManager.live_assignments u db2 =
                filter (λ ur, ¬ (ur_user_id ur = user_id ∧
                                 ur_role_id ur = role_id))
                       (RoleManager.live_assignments u db)) ∧
          length (db_user_roles db2) = length (db_user_roles db)) as Hafter.
  { split; [|split].
    - unfold RoleManager.select_existing_assignment. rewrite Hrows.
      apply deactivated_none.
    - intros u. rewrite (live_assignments_logged _ _ _ _ _ _ _ u Hlog).
      by apply live_assignments_deactivated.
    - rewrite Hrows. simpl. by rewrite length_fmap. }
  destruct (is_system && bool_decide (role_name ∈ ["owner"; "admin"])) eqn:Hg;
    simpl.
  - apply andb_true_iff in Hg as [-> Hn%bool_decide_eq_true].
    destruct (Hprio eq_refl Hn) as (m & Hm & Hlt).
    rewrite Hm. replace (role_priority >=? m) with false by lia.
    rewrite Hf'. simpl. fold db1. rewrite Hlog. by exists db2.
  - rewrite Hf'. simpl. fold db1. rewrite Hlog. by exists db2.
Qed.

Lemma remove_drops_assignment_witness :
  ∃ db', RoleManager.remove_role_from_user 1 2 "viewer" Examples.studio_db
           = Ok (RoleManager.Success "Role removed successfully") db' ∧
         RoleManager.select_existing_assignment 2 2 db' = [].
Proof.
  destruct (remove_drops_assignment Examples.studio_db 1 2 "viewer" 2 10 false)
    as (db' & Hrun & Hnone & _).
  - vm_compute; reflexivity.
  - reflexivity.
  - reflexivity.
  - reflexivity.
  - discriminate.
  - exists db'. split; assumption.
Defined.

(** *** The audit trail *)

(** X7: a failed [assign_role_to_user] or [remove_role_from_user] leaves
    the whole store as it was: no assignment is written or changed and
    nothing is added to [permission_audit]. *)
Theorem failed_action_changes_nothing db actor_id user_id role_name
    expires_at msg db' :
  RoleManager.assign_role_to_user actor_id user_id role_name expires_at db
    = Ok (RoleManager.Failure msg) db' ∨
  RoleManager.remove_role_from_user actor_id user_id role_name db
    = Ok (RoleManager.Failure msg) db' →
  db' = db.
Proof.
  destruct (has_permission_pure actor_id "roles.assign" db) as [b Hb].
  destruct (get_user_max_priority_pure actor_id db) as [m Hm].
  intros [Hrun|Hrun]; revert Hrun.
  - unfold RoleManager.assign_role_to_user. run.
    rewrite Hb. destruct b; simpl; [|by intros [= _ <-]].
    destruct (db_fault db Q_active_role_by_name); [by intros [= _ <-]|].
    destruct (has_permission_true _ _ _ _ Hb) as (Hs & _ & _).
    rewrite Hs; simpl.
    destruct (RoleManager.select_active_role_by_name role_name db)
      as [|[role_id role_priority] rest]; simpl; [by intros [= _ <-]|].
    rewrite Hm.
    destruct (role_priority >=? m); [by intros [= _ <-]|].
    destruct (db_fault db Q_existing_assignment); [by intros [= _ <-]|].
    rewrite Hs; simpl.
    destruct (RoleManager.select_existing_assignment user_id role_id db);
      simpl; [|by intros [= _ <-]].
    destruct (db_fault db Q_insert_user_role); [by intros [= _ <-]|].
    destruct (RoleManager.insert_user_role _ _ _ _ db) as [e|db1];
      [by intros [= _ <-]|].
    destruct (log_permission_action_run actor_id "role_assigned" "user"
                user_id "roles.assign" db1) as (db2 & -> & _).
    discriminate.
  - unfold RoleManager.remove_role_from_user. run.
    rewrite Hb. destruct b; simpl; [|by intros [= _ <-]].
    destruct (db_fault db Q_role_by_name); [by intros [= _ <-]|].
    destruct (has_permission_true _ _ _ _ Hb) as (Hs & _ & _).
    rewrite Hs; simpl.
    destruct (RoleManager.select_role_by_name role_name db)
      as [|[[role_id role_priority] is_system] rest]; simpl;
      [by intros [= _ <-]|].
    assert (∀ db1 : Db,
      match
        match RoleManager._log_permission_action actor_id "role_removed"
                "user" user_id "roles.assign" db1 with
        | Ok _ db2 => Ok (RoleManager.Success "Role removed successfully") db2
        | Raise e db2 => Raise e db2
        end
      with
      | Ok a db2 => Ok a db2
      | Raise _ db2 =>
          Ok (RoleManager.Failure "Internal error removing role") db2
      end = Ok (RoleManager.Failure msg) db' → db' = db) as Hlog.
    { intros db1.
      destruct (log_permission_action_run actor_id "role_removed" "user"
                  user_id "roles.assign" db1) as (db2 & -> & _).
      discriminate. }
    destruct (is_system && bool_decide (role_name ∈ ["owner"; "admin"])); simpl.
    + rewrite Hm. destruct (role_priority >=? m); [by intros [= _ <-]|].
      destruct (db_fault db Q_deactivate_user_role); [by intros [= _ <-]|].
      simpl. apply Hlog.
    + destruct (db_fault db Q_deactivate_user_role); [by intros [= _ <-]|].
      simpl. apply Hlog.
Qed.

Lemma failed_action_changes_nothing_witness :
  ∃ db', RoleManager.assign_role_to_user 2 7 "lead" None Examples.studio_db
           = Ok (RoleManager.Failure "Insufficient permissions to assign roles")
                db' ∧
         db' = Examples.studio_db.
Proof.
  eexists. split; [vm_compute; reflexivity|].
  apply (failed_action_changes_nothing Examples.studio_db 2 7 "lead" None
           "Insufficient permissions to assign roles").
  left. vm_compute. reflexivity.
Defined.

(** *** The expiry sweep *)

Lemma expire_twice (now : Z) (l : list user_role_row) :
  let sweep := λ ur : user_role_row,
    if match ur_expires_at ur with
       | Some t => bool_decide (t < now)
       | None => false
       end && ur_is_active ur
    then RoleManager.deactivate ur else ur in
  sweep <$> (sweep <$> l) = sweep <$> l.
Proof.
  intros sweep. rewrite <- list_fmap_compose. apply list_fmap_ext.
  intros _ ur _. unfold sweep, compose.
  destruct (_ && ur_is_active ur) eqn:E; simpl; [|by rewrite E].
  by rewrite andb_false_r.
Qed.

(** X8: when the update does not raise, [cleanup_expired_roles] leaves no
    active assignment whose [expires_at] is before the current time, never
    deletes or activates a row, keeps every row that was inactive or not
    yet past its expiry, and a second sweep at the same time changes
    nothing. *)
Theorem cleanup_deactivates_expired db :
  db_fault db Q_expire_user_roles = false →
  ∃ db',
    RoleManager.cleanup_expired_roles db = Ok () db' ∧
    (∀ ur t, ur ∈ db_user_roles db' → ur_is_active ur = true →
             ur_expires_at ur = Some t → db_now db ≤ t) ∧
    (∀ ur, ur ∈ db_user_roles db →
           (ur_is_active ur = false ∨
            ∀ t, ur_expires_at ur = Some t → db_now db ≤ t) →
           ur ∈ db_user_roles db') ∧
    (∀ ur, ur ∈ db_user_roles db' → ur_is_active ur = true →
           ur ∈ db_user_roles db) ∧
    length (db_user_roles db') = length (db_user_roles db) ∧
    RoleManager.cleanup_expired_roles db' = Ok () db'.
Proof.
  intros Hf. unfold RoleManager.cleanup_expired_roles. run.
  rewrite Hf. simpl. eexists. split; [done|]. simpl.
  rewrite Hf. simpl. repeat split.
  - intros ur t (ur0 & -> & _)%list_elem_of_fmap.
    destruct (ur_expires_at ur0) as [t0|] eqn:Ht; simpl.
    + case_bool_decide; simpl.
      * destruct (ur_is_active ur0) eqn:Ha; simpl; [done|].
        by rewrite Ha.
      * rewrite Ht. intros _ [= <-]. lia.
    + by rewrite Ht.
  - intros ur Hur Hkeep. apply list_elem_of_fmap. exists ur. split; [|done].
    destruct Hkeep as [-> | Hlive]; [by rewrite andb_false_r|].
    destruct (ur_expires_at ur) as [t|]; simpl in *; [|done].
    specialize (Hlive t eq_refl).
    by rewrite bool_decide_eq_false_2 by lia.
  - intros ur (ur0 & -> & Hur0)%list_elem_of_fmap.
    destruct (_ && ur_is_active ur0); simpl; [done|]. by intros _.
  - by rewrite length_fmap.
  - by rewrite expire_twice.
Qed.

Lemma cleanup_deactivates_expired_witness :
  ∃ db', RoleManager.cleanup_expired_roles Examples.expiry_db = Ok () db' ∧
         RoleManager.cleanup_expired_roles db' = Ok () db'.
Proof.
  destruct (cleanup_deactivates_expired Examples.expiry_db eq_refl)
    as (db' & Hrun & _ & _ & _ & _ & Hagain).
  exists db'. split; assumption.
Defined.

(** *** Listings *)

Lemma key_desc_total {A} (key : A → Z) : Total (key_desc key).
Proof. intros a b. unfold key_desc. lia. Qed.

Lemma key_desc_trans {A} (key : A → Z) : Transitive (key_desc key).
Proof. intros a b c. unfold key_desc. lia. Qed.

Lemma order_by_desc_sorted {A} (key : A → Z) (rows : list A) :
  StronglySorted (key_desc key) (order_by_desc key rows).
Proof.
  apply (@StronglySorted_merge_sort _ _ _ (key_desc_trans key)
           (key_desc_total key)).
Qed.

Lemma order_by_desc_elem {A} (key : A → Z) (rows : list A) x :
  x ∈ order_by_desc key rows ↔ x ∈ rows.
Proof. unfold order_by_desc. by rewrite merge_sort_Permutation. Qed.

(** X9: when the store answers, [get_user_roles] lists one entry for every
    row of [user_roles] of the user and the role it names, whether the
    assignment is active or expired and whether the role is active, and
    nothing else, in descending order of priority. *)
Theorem user_roles_lists_every_assignment further_fault db user_id :
  db_shape db = Frame →
  further_fault Q_user_roles = false →
  ∃ infos,
    RoleManager.get_user_roles further_fault user_id db = Ok infos db ∧
    StronglySorted (key_desc RoleManager.uri_priority) infos ∧
    ∀ info, info ∈ infos ↔
      ∃ ur r, ur ∈ db_user_roles db ∧ ur_user_id ur = user_id ∧
              r ∈ db_roles db ∧ r_role_id r = ur_role_id ur ∧
              info = {| RoleManager.uri_name := r_role_name r;
                        RoleManager.uri_priority := r_priority r;
                        RoleManager.uri_expires_at := ur_expires_at ur;
                        RoleManager.uri_is_active := ur_is_active ur |}.
Proof.
  intros Hs Hf.
  assert (∀ info, info ∈ RoleManager.select_user_roles user_id db ↔
    ∃ ur r, ur ∈ db_user_roles db ∧ ur_user_id ur = user_id ∧
            r ∈ db_roles db ∧ r_role_id r = ur_role_id ur ∧
            info = {| RoleManager.uri_name := r_role_name r;
                      RoleManager.uri_priority := r_priority r;
                      RoleManager.uri_expires_at := ur_expires_at ur;
                      RoleManager.uri_is_active := ur_is_active ur |}) as Helem.
  { intros info. unfold RoleManager.select_user_roles.
    rewrite order_by_desc_elem, list_elem_of_bind. split.
    - intros (ur & H & Hur).
      apply list_elem_of_bind in H as (r & H & Hr).
      apply list_elem_of_singleton in H.
      apply list_elem_of_filter in Hur as (? & ?).
      apply list_elem_of_filter in Hr as (? & ?).
      exists ur, r. eauto 10.
    - intros (ur & r & ? & ? & ? & ? & ->).
      exists ur. split; [|by apply list_elem_of_filter].
      apply list_elem_of_bind. exists r. split; [|by apply list_elem_of_filter].
      by apply list_elem_of_singleton. }
  unfold RoleManager.get_user_roles, execute_further_query. run.
  rewrite Hf, Hs. simpl.
  destruct (RoleManager.select_user_roles user_id db) as [|i l] eqn:Hsel; simpl.
  - exists []. split; [done|]. split; [constructor|]. exact Helem.
  - exists (i :: l). split; [done|]. split; [|exact Helem].
    rewrite <- Hsel. apply order_by_desc_sorted.
Qed.

Lemma user_roles_lists_every_assignment_witness :
  ∃ infos,
    RoleManager.get_user_roles Examples.no_further 7 Examples.revoked_db
      = Ok infos Examples.revoked_db ∧
    {| RoleManager.uri_name := "viewer"; RoleManager.uri_priority := 10;
       RoleManager.uri_expires_at := None;
       RoleManager.uri_is_active := false |} ∈ infos.
Proof.
  destruct (user_roles_lists_every_assignment Examples.no_further
              Examples.revoked_db 7 eq_refl eq_refl) as (infos & Hrun & _ & Hin).
  exists infos. split; [exact Hrun|].
  apply Hin.
  exists (Examples.mk_assignment 7 2 None false),
         (Examples.mk_role 2 "viewer" 10 false).
  repeat split; repeat constructor.
Defined.

(** X10: when the store answers, [get_all_roles] lists exactly the active
    roles, system roles included, in descending order of priority. *)
Theorem all_roles_lists_active_roles further_fault db :
  db_shape db = Frame →
  further_fault Q_all_roles = false →
  ∃ infos,
    RoleManager.get_all_roles further_fault db = Ok infos db ∧
    StronglySorted (key_desc RoleManager.ri_priority) infos ∧
    ∀ info, info ∈ infos ↔
      ∃ r, r ∈ db_roles db ∧ r_is_active r = true ∧
           info = {| RoleManager.ri_id := r_role_id r;
                     RoleManager.ri_name := r_role_name r;
                     RoleManager.ri_priority := r_priority r;
                     RoleManager.ri_is_system := r_is_system r |}.
Proof.
  intros Hs Hf.
  assert (∀ info, info ∈ RoleManager.select_all_roles db ↔
    ∃ r, r ∈ db_roles db ∧ r_is_active r = true ∧
         info = {| RoleManager.ri_id := r_role_id r;
                   RoleManager.ri_name := r_role_name r;
                   RoleManager.ri_priority := r_priority r;
                   RoleManager.ri_is_system := r_is_system r |}) as Helem.
  { intros info. unfold RoleManager.select_all_roles.
    rewrite order_by_desc_elem, list_elem_of_fmap. split.
    - intros (r & -> & (? & ?)%list_elem_of_filter). eauto.
    - intros (r & ? & ? & ->). exists r. split; [done|].
      by apply list_elem_of_filter. }
  unfold RoleManager.get_all_roles, execute_further_query. run.
  rewrite Hf, Hs. simpl.
  destruct (RoleManager.select_all_roles db) as [|i l] eqn:Hsel; simpl.
  - exists []. split; [done|]. split; [constructor|]. exact Helem.
  - exists (i :: l). split; [done|]. split; [|exact Helem].
    rewrite <- Hsel. apply order_by_desc_sorted.
Qed.

Lemma all_roles_lists_active_roles_witness :
  ∃ infos,
    RoleManager.get_all_roles Examples.no_further Examples.studio_db
      = Ok infos Examples.studio_db ∧
    StronglySorted (key_desc RoleManager.ri_priority) infos.
Proof.
  destruct (all_roles_lists_active_roles Examples.no_further
              Examples.studio_db eq_refl eq_refl) as (infos & Hrun & Hsorted & _).
  exists infos. split; assumption.
Defined.

(** X11: with unique role names and a store that answers, a user passes
    [has_permission] for a key exactly when [get_role_permissions] lists
    the key for an active role the user holds by a live assignment. *)
Theorem has_permission_through_held_role further_fault db user_id p :
  db_shape db = Frame →
  db_fault db Q_user_permissions = false →
  further_fault Q_role_permissions = false →
  NoDup (r_role_name <$> db_roles db) →
  RoleManager.has_permission user_id p db = Ok true db ↔
  ∃ ur r perms,
    ur ∈ RoleManager.live_assignments user_id db ∧
    r ∈ db_roles db ∧ r_role_id r = ur_role_id ur ∧ r_is_active r = true ∧
    RoleManager.get_role_permissions further_fault (r_role_name r) db
      = Ok perms db ∧
    p ∈ perms.
Proof.
  intros Hs Hf Hff Hnames.
  assert (∀ name,
    RoleManager.get_role_permissions further_fault name db
      = Ok (RoleManager.select_role_permissions name db) db) as Hget.
  { intros name.
    unfold RoleManager.get_role_permissions, execute_further_query. run.
    rewrite Hff, Hs. simpl.
    by destruct (RoleManager.select_role_permissions name db). }
  split.
  - intros (_ & _ & Hin)%has_permission_true.
    apply select_user_permissions_elem in Hin
      as (ur & r & rp & pm & ? & ? & ? & ? & ? & ? & ? & ? & ?).
    exists ur, r, (RoleManager.select_role_permissions (r_role_name r) db).
    repeat split; try done.
    apply select_role_permissions_elem. exists r, rp, pm. eauto 10.
  - intros (ur & r & perms & Hur & Hr & Hid & Hact & Hperms & Hp).
    rewrite Hget in Hperms. injection Hperms as <-.
    apply select_role_permissions_elem in Hp
      as (r' & rp & pm & Hr' & Hname & ? & ? & ? & ? & ? & ?).
    assert (r' = r) as ->
      by (by apply (unique_key_inj r_role_name (db_roles db))).
    apply has_permission_intro; [done..|].
    apply select_user_permissions_elem. exists ur, r, rp, pm. eauto 10.
Qed.

Lemma has_permission_through_held_role_witness :
  RoleManager.has_permission 2 "users.view" Examples.studio_db
    = Ok true Examples.studio_db ↔
  ∃ ur r perms,
    ur ∈ RoleManager.live_assignments 2 Examples.studio_db ∧
    r ∈ db_roles Examples.studio_db ∧ r_role_id r = ur_role_id ur ∧
    r_is_active r = true ∧
    RoleManager.get_role_permissions Examples.no_further (r_role_name r)
      Examples.studio_db = Ok perms Examples.studio_db ∧
    "users.view" ∈ perms.
Proof.
  apply (has_permission_through_held_role Examples.no_further
           Examples.studio_db 2 "users.view" eq_refl eq_refl eq_refl).
  apply (bool_decide_unpack _). vm_compute. exact I.
Defined.

(** X12: [get_user_permissions] and [has_permission] agree on every store,
    failing or not: a key is in the returned set exactly when the check
    for it answers [True]. *)
Theorem permission_set_agrees_with_check db user_id :
  ∃ perms,
    RoleManager.get_user_permissions user_id db = Ok perms db ∧
    ∀ p, p ∈ perms ↔ RoleManager.has_permission user_id p db = Ok true db.
Proof.
  unfold RoleManager.get_user_permissions, RoleManager.has_permission. run.
  destruct (db_fault db Q_user_permissions).
  { exists ∅. split; [done|]. intros p. by rewrite elem_of_empty. }
  destruct (db_shape db); simpl.
  2:{ exists ∅. split; [done|]. intros p. by rewrite elem_of_empty. }
  destruct (RoleManager.select_user_permissions user_id db) as [|n names]; simpl.
  { exists ∅. split; [done|]. intros p. by rewrite elem_of_empty. }
  eexists. split; [done|]. intros p. split.
  - intros Hp. by rewrite bool_decide_eq_true_2.
  - intros [= Hp]. by apply bool_decide_eq_true in Hp.
Qed.

(** *** Creating a custom role *)

(** X13: [create_custom_role] creates nothing and leaves the store as it
    was when the creator lacks [roles.create], when the name has fewer
    than two characters, or when a role of that name, active or not, is
    already stored. *)
Theorem create_custom_role_guards further_fault roles_sequence db creator_id
    role_name display_name permissions priority :
  RoleManager.has_permission creator_id "roles.create" db = Ok false db ∨
  (String.length role_name < 2)%nat ∨
  role_name ∈ (r_role_name <$> db_roles db) →
  ∃ error,
    RoleManager.create_custom_role further_fault roles_sequence creator_id
      role_name display_name permissions priority db
    = Ok (RoleManager.NotCreated error) db.
Proof.
  intros Hguard.
  unfold RoleManager.create_custom_role, execute_further_query. run.
  destruct (has_permission_pure creator_id "roles.create" db) as [b Hb].
  rewrite Hb. destruct b; simpl; [|eauto].
  destruct Hguard as [Hno|[Hshort|Htaken]]; [congruence| |].
  { rewrite (bool_decide_eq_true_2 (String.length role_name < 2)%nat) by done.
    rewrite orb_true_r. eauto. }
  destruct (_ || _); [eauto|].
  destruct (further_fault Q_role_exists); [eauto|].
  destruct (has_permission_true _ _ _ _ Hb) as (Hs & _ & _).
  rewrite Hs. simpl.
  destruct (RoleManager.select_role_exists role_name db) eqn:Hsel; simpl;
    [|eauto].
  exfalso. apply list_elem_of_fmap in Htaken as (r & Hname & Hr).
  unfold RoleManager.select_role_exists in Hsel.
  apply fmap_nil_inv in Hsel.
  eapply (filter_nil_not_elem_of _ _ r); [exact Hsel| |done]. done.
Qed.

Lemma create_custom_role_guards_witness :
  ∃ error,
    RoleManager.create_custom_role Examples.no_further Examples.next_role 1
      "viewer" "Viewer" ["users.view"] 99 Examples.studio_db
    = Ok (RoleManager.NotCreated error) Examples.studio_db.
Proof.
  apply create_custom_role_guards.
  right. right. apply (bool_decide_unpack _). vm_compute. exact I.
Defined.

(** *** The inheritance closure *)

Section closure.
Context (db : Db).
Context (Hnd : NoDup (rh_role_id <$> db_role_hierarchy db)).

Lemma role_inheritance_step_row rh :
  RoleConfigurator.role_inheritance_step db [RoleConfigurator.inheritance_row rh] =
  if rh_inherit_permissions rh
  then match rh_parent_role_id rh with
       | Some p =>
           match Notions.role_of (db_role_hierarchy db) p with
           | Some prow => [RoleConfigurator.inheritance_row prow]
           | None => []
           end
       | None => []
       end
  else [].
Proof.
  destruct (rh_inherit_permissions rh) eqn:Hi; [|by apply step_of_last; right].
  destruct (rh_parent_role_id rh) as [p|] eqn:Hp; [|by apply step_of_last; left].
  destruct (Notions.role_of (db_role_hierarchy db) p) as [prow|] eqn:Hprow.
  - apply role_of_elem in Hprow as [Hin <-]. by apply step_of_row.
  - unfold RoleConfigurator.role_inheritance_step.
    rewrite bind_singleton. simpl. rewrite Hp, Hi.
    rewrite (list_filter_iff _ (λ rh, rh_role_id rh = p)).
    2:{ intros x. split; [by intros [[= ->] _]|by intros ->]. }
    rewrite role_of_filter by done. by rewrite Hprow.
Qed.

Lemma inheriting_ancestor_succ rh k :
  Notions.role_of (db_role_hierarchy db) (rh_role_id rh) = Some rh →
  Notions.inheriting_ancestor (db_role_hierarchy db) (S k) (rh_role_id rh) =
  if rh_inherit_permissions rh
  then p ← rh_parent_role_id rh;
       Notions.inheriting_ancestor (db_role_hierarchy db) k p
  else None.
Proof. intros Hrh. simpl. by rewrite Hrh. Qed.

(** The rows of the inheritance statement that starts at a stored role
    which reaches its root: the stored roles on its inheriting chain. *)
Lemma role_inheritance_from fuel n rh d :
  Notions.role_of (db_role_hierarchy db) (rh_role_id rh) = Some rh →
  Notions.depth_within (db_role_hierarchy db) n rh = Some d →
  d < Z.of_nat fuel →
  ∃ out,
    recursive_cte (RoleConfigurator.role_inheritance_step db) fuel
      [RoleConfigurator.inheritance_row rh] = Some out ∧
    ∀ r, r ∈ (λ row : Z * option Z * bool, row.1.1) <$> out ↔
         ∃ k, Notions.inheriting_ancestor (db_role_hierarchy db) k
                (rh_role_id rh) = Some r ∧
              is_Some (Notions.role_of (db_role_hierarchy db) r).
Proof.
  revert n rh d. induction fuel as [|fuel IH]; intros n rh d Hrh Hd Hfuel.
  { apply depth_within_bound in Hd. lia. }
  rewrite recursive_cte_cons, role_inheritance_step_row.
  assert (∀ out' : list (Z * option Z * bool),
            (∀ r, r ∈ (λ row : Z * option Z * bool, row.1.1) <$> out' ↔
                  ∃ k, Notions.inheriting_ancestor (db_role_hierarchy db) (S k)
                         (rh_role_id rh) = Some r ∧
                       is_Some (Notions.role_of (db_role_hierarchy db) r)) →
            ∀ r, r ∈ (λ row : Z * option Z * bool, row.1.1) <$>
                       ([RoleConfigurator.inheritance_row rh] ++ out')%list ↔
                 ∃ k, Notions.inheriting_ancestor (db_role_hierarchy db) k
                        (rh_role_id rh) = Some r ∧
                      is_Some (Notions.role_of (db_role_hierarchy db) r))
    as Hglue.
  { intros out' Hout r. rewrite fmap_app, elem_of_app, Hout. simpl.
    rewrite list_elem_of_singleton. split.
    - intros [->|(k & ? & ?)]; [|by exists (S k)]. exists 0%nat. split; [done|].
      rewrite Hrh. by eexists.
    - intros ([|k] & Hk & ?); [left|right; by exists k].
      simpl in Hk. by injection Hk as <-. }
  assert (∀ r, r ∈ (λ row : Z * option Z * bool, row.1.1) <$> [] ↔ False)
    as Hnil.
  { intros r. rewrite fmap_nil. apply elem_of_nil. }
  destruct (rh_inherit_permissions rh) eqn:Hi.
  2:{ rewrite recursive_cte_nil. eexists. split; [done|].
      apply Hglue. intros r. rewrite Hnil. split; [done|].
      intros (k & Hk & _). rewrite inheriting_ancestor_succ, Hi in Hk; done. }
  destruct (rh_parent_role_id rh) as [p|] eqn:Hp.
  2:{ rewrite recursive_cte_nil. eexists. split; [done|].
      apply Hglue. intros r. rewrite Hnil. split; [done|].
      intros (k & Hk & _).
      rewrite inheriting_ancestor_succ, Hi, Hp in Hk; done. }
  destruct (depth_within_child _ _ _ _ _ Hp Hd)
    as (prow & n' & d' & Hprow & Hd' & ->).
  rewrite Hprow.
  destruct (role_of_elem _ _ _ Hprow) as [_ Hid]. subst p.
  destruct (IH n' prow d') as (out' & -> & Hout'); [done|done|lia|].
  eexists. split; [done|]. apply Hglue. intros r. rewrite Hout'.
  split; intros (k & Hk & ?); exists k; (split; [|done]).
  - by rewrite inheriting_ancestor_succ, Hi, Hp.
  - by rewrite inheriting_ancestor_succ, Hi, Hp in Hk.
Qed.

(** On an inheriting chain that never ends the statement never runs out
    of rows. *)
Lemma role_inheritance_endless fuel rh :
  Notions.role_of (db_role_hierarchy db) (rh_role_id rh) = Some rh →
  (∀ k, is_Some (Notions.inheriting_ancestor (db_role_hierarchy db) k
                   (rh_role_id rh)
                 ≫= Notions.role_of (db_role_hierarchy db))) →
  recursive_cte (RoleConfigurator.role_inheritance_step db) fuel
    [RoleConfigurator.inheritance_row rh] = None.
Proof.
  revert rh. induction fuel as [|fuel IH]; intros rh Hrh Hall; [done|].
  rewrite recursive_cte_cons, role_inheritance_step_row.
  pose proof (Hall 1%nat) as Hone.
  rewrite inheriting_ancestor_succ in Hone by done.
  destruct (rh_inherit_permissions rh) eqn:Hi; [|by destruct Hone].
  destruct (rh_parent_role_id rh) as [p|] eqn:Hp; [|by destruct Hone].
  simpl in Hone.
  destruct (Notions.role_of (db_role_hierarchy db) p) as [prow|] eqn:Hprow;
    [|by destruct Hone].
  destruct (role_of_elem _ _ _ Hprow) as [_ Hid]. subst p.
  rewrite IH; [done|done|].
  intros k. specialize (Hall (S k)).
  by rewrite inheriting_ancestor_succ, Hi, Hp in Hall.
Qed.

End closure.

Lemma inheriting_ancestor_add tbl a b r :
  Notions.inheriting_ancestor tbl (a + b) r =
  Notions.inheriting_ancestor tbl a r ≫= Notions.inheriting_ancestor tbl b.
Proof.
  revert r. induction a as [|a IH]; intros r; [done|]. simpl.
  destruct (Notions.role_of tbl r) as [rh|]; [|done]. simpl.
  destruct (rh_inherit_permissions rh); [|done].
  destruct (rh_parent_role_id rh) as [p|]; [|done]. simpl. apply IH.
Qed.

(** A role that comes back to itself along inheriting parent pointers has
    an inheriting chain that never ends. *)
Lemma inheriting_cycle_endless tbl r n :
  Notions.inheriting_ancestor tbl (S n) r = Some r →
  ∀ k, is_Some (Notions.inheriting_ancestor tbl k r ≫= Notions.role_of tbl).
Proof.
  intros Hcycle.
  assert (∀ m, Notions.inheriting_ancestor tbl (m * S n) r = Some r) as Hturns.
  { induction m as [|m IH]; [done|].
    replace (S m * S n)%nat with (S n + m * S n)%nat by lia.
    by rewrite inheriting_ancestor_add, Hcycle. }
  intros k. specialize (Hturns (S k)).
  replace (S k * S n)%nat with (k + (1 + (k * n + n)))%nat in Hturns by lia.
  rewrite inheriting_ancestor_add in Hturns.
  destruct (Notions.inheriting_ancestor tbl k r) as [b|]; [|done].
  simpl in *. destruct (Notions.role_of tbl b); [by eexists|done].
Qed.

(** On a forest the inheritance statement ends, and it lists the stored
    roles on the inheriting chain of the role. *)
Lemma role_inheritance_forest db role_id :
  Notions.forest (db_role_hierarchy db) →
  ∃ ri,
    RoleConfigurator.role_inheritance role_id db = Some ri ∧
    ∀ r, r ∈ (λ row : Z * option Z * bool, row.1.1) <$> ri ↔
         ∃ k, Notions.inheriting_ancestor (db_role_hierarchy db) k role_id
                = Some r ∧
              is_Some (Notions.role_of (db_role_hierarchy db) r).
Proof.
  intros [Hnd Hall].
  unfold RoleConfigurator.role_inheritance,
         RoleConfigurator.role_inheritance_base.
  rewrite role_of_filter by done.
  destruct (Notions.role_of (db_role_hierarchy db) role_id) as [rh|] eqn:Hrh.
  - destruct (role_of_elem _ _ _ Hrh) as [Hin Hid]. subst role_id.
    rewrite Forall_forall in Hall. destruct (Hall rh Hin) as [d Hd].
    apply (role_inheritance_from db Hnd (RoleConfigurator.rounds db)
             _ rh d Hrh Hd).
    apply depth_within_bound in Hd. unfold RoleConfigurator.rounds. lia.
  - exists []. split; [done|].
    intros r. rewrite fmap_nil, elem_of_nil. split; [done|].
    intros ([|k] & Hk & Hr); simpl in Hk.
    + injection Hk as <-. rewrite Hrh in Hr. by destruct Hr.
    + by rewrite Hrh in Hk.
Qed.

(** X14: on a hierarchy that is a forest, when the store answers,
    [get_role_permissions] returns the closure [C(R)] of the role: the keys
    granted to the role itself and to every stored role reached from it
    through parent pointers of roles that inherit; the walk stops at the
    first role that does not inherit or has no parent. *)
Theorem inherited_permissions_closure db role_id :
  Notions.forest (db_role_hierarchy db) →
  db_fault db Q_role_inheritance = false →
  ∃ perms,
    RoleConfigurator.get_role_permissions role_id db = Ok perms db ∧
    ∀ key, key ∈ perms ↔
      ∃ k a, Notions.inheriting_ancestor (db_role_hierarchy db) k role_id
               = Some a ∧
             is_Some (Notions.role_of (db_role_hierarchy db) a) ∧
             Notions.grants db a key.
Proof.
  intros Hforest Hfault.
  destruct (role_inheritance_forest db role_id Hforest) as (ri & Hri & Hids).
  exists (list_to_set (RoleConfigurator.granted_keys db ri)).
  split; [by apply get_role_permissions_run|].
  intros key. rewrite elem_of_list_to_set, granted_keys_spec. split.
  - intros (row & Hrow & Hgrant).
    assert (row.1.1 ∈ (λ row : Z * option Z * bool, row.1.1) <$> ri) as Hin
      by (apply list_elem_of_fmap; by exists row).
    apply Hids in Hin as (k & Hk & Hr). eauto.
  - intros (k & a & Hk & Ha & Hgrant).
    assert (a ∈ (λ row : Z * option Z * bool, row.1.1) <$> ri) as Hin
      by (apply Hids; eauto).
    apply list_elem_of_fmap in Hin as (row & -> & Hrow). eauto.
Qed.

Lemma inherited_permissions_closure_witness :
  ∃ perms,
    RoleConfigurator.get_role_permissions 4
      (Examples.small_db [Examples.mk_grant 1 100 None]) =
      Ok perms (Examples.small_db [Examples.mk_grant 1 100 None]) ∧
    "users.view" ∈ perms.
Proof.
  destruct (inherited_permissions_closure
              (Examples.small_db [Examples.mk_grant 1 100 None]) 4)
    as (perms & Hrun & Hperms).
  - split.
    + apply (bool_decide_unpack _). vm_compute. exact I.
    + repeat (apply Forall_cons; split; [by eexists|]). apply Forall_nil_2.
  - reflexivity.
  - exists perms. split; [exact Hrun|].
    apply Hperms. exists 2%nat, 1. split; [reflexivity|].
    split; [by eexists|].
    exists (Examples.mk_grant 1 100 None),
           {| pr_permission_id := 100; pr_permission_key := "users.view" |}.
    repeat split; repeat constructor.
Defined.

(** X15: a role that comes back to itself along the parent pointers of
    inheriting roles has no permissions at all for [get_role_permissions]:
    the recursive statement never ends, and the method answers the empty
    set, whatever is granted to the role. *)
Theorem inheritance_cycle_gives_nothing db role_id n :
  NoDup (rh_role_id <$> db_role_hierarchy db) →
  Notions.inheriting_ancestor (db_role_hierarchy db) (S n) role_id
    = Some role_id →
  RoleConfigurator.get_role_permissions role_id db = Ok ∅ db.
Proof.
  intros Hnd Hcycle.
  assert (RoleConfigurator.role_inheritance role_id db = None) as Hri.
  { unfold RoleConfigurator.role_inheritance,
           RoleConfigurator.role_inheritance_base.
    rewrite role_of_filter by done.
    pose proof (inheriting_cycle_endless _ _ _ Hcycle) as Hall.
    destruct (Notions.role_of (db_role_hierarchy db) role_id) as [rh|] eqn:Hrh.
    - destruct (role_of_elem _ _ _ Hrh) as [_ Hid]. subst role_id.
      by apply role_inheritance_endless.
    - specialize (Hall 0%nat). simpl in Hall. rewrite Hrh in Hall.
      by destruct Hall. }
  unfold RoleConfigurator.get_role_permissions,
         RoleConfigurator.select_role_permissions. run.
  rewrite Hri. by destruct (db_fault db Q_role_inheritance).
Qed.

Lemma inheritance_cycle_gives_nothing_witness :
  Notions.grants Examples.loop_db 1 "users.view" ∧
  RoleConfigurator.get_role_permissions 1 Examples.loop_db
    = Ok ∅ Examples.loop_db.
Proof.
  split.
  - exists (Examples.mk_grant 1 100 None),
           {| pr_permission_id := 100; pr_permission_key := "users.view" |}.
    repeat split; repeat constructor.
  - apply (inheritance_cycle_gives_nothing Examples.loop_db 1 1).
    + apply (bool_decide_unpack _). vm_compute. exact I.
    + reflexivity.
Defined.

(** *** Creating a role in the hierarchy *)

(** X16: [create_role] returns [None] and stores no role when [role_data]
    lacks [role_name] or [display_name], when the name is taken, or when
    the parent is neither a stored role nor the id that the new row would
    draw; no audit row is written either. *)
Theorem create_role_rejections role_data db :
  RoleConfigurator.rd_role_name role_data = None ∨
  RoleConfigurator.rd_display_name role_data = None ∨
  (∃ name, RoleConfigurator.rd_role_name role_data = Some name ∧
           name ∈ (rh_role_name <$> db_role_hierarchy db)) ∨
  (∃ p, RoleConfigurator.rd_parent_role_id role_data = Some p ∧
        (p ∉ RoleConfigurator.role_ids db) ∧ p ≠ db_next_role_id db) →
  ∃ db',
    RoleConfigurator.create_role role_data db = Ok None db' ∧
    db_role_hierarchy db' = db_role_hierarchy db ∧
    db_role_audit_log db' = db_role_audit_log db.
Proof.
  intros Hbad.
  unfold RoleConfigurator.create_role, RoleConfigurator.subscript. run.
  destruct (RoleConfigurator.rd_role_name role_data) as [role_name|] eqn:Hname;
    [|eauto].
  destruct (RoleConfigurator.rd_display_name role_data) as [display_name|]
    eqn:Hdisplay; [|eauto].
  simpl. destruct (db_fault db Q_insert_role); [eauto|].
  assert (RoleConfigurator.insert_role role_name display_name
            (RoleConfigurator.rd_parent_role_id role_data)
            (default 0 (RoleConfigurator.rd_level role_data))
            (default 0 (RoleConfigurator.rd_priority role_data))
            (RoleConfigurator.rd_max_users role_data)
            (default false (RoleConfigurator.rd_auto_assign role_data))
            (default true (RoleConfigurator.rd_inherit_permissions role_data))
            (RoleConfigurator.rd_created_by role_data) db
          = (inl IntegrityError,
             set_next_role_id (db_next_role_id db + 1) db)) as ->; [|eauto].
  unfold RoleConfigurator.insert_role.
  destruct Hbad
    as [?|[?|[(name & [= <-] & Htaken)|(p & Hp & Hmissing & Hdrawn)]]];
    [done|done| |].
  - rewrite (bool_decide_eq_false_2 (role_name ∉ _)) by tauto.
    by rewrite andb_false_r.
  - rewrite Hp. unfold RoleConfigurator.references_role,
      RoleConfigurator.role_ids in *. simpl.
    rewrite (bool_decide_eq_false_2 (p ∈ _)).
    + by rewrite andb_false_r.
    + rewrite fmap_app, elem_of_app. simpl.
      intros [?|[?|[]%elem_of_nil]%elem_of_cons]; done.
Qed.

Lemma create_role_rejections_witness :
  ∃ db',
    RoleConfigurator.create_role
      {| RoleConfigurator.rd_role_name := Some "leaf";
         RoleConfigurator.rd_display_name := Some "Leaf";
         RoleConfigurator.rd_parent_role_id := None;
         RoleConfigurator.rd_level := None;
         RoleConfigurator.rd_priority := None;
         RoleConfigurator.rd_max_users := None;
         RoleConfigurator.rd_auto_assign := None;
         RoleConfigurator.rd_inherit_permissions := None;
         RoleConfigurator.rd_created_by := Some 1 |}
      (Examples.small_db []) = Ok None db' ∧
    db_role_hierarchy db' = db_role_hierarchy (Examples.small_db []) ∧
    db_role_audit_log db' = db_role_audit_log (Examples.small_db []).
Proof.
  apply create_role_rejections.
  right. right. left. exists "leaf". split; [reflexivity|].
  apply (bool_decide_unpack _). vm_compute. exact I.
Defined.

(** What an accepted [create_role] has checked and stored. *)
Lemma create_role_accepted role_data role_id db db' :
  RoleConfigurator.create_role role_data db = Ok (Some role_id) db' →
  ∃ row,
    db_role_hierarchy db' = (db_role_hierarchy db ++ [row])%list ∧
    rh_role_id row = role_id ∧
    (role_id ∉ RoleConfigurator.role_ids db) ∧
    (rh_role_name row ∉ (rh_role_name <$> db_role_hierarchy db)) ∧
    rh_parent_role_id row = RoleConfigurator.rd_parent_role_id role_data ∧
    role_id = db_next_role_id db ∧
    match rh_parent_role_id row with
    | Some p => p ∈ RoleConfigurator.role_ids db ∨ p = role_id
    | None => True
    end.
Proof.
  unfold RoleConfigurator.create_role, RoleConfigurator.subscript. run.
  destruct (RoleConfigurator.rd_role_name role_data) as [role_name|]; [|done].
  destruct (RoleConfigurator.rd_display_name role_data) as [display_name|];
    [|done].
  simpl. destruct (db_fault db Q_insert_role); [done|].
  unfold RoleConfigurator.insert_role.
  destruct (bool_decide (db_next_role_id db ∉ _)) eqn:Hfresh; [|done].
  destruct (bool_decide (role_name ∉ _)) eqn:Hname; [|done].
  destruct (RoleConfigurator.references_role _ _) eqn:Href; [|done].
  apply bool_decide_eq_true in Hfresh, Hname.
  destruct (db_shape db); simpl; [done|].
  match goal with
  | |- context [RoleConfigurator._log_role_action ?a ?b ?c ?d ?e ?f ?s] =>
      destruct (log_role_action_run a b c d e f s) as (db2 & Hlog & _ & _ & Hrows)
  end.
  simpl in Hlog. rewrite Hlog. intros [= <- <-].
  eexists. split; [exact Hrows|]. simpl. repeat (split; [done|]).
  unfold RoleConfigurator.references_role, RoleConfigurator.role_ids in *.
  destruct (RoleConfigurator.rd_parent_role_id role_data) as [p|]; [|done].
  apply bool_decide_eq_true in Href. simpl in Href.
  rewrite fmap_app, elem_of_app in Href. simpl in Href.
  destruct Href as [?|[?|[]%elem_of_nil]%elem_of_cons]; auto.
Qed.

Lemma role_of_fresh tbl row :
  (rh_role_id row ∉ (rh_role_id <$> tbl)) →
  Notions.role_of (tbl ++ [row]) (rh_role_id row) = Some row.
Proof.
  intros Hfresh. unfold Notions.role_of. rewrite filter_app.
  rewrite (filter_none _ tbl).
  - simpl. rewrite filter_cons. by rewrite decide_True.
  - intros rh Hrh Hid. apply Hfresh. rewrite <- Hid.
    by apply list_elem_of_fmap_2.
Qed.

Lemma role_of_snoc tbl row p prow :
  Notions.role_of tbl p = Some prow →
  Notions.role_of (tbl ++ [row]) p = Some prow.
Proof.
  unfold Notions.role_of. rewrite filter_app.
  by destruct (filter _ tbl).
Qed.

Lemma depth_within_snoc tbl row n rh d :
  Notions.depth_within tbl n rh = Some d →
  Notions.depth_within (tbl ++ [row]) n rh = Some d.
Proof.
  revert rh d. induction n as [|n IH]; intros rh d; simpl; [done|].
  destruct (rh_parent_role_id rh) as [p|]; [|done].
  destruct (Notions.role_of tbl p) as [prow|] eqn:Hprow; [|done]. simpl.
  rewrite (role_of_snoc _ _ _ _ Hprow). simpl.
  destruct (Notions.depth_within tbl n prow) as [d'|] eqn:Hd'; [|done].
  by rewrite (IH _ _ Hd').
Qed.

(** A forest stays a forest when a role with a fresh id is added under a
    stored role or as a root. *)
Lemma forest_snoc tbl row :
  Notions.forest tbl →
  (rh_role_id row ∉ (rh_role_id <$> tbl)) →
  match rh_parent_role_id row with
  | Some p => p ∈ (rh_role_id <$> tbl)
  | None => True
  end →
  Notions.forest (tbl ++ [row]).
Proof.
  intros [Hnd Hall] Hfresh Hparent. split.
  - rewrite fmap_app. apply NoDup_app. split; [done|]. split.
    + intros x Hx [->|[]%elem_of_nil]%elem_of_cons. done.
    + apply NoDup_singleton.
  - rewrite Forall_forall in Hall.
    rewrite length_app. simpl.
    replace (length tbl + 1)%nat with (S (length tbl)) by lia.
    apply Forall_app. split.
    + apply Forall_forall. intros rh Hrh.
      destruct (Hall rh Hrh) as [d Hd]. exists d.
      apply depth_within_snoc.
      by apply (depth_within_mono _ (length tbl)); [|lia].
    + apply Forall_singleton. simpl.
      destruct (rh_parent_role_id row) as [p|]; [|by eexists].
      apply list_elem_of_fmap in Hparent as (prow & -> & Hprow).
      rewrite (role_of_snoc _ _ _ prow) by by apply role_of_stored.
      simpl. destruct (Hall prow Hprow) as [d Hd].
      rewrite (depth_within_snoc _ _ _ _ _ Hd). by eexists.
Qed.

(** X17: an accepted [create_role] draws the next id of the sequence,
    which no stored role has, appends one row and leaves the other rows as
    they were.  A hierarchy that was a forest is still a forest unless the
    new role names the id it draws as its parent; that role is its own
    parent, a cycle of one parent pointer. *)
Theorem create_role_forest_unless_self_parent role_data role_id db db' :
  RoleConfigurator.create_role role_data db = Ok (Some role_id) db' →
  Notions.forest (db_role_hierarchy db) →
  role_id = db_next_role_id db ∧
  (role_id ∉ RoleConfigurator.role_ids db) ∧
  (∃ row, db_role_hierarchy db' = (db_role_hierarchy db ++ [row])%list ∧
          rh_role_id row = role_id) ∧
  (RoleConfigurator.rd_parent_role_id role_data ≠ Some role_id →
   Notions.forest (db_role_hierarchy db')) ∧
  (RoleConfigurator.rd_parent_role_id role_data = Some role_id →
   Notions.on_cycle (db_role_hierarchy db') role_id).
Proof.
  intros Hrun Hforest.
  apply create_role_accepted in Hrun
    as (row & Hrows & Hid & Hfresh & _ & Hparent & Hdrawn & Href).
  split; [done|]. split; [done|]. split; [eauto|].
  rewrite Hrows, <- Hparent. split.
  - intros Hother. apply forest_snoc; [done|by rewrite Hid|].
    destruct (rh_parent_role_id row) as [p|]; [|done].
    destruct Href as [?|Hp]; [done|]. by rewrite Hp in Hother.
  - intros Hself. exists 0%nat. simpl. unfold Notions.parent_of.
    rewrite <- Hid, role_of_fresh by by rewrite Hid.
    simpl. rewrite Hself. simpl. by rewrite Hid.
Qed.

Lemma create_role_forest_unless_self_parent_witness :
  (∃ db',
     RoleConfigurator.create_role Examples.child_data (Examples.small_db [])
       = Ok (Some 5) db' ∧
     Notions.forest (db_role_hierarchy db')) ∧
  (∃ db',
     RoleConfigurator.create_role Examples.self_parent_data
       (Examples.small_db []) = Ok (Some 5) db' ∧
     Notions.on_cycle (db_role_hierarchy db') 5).
Proof.
  assert (Notions.forest (db_role_hierarchy (Examples.small_db []))) as Hforest.
  { split.
    - apply (bool_decide_unpack _). vm_compute. exact I.
    - repeat (apply Forall_cons; split; [by eexists|]). apply Forall_nil_2. }
  split.
  - eexists. split; [vm_compute; reflexivity|].
    refine (proj1 (proj2 (proj2 (proj2
              (create_role_forest_unless_self_parent Examples.child_data 5
                 (Examples.small_db []) _ eq_refl Hforest)))) _).
    discriminate.
  - eexists. split; [vm_compute; reflexivity|].
    exact (proj2 (proj2 (proj2 (proj2
             (create_role_forest_unless_self_parent Examples.self_parent_data 5
                (Examples.small_db []) _ eq_refl Hforest)))) eq_refl).
Defined.

(** *** Moving a role *)

(** X18: [update_role_hierarchy] refuses, without writing, a new parent
    from which the role is reached within ten rows of the walk up: the
    role itself, one of its children, and so on down to its ninth
    descendant. *)
Theorem reparent_rejects_near_cycle db role_id new_parent_id updated_by k :
  NoDup (rh_role_id <$> db_role_hierarchy db) →
  new_parent_id ≠ 0 →
  (k < 10)%nat →
  Notions.ancestor (db_role_hierarchy db) k new_parent_id = Some role_id →
  is_Some (Notions.role_of (db_role_hierarchy db) role_id) →
  RoleConfigurator.update_role_hierarchy role_id (Some new_parent_id)
    updated_by db = Ok false db.
Proof.
  intros Hnd Hnz Hk Hup Hstored.
  assert (RoleConfigurator._would_create_cycle role_id new_parent_id db
          = Ok true db) as Hcycle.
  { destruct (db_fault db Q_parent_chain) eqn:Hfault.
    - unfold RoleConfigurator._would_create_cycle. run. by rewrite Hfault.
    - destruct (would_create_cycle_within_ten db Hnd role_id new_parent_id
                  Hfault) as (b & Hrun & Hb).
      rewrite Hrun. f_equal. apply Hb. eauto. }
  unfold RoleConfigurator.update_role_hierarchy. run.
  rewrite bool_decide_eq_true_2 by done. by rewrite Hcycle.
Qed.

Lemma reparent_rejects_near_cycle_witness :
  RoleConfigurator.update_role_hierarchy 1 (Some 4) (Some 1)
    (Examples.small_db []) = Ok false (Examples.small_db []).
Proof.
  apply (reparent_rejects_near_cycle (Examples.small_db []) 1 4 (Some 1) 2).
  - apply (bool_decide_unpack _). vm_compute. exact I.
  - done.
  - lia.
  - reflexivity.
  - by eexists.
Defined.

(** *** Granting permissions *)

Lemma grant_loop_unknown_role role_id granted_by (pm : gmap string Z) keys db :
  (role_id ∉ RoleConfigurator.role_ids db) →
  (∃ e, RoleConfigurator.for_each keys
          (λ perm_key,
             match pm !! perm_key with
             | Some permission_id =>
                 execute_update Q_upsert_mapping
                   (RoleConfigurator.upsert_mapping role_id permission_id
                      granted_by)
             | None => mret ()
             end) db = Raise e db) ∨
  (Forall (λ key, pm !! key = None) keys ∧
   RoleConfigurator.for_each keys
     (λ perm_key,
        match pm !! perm_key with
        | Some permission_id =>
            execute_update Q_upsert_mapping
              (RoleConfigurator.upsert_mapping role_id permission_id
                 granted_by)
        | None => mret ()
        end) db = Ok () db).
Proof.
  intros Hrole.
  set (body := λ perm_key : string,
         match pm !! perm_key with
         | Some permission_id =>
             execute_update Q_upsert_mapping
               (RoleConfigurator.upsert_mapping role_id permission_id
                  granted_by)
         | None => mret ()
         end).
  induction keys as [|key keys IH]; [by right|].
  change (RoleConfigurator.for_each (key :: keys) body db) with
    (match body key db with
     | Ok _ db' => RoleConfigurator.for_each keys body db'
     | Raise e db' => Raise e db'
     end).
  unfold body at 1 3. destruct (pm !! key) as [pid|] eqn:Hkey.
  - left. unfold execute_update.
    destruct (db_fault db Q_upsert_mapping); [eauto|].
    unfold RoleConfigurator.upsert_mapping.
    rewrite (bool_decide_eq_false_2 (role_id ∈ _)) by done. simpl. eauto.
  - unfold mret, M_ret. cbv beta iota.
    destruct IH as [[e He]|[Hall Hrun]]; [left; eauto|].
    right. split; [by apply Forall_cons|done].
Qed.

Lemma permission_mapping_of_dom (rows : list (Z * string)) key :
  key ∈ (snd <$> rows) →
  is_Some (RoleConfigurator.permission_mapping_of rows !! key).
Proof.
  unfold RoleConfigurator.permission_mapping_of.
  assert (∀ m : gmap string Z,
            is_Some (m !! key) ∨ key ∈ (snd <$> rows) →
            is_Some (foldl (λ m row, <[row.2 := row.1]> m) m rows !! key))
    as Hgen; [|by eauto].
  induction rows as [|[i k] rows IH]; intros m [Hm|Hin]; simpl.
  - done.
  - by apply elem_of_nil in Hin.
  - apply IH. left. destruct (decide (k = key)) as [->|Hne].
    + rewrite lookup_insert_eq. by eexists.
    + by rewrite lookup_insert_ne.
  - rewrite fmap_cons in Hin. apply elem_of_cons in Hin as [->|Hin].
    + apply IH. left. simpl. rewrite lookup_insert_eq. by eexists.
    + apply IH. by right.
Qed.

(** X19: [assign_permissions_to_role] returns [False] without writing
    when the list of keys is empty, when none of the keys is registered,
    or when the role is not stored. *)
Theorem assign_permissions_rejections role_id keys granted_by db :
  keys = [] ∨
  (∀ key, key ∈ keys →
          key ∉ (pr_permission_key <$> db_permission_registry db)) ∨
  (role_id ∉ RoleConfigurator.role_ids db) →
  RoleConfigurator.assign_permissions_to_role role_id keys granted_by db
    = Ok false db.
Proof.
  intros Hbad.
  unfold RoleConfigurator.assign_permissions_to_role. run.
  destruct (db_fault db Q_lookup_permissions); [done|].
  destruct (RoleConfigurator.select_permissions_in keys db)
    as [e|[rows db0]] eqn:Hsel; [done|].
  assert (db0 = db ∧ keys ≠ [] ∧
          rows = (λ pr, (pr_permission_id pr, pr_permission_key pr)) <$>
                   filter (λ pr, pr_permission_key pr ∈ keys)
                          (db_permission_registry db)) as (-> & Hkeys & Hrows).
  { unfold RoleConfigurator.select_permissions_in in Hsel.
    destruct keys; [done|]. by injection Hsel as <- <-. }
  destruct (db_shape db); simpl; [done|].
  destruct rows as [|[pid key] rows']; simpl; [done|].
  assert (key ∈ keys ∧
          key ∈ (pr_permission_key <$> db_permission_registry db))
    as [Hkey Hreg].
  { assert ((pid, key) ∈ (λ pr, (pr_permission_id pr, pr_permission_key pr))
                           <$> filter (λ pr, pr_permission_key pr ∈ keys)
                                      (db_permission_registry db)) as Hin
      by (rewrite <- Hrows; by left).
    apply list_elem_of_fmap in Hin as (pr & [= -> ->] & Hpr).
    apply list_elem_of_filter in Hpr as [? ?].
    split; [done|]. by apply list_elem_of_fmap_2. }
  destruct Hbad as [?|[Hnone|Hrole]]; [done|by destruct (Hnone key)|].
  destruct (grant_loop_unknown_role role_id granted_by
              (RoleConfigurator.permission_mapping_of ((pid, key) :: rows'))
              keys db Hrole) as [[e He]|[Hall _]].
  - match goal with
    | |- context [RoleConfigurator.for_each keys ?body db] =>
        match type of He with
        | ?loop = _ => change (RoleConfigurator.for_each keys body db) with loop
        end
    end.
    by rewrite He.
  - exfalso. rewrite Forall_forall in Hall. specialize (Hall key Hkey).
    destruct (permission_mapping_of_dom ((pid, key) :: rows') key)
      as [? Hsome]; [by left|]. congruence.
Qed.

Lemma assign_permissions_rejections_witness :
  RoleConfigurator.assign_permissions_to_role 9 ["users.view"] (Some 1)
    (Examples.small_db []) = Ok false (Examples.small_db []).
Proof.
  apply assign_permissions_rejections.
  right. right. apply (bool_decide_unpack _). vm_compute. exact I.
Defined.

(** *** Stores that answer with frames *)

(** X20: against a store that answers every query with a DataFrame, the
    three writers of [RoleConfigurator] fail: [assign_permissions_to_role]
    and [update_role_hierarchy] return [False] and write nothing, and
    [create_role] returns [None]; each takes the truth value of a query
    result, which a DataFrame does not have. *)
Theorem writers_fail_on_frames db :
  db_shape db = Frame →
  (∀ role_id keys granted_by,
     RoleConfigurator.assign_permissions_to_role role_id keys granted_by db
       = Ok false db) ∧
  (∀ role_id new_parent_id updated_by,
     RoleConfigurator.update_role_hierarchy role_id new_parent_id updated_by db
       = Ok false db) ∧
  (∀ role_data,
     ∃ db', RoleConfigurator.create_role role_data db = Ok None db').
Proof.
  intros Hshape. split; [|split].
  - intros. by apply assign_permissions_on_frames.
  - intros. by apply update_role_hierarchy_on_frames.
  - intros role_data.
    unfold RoleConfigurator.create_role, RoleConfigurator.subscript. run.
    destruct (RoleConfigurator.rd_role_name role_data); [|eauto].
    destruct (RoleConfigurator.rd_display_name role_data); [|eauto].
    simpl. destruct (db_fault db Q_insert_role); [eauto|].
    destruct (RoleConfigurator.insert_role _ _ _ _ _ _ _ _ _ db)
      as [[e|rows] db1]; [eauto|].
    rewrite Hshape. simpl. eauto.
Qed.

Lemma writers_fail_on_frames_witness :
  RoleConfigurator.update_role_hierarchy 3 (Some 2) (Some 1)
    (Examples.chain_db true) = Ok false (Examples.chain_db true).
Proof.
  apply (proj1 (proj2 (writers_fail_on_frames (Examples.chain_db true)
                         eq_refl))).
Defined.

(** *** Granting, then resolving *)

Lemma log_role_action_state action_type role_id changed_by old_value new_value
    change_reason db :
  ∃ db', RoleConfigurator._log_role_action action_type role_id changed_by
           old_value new_value change_reason db = Ok () db' ∧
         db_role_permissions_mapping db' = db_role_permissions_mapping db ∧
         db_permission_registry db' = db_permission_registry db ∧
         db_role_hierarchy db' = db_role_hierarchy db ∧
         db_now db' = db_now db ∧ db_fault db' = db_fault db ∧
         db_shape db' = db_shape db.
Proof.
  unfold RoleConfigurator._log_role_action, RoleConfigurator.insert_role_audit.
  run. destruct (db_fault db Q_insert_role_audit); eauto 10.
Qed.

Lemma grant_loop_state role_id granted_by (pm : gmap string Z) keys db db' :
  RoleConfigurator.for_each keys
    (λ perm_key,
       match pm !! perm_key with
       | Some permission_id =>
           execute_update Q_upsert_mapping
             (RoleConfigurator.upsert_mapping role_id permission_id granted_by)
       | None => mret ()
       end) db = Ok () db' →
  db_role_hierarchy db' = db_role_hierarchy db ∧
  db_now db' = db_now db ∧ db_fault db' = db_fault db ∧
  db_shape db' = db_shape db.
Proof.
  revert db. induction keys as [|key keys IH]; intros db; simpl.
  { run. by intros [= <-]. }
  run. destruct (pm !! key) as [pid|] eqn:Hpid; simpl.
  - destruct (db_fault db Q_upsert_mapping); [done|].
    unfold RoleConfigurator.upsert_mapping.
    destruct (_ && _); [|done].
    intros Hrun. by apply IH in Hrun as (-> & -> & -> & ->).
  - intros Hrun. by apply IH in Hrun.
Qed.

(** A successful [assign_permissions_to_role] writes to the mapping table
    and the audit log only. *)
Lemma assign_permissions_state role_id keys granted_by db db' :
  RoleConfigurator.assign_permissions_to_role role_id keys granted_by db
    = Ok true db' →
  db_role_hierarchy db' = db_role_hierarchy db ∧
  db_now db' = db_now db ∧ db_fault db' = db_fault db ∧
  db_shape db' = db_shape db.
Proof.
  unfold RoleConfigurator.assign_permissions_to_role. run.
  destruct (db_fault db Q_lookup_permissions); [done|].
  destruct (RoleConfigurator.select_permissions_in keys db)
    as [e|[rows db0]] eqn:Hsel; [done|].
  assert (db0 = db) as ->.
  { unfold RoleConfigurator.select_permissions_in in Hsel.
    destruct keys; [done|]. by injection Hsel as _ <-. }
  destruct (db_shape db) eqn:Hshape; simpl; [done|].
  destruct (negb (is_nil rows)); simpl; [|done].
  match goal with
  | |- context [RoleConfigurator.for_each ?ks ?body db] =>
      destruct (RoleConfigurator.for_each ks body db) as [[] db1|] eqn:Hloop;
        [|done]
  end.
  apply grant_loop_state in Hloop as (Hh & Hn & Hf & Hs).
  match goal with
  | |- context [RoleConfigurator._log_role_action ?a ?b ?c ?d ?e ?f db1] =>
      destruct (log_role_action_state a b c d e f db1)
        as (db2 & -> & _ & _ & Hh2 & Hn2 & Hf2 & Hs2)
  end.
  intros [= <-]. repeat split; congruence.
Qed.

(** X21: after a successful [assign_permissions_to_role], on a forest and
    with unique registered keys, [get_role_permissions] of the role
    contains every registered key that was granted, provided the pair
    (role, permission) had no expired row: a re-grant does not touch
    [expires_at]. *)
Theorem granted_permission_is_effective db role_id keys granted_by db1 pr :
  RoleConfigurator.assign_permissions_to_role role_id keys granted_by db
    = Ok true db1 →
  Notions.forest (db_role_hierarchy db) →
  db_fault db Q_role_inheritance = false →
  is_Some (Notions.role_of (db_role_hierarchy db) role_id) →
  NoDup (pr_permission_key <$> db_permission_registry db) →
  pr ∈ db_permission_registry db →
  pr_permission_key pr ∈ keys →
  Forall (λ rpm, unexpired (db_now db) (rpm_expires_at rpm) = true)
         (Notions.grant_rows role_id (pr_permission_id pr)
            (db_role_permissions_mapping db)) →
  ∃ perms,
    RoleConfigurator.get_role_permissions role_id db1 = Ok perms db1 ∧
    pr_permission_key pr ∈ perms.
Proof.
  intros Hrun Hforest Hfault Hrole Hnd Hpr Hkey Hlive.
  destruct (assign_permissions_state _ _ _ _ _ Hrun) as (Hh & Hn & Hf & _).
  apply assign_permissions_run in Hrun as [Hreg Hmap].
  rewrite <- Hh in Hforest, Hrole.
  destruct (role_inheritance_forest db1 role_id Hforest) as (ri & Hri & Hids).
  exists (list_to_set (RoleConfigurator.granted_keys db1 ri)).
  split; [apply get_role_permissions_run; [by rewrite Hf|done]|].
  rewrite elem_of_list_to_set, granted_keys_spec.
  assert (role_id ∈ (λ row : Z * option Z * bool, row.1.1) <$> ri) as Hin
    by (apply Hids; by exists 0%nat).
  apply list_elem_of_fmap in Hin as (row & -> & Hrow).
  exists row. split; [done|].
  assert (∃ rpm, rpm ∈ Notions.grant_rows row.1.1 (pr_permission_id pr)
                         (db_role_permissions_mapping db1) ∧
                 rpm_granted rpm = true ∧
                 unexpired (db_now db) (rpm_expires_at rpm) = true)
    as (rpm & Hrpm & Hgranted & Hunexpired).
  { rewrite Hmap, grant_rows_grant_all,
      decide_True by by apply requested_ids_registered.
    unfold Notions.regranted.
    destruct (Notions.grant_rows row.1.1 (pr_permission_id pr)
                (db_role_permissions_mapping db)) as [|rpm0 rest]; simpl.
    - eexists. split; [by left|]. done.
    - exists (RoleConfigurator.regrant granted_by rpm0).
      split; [by left|]. split; [done|]. simpl.
      by apply Forall_cons in Hlive as [? _]. }
  apply list_elem_of_filter in Hrpm as [[Hr Hp] Hrpm].
  exists rpm, pr. rewrite Hreg, Hn. done.
Qed.

Lemma granted_permission_is_effective_witness :
  ∃ db1 perms,
    RoleConfigurator.assign_permissions_to_role 4 ["users.view"] (Some 1)
      (Examples.small_db []) = Ok true db1 ∧
    RoleConfigurator.get_role_permissions 4 db1 = Ok perms db1 ∧
    "users.view" ∈ perms.
Proof.
  eexists.
  destruct (granted_permission_is_effective (Examples.small_db []) 4
              ["users.view"] (Some 1) _
              {| pr_permission_id := 100; pr_permission_key := "users.view" |}
              eq_refl) as (perms & Hrun & Hin).
  - split.
    + apply (bool_decide_unpack _). vm_compute. exact I.
    + repeat (apply Forall_cons; split; [by eexists|]). apply Forall_nil_2.
  - reflexivity.
  - by eexists.
  - apply (bool_decide_unpack _). vm_compute. exact I.
  - by left.
  - by left.
  - apply Forall_nil_2.
  - exists perms. split; [reflexivity|]. split; [exact Hrun|exact Hin].
Defined.

(** *** The role tree *)

Lemma path_le_total p q :
  RoleConfigurator.path_le p q = true ∨ RoleConfigurator.path_le q p = true.
Proof.
  revert q. induction p as [|x p IH]; intros [|y q]; simpl; auto.
  destruct (Z.lt_trichotomy x y) as [Hlt|[->|Hgt]].
  - left. by rewrite bool_decide_eq_true_2.
  - rewrite (bool_decide_eq_false_2 (y < y)) by lia.
    rewrite (bool_decide_eq_true_2 (y = y)) by done. simpl. apply IH.
  - right. by rewrite bool_decide_eq_true_2.
Qed.

Lemma path_order_total : Total RoleConfigurator.path_order.
Proof. intros a b. apply path_le_total. Qed.

Section tree.
Context (db : Db).
Context (Hnd : NoDup (rh_role_id <$> db_role_hierarchy db)).

Lemma role_tree_base_row row :
  row ∈ RoleConfigurator.role_tree_base db →
  Notions.tree_row (db_role_hierarchy db) 0 row.
Proof.
  unfold RoleConfigurator.role_tree_base.
  intros Hrow. apply list_elem_of_fmap in Hrow as (rh & -> & Hrh).
  apply list_elem_of_filter in Hrh as [Hroot Hrh].
  split; [done|]. split; [|done]. exists 0%nat. simpl. by rewrite Hroot.
Qed.

Lemma role_tree_step_elem work y :
  y ∈ RoleConfigurator.role_tree_step db work ↔
  ∃ x rh, x ∈ work ∧ rh ∈ db_role_hierarchy db ∧
          rh_parent_role_id rh = Some (rh_role_id x.1.1) ∧
          y = (rh, (x.1.2 ++ [rh_role_id rh])%list, x.2).
Proof.
  unfold RoleConfigurator.role_tree_step.
  rewrite list_elem_of_bind. split.
  - intros ([[rt path] root] & Hy & Hx).
    apply list_elem_of_fmap in Hy as (rh & -> & Hrh).
    apply list_elem_of_filter in Hrh as [? ?]. eauto 10.
  - intros ([[rt path] root] & rh & Hx & Hrh & Hp & ->).
    eexists. split; [|done]. simpl.
    apply list_elem_of_fmap. exists rh. split; [done|].
    by apply list_elem_of_filter.
Qed.

Lemma role_tree_step_row k work :
  (∀ x, x ∈ work → Notions.tree_row (db_role_hierarchy db) k x) →
  ∀ y, y ∈ RoleConfigurator.role_tree_step db work →
       Notions.tree_row (db_role_hierarchy db) (S k) y.
Proof.
  intros Hwork y Hy.
  apply role_tree_step_elem in Hy as (x & rh & Hx & Hrh & Hp & ->).
  destruct (Hwork x Hx) as (Hrt & (n & Hd) & Hlen & _).
  split; [done|]. simpl. split; [|split].
  - exists (S n). rewrite Nat2Z.inj_succ. simpl.
    rewrite Hp, (role_of_stored (db_role_hierarchy db) x.1.1) by done.
    simpl. rewrite Hd. simpl. f_equal; lia.
  - rewrite length_app, Hlen. simpl. lia.
  - apply last_snoc.
Qed.

Lemma role_tree_step_split work y :
  y ∈ RoleConfigurator.role_tree_step db work ↔
  ∃ x, x ∈ work ∧ y ∈ RoleConfigurator.role_tree_step db [x].
Proof.
  rewrite role_tree_step_elem. split.
  - intros (x & rh & Hx & Hrest). exists x. split; [done|].
    apply role_tree_step_elem. exists x, rh.
    split; [by left|done].
  - intros (x & Hx & Hy).
    apply role_tree_step_elem in Hy as (x' & rh & Hx' & Hrest).
    apply list_elem_of_singleton in Hx' as ->. eauto.
Qed.

Context (Hforest :
  Forall (λ rh, is_Some (Notions.depth_within (db_role_hierarchy db)
                           (length (db_role_hierarchy db)) rh))
         (db_role_hierarchy db)).

Lemma tree_row_depth k row :
  Notions.tree_row (db_role_hierarchy db) k row →
  Notions.depth_within (db_role_hierarchy db)
    (length (db_role_hierarchy db)) row.1.1 = Some (Z.of_nat k) ∧
  (k ≤ length (db_role_hierarchy db))%nat.
Proof.
  intros (Hrh & (n & Hd) & _).
  rewrite Forall_forall in Hforest.
  destruct (Hforest _ Hrh) as [d Hd'].
  rewrite <- (depth_within_fun _ _ _ _ _ _ Hd Hd') in Hd'.
  split; [done|]. apply depth_within_bound in Hd'. lia.
Qed.

(** On a forest the tree statement ends; it lists the stored roles, each
    with a path that ends in the role's id and has one id per level. *)
Lemma role_tree_forest :
  ∃ out,
    recursive_cte (RoleConfigurator.role_tree_step db)
      (RoleConfigurator.rounds db) (RoleConfigurator.role_tree_base db)
      = Some out ∧
    (∀ rh, rh ∈ db_role_hierarchy db → ∃ path root, (rh, path, root) ∈ out) ∧
    (∀ row, row ∈ out → ∃ k, Notions.tree_row (db_role_hierarchy db) k row).
Proof.
  destruct (recursive_cte_bounded (RoleConfigurator.role_tree_step db)
              (Notions.tree_row (db_role_hierarchy db))
              (length (db_role_hierarchy db))
              role_tree_step_row (λ k x H, proj2 (tree_row_depth k x H))
              (RoleConfigurator.rounds db) 0
              (RoleConfigurator.role_tree_base db)) as [out Hout].
  { apply role_tree_base_row. }
  { unfold RoleConfigurator.rounds. lia. }
  exists out. split; [done|]. split.
  - destruct (recursive_cte_closed _ role_tree_step_split _ _ _ Hout)
      as [Hbase Hclosed].
    assert (∀ n rh d, rh ∈ db_role_hierarchy db →
                      Notions.depth_within (db_role_hierarchy db) n rh = Some d →
                      ∃ path root, (rh, path, root) ∈ out) as Hcomplete.
    { assert (∀ rh, rh ∈ db_role_hierarchy db → rh_parent_role_id rh = None →
                    ∃ path root, (rh, path, root) ∈ out) as Hroot.
      { intros rh Hrh Hp. exists [rh_role_id rh], (rh_role_name rh).
        apply Hbase. unfold RoleConfigurator.role_tree_base.
        apply (list_elem_of_fmap_2' _ _ rh); [|done].
        by apply list_elem_of_filter. }
      induction n as [|n IH]; intros rh d Hrh Hd; simpl in Hd.
      - destruct (rh_parent_role_id rh) eqn:Hp; [done|]. by apply Hroot.
      - destruct (rh_parent_role_id rh) as [p|] eqn:Hp; [|by apply Hroot].
        destruct (Notions.role_of (db_role_hierarchy db) p) as [prow|] eqn:Hprow;
          [|done].
        simpl in Hd.
        destruct (Notions.depth_within (db_role_hierarchy db) n prow)
          as [d'|] eqn:Hd'; [|done].
        apply role_of_elem in Hprow as [Hin <-].
        destruct (IH prow d' Hin Hd') as (path & root & Hrow).
        exists (path ++ [rh_role_id rh])%list, root.
        apply (Hclosed (prow, path, root)); [done|].
        apply role_tree_step_elem. exists (prow, path, root), rh.
        split; [by left|done]. }
    intros rh Hrh. rewrite Forall_forall in Hforest.
    destruct (Hforest rh Hrh) as [d Hd]. by eapply Hcomplete.
  - intros row Hrow.
    by apply (recursive_cte_indexed _ (Notions.tree_row (db_role_hierarchy db))
                role_tree_step_row _ 0 _ _ role_tree_base_row Hout).
Qed.

End tree.

(** X22: on a forest, when the store answers, [get_role_hierarchy] lists
    the stored roles and nothing else, ordered by path; the path of a role
    ends in its own id and has one id for each level down from the root. *)
Theorem role_hierarchy_lists_forest further_fault db :
  Notions.forest (db_role_hierarchy db) →
  further_fault Q_role_tree = false →
  ∃ rows,
    RoleConfigurator.get_role_hierarchy further_fault db = Ok rows db ∧
    Sorted RoleConfigurator.path_order rows ∧
    (∀ rh, rh ∈ db_role_hierarchy db ↔ ∃ path root, (rh, path, root) ∈ rows) ∧
    (∀ rh path root, (rh, path, root) ∈ rows →
       last path = Some (rh_role_id rh) ∧
       ∃ d, Notions.depth_within (db_role_hierarchy db)
              (length (db_role_hierarchy db)) rh = Some d ∧
            Z.of_nat (length path) = d + 1).
Proof.
  intros [Hnd Hall] Hfault.
  destruct (role_tree_forest db Hnd Hall) as (out & Hout & Hcomplete & Hsound).
  exists (merge_sort RoleConfigurator.path_order out). split; [|split; [|split]].
  - unfold RoleConfigurator.get_role_hierarchy, execute_further_query,
      RoleConfigurator.select_role_tree. run.
    rewrite Hfault, Hout.
    destruct (db_shape db); simpl;
      by destruct (merge_sort RoleConfigurator.path_order out).
  - apply (@Sorted_merge_sort _ _ _ path_order_total).
  - intros rh. split.
    + intros Hrh. destruct (Hcomplete rh Hrh) as (path & root & Hrow).
      exists path, root. by rewrite merge_sort_Permutation.
    + intros (path & root & Hrow). rewrite merge_sort_Permutation in Hrow.
      by destruct (Hsound _ Hrow) as (k & ? & _).
  - intros rh path root Hrow. rewrite merge_sort_Permutation in Hrow.
    destruct (Hsound _ Hrow) as (k & Hk).
    destruct (tree_row_depth db Hall k _ Hk) as [Hd _].
    destruct Hk as (_ & _ & Hlen & Hlast). simpl in *.
    split; [done|]. exists (Z.of_nat k). split; [done|]. lia.
Qed.

Lemma role_hierarchy_lists_forest_witness :
  ∃ rows,
    RoleConfigurator.get_role_hierarchy Examples.no_further
      (Examples.small_db []) = Ok rows (Examples.small_db []) ∧
    ∃ path root, (Examples.mk_node 4 "leaf" (Some 2) 2 true, path, root) ∈ rows.
Proof.
  destruct (role_hierarchy_lists_forest Examples.no_further
              (Examples.small_db [])) as (rows & Hrun & _ & Hrows & _).
  - split.
    + apply (bool_decide_unpack _). vm_compute. exact I.
    + repeat (apply Forall_cons; split; [by eexists|]). apply Forall_nil_2.
  - reflexivity.
  - exists rows. split; [exact Hrun|]. apply Hrows. repeat constructor.
Defined.

(** *** An accepted reparent *)

(** X23: an accepted [update_role_hierarchy] keeps every role, changes
    the parent pointer of the given role to the new parent and of no other
    role, and the new parent of a stored role is a stored role or none,
    whether or not the level statement that follows raises. *)
Theorem accepted_reparent_moves_one_role role_id new_parent_id updated_by db db' :
  RoleConfigurator.update_role_hierarchy role_id new_parent_id updated_by db
    = Ok true db' →
  rh_role_id <$> db_role_hierarchy db' = rh_role_id <$> db_role_hierarchy db ∧
  rh_parent_role_id <$> db_role_hierarchy db' =
    (λ rh, if decide (rh_role_id rh = role_id) then new_parent_id
           else rh_parent_role_id rh) <$> db_role_hierarchy db ∧
  (role_id ∈ RoleConfigurator.role_ids db →
   RoleConfigurator.references_role db new_parent_id = true).
Proof.
  assert (∀ f : hierarchy_row → hierarchy_row,
    (∀ rh, rh_role_id (f rh) = rh_role_id rh) →
    (∀ rh, rh_parent_role_id (f rh) = rh_parent_role_id rh) →
    rh_role_id <$> (f <$> RoleConfigurator.reparent_rows role_id new_parent_id
                            (db_role_hierarchy db))
      = rh_role_id <$> db_role_hierarchy db ∧
    rh_parent_role_id <$> (f <$> RoleConfigurator.reparent_rows role_id
                                   new_parent_id (db_role_hierarchy db)) =
      (λ rh, if decide (rh_role_id rh = role_id) then new_parent_id
             else rh_parent_role_id rh) <$> db_role_hierarchy db) as Hrows.
  { intros f Hid Hparent. unfold RoleConfigurator.reparent_rows.
    rewrite <- !list_fmap_compose.
    split; apply list_fmap_ext; intros _ rh _; simpl.
    - rewrite Hid. by destruct (decide _).
    - rewrite Hparent. by destruct (decide _). }
  unfold RoleConfigurator.update_role_hierarchy. run.
  assert (∃ b,
    match new_parent_id with
    | Some p => if bool_decide (p ≠ 0)
                then RoleConfigurator._would_create_cycle role_id p
                else λ db, Ok false db
    | None => λ db, Ok false db
    end db = Ok b db) as [b ->].
  { destruct new_parent_id as [p|]; [|eauto].
    case_bool_decide; [|eauto]. apply would_create_cycle_pure. }
  destruct b; [done|].
  destruct (db_fault db Q_old_parent); [done|].
  destruct (db_shape db); simpl; [done|].
  destruct (RoleConfigurator.select_old_parent role_id db) as [|old rest]; simpl.
  all: destruct (db_fault db Q_update_parent); [done|].
  all: unfold RoleConfigurator.update_parent.
  all: destruct (bool_decide (role_id ∈ RoleConfigurator.role_ids db)) eqn:Hin;
         simpl.
  all: destruct (RoleConfigurator.references_role db new_parent_id) eqn:Href;
         simpl; try done.
  all: unfold RoleConfigurator._update_role_levels,
              RoleConfigurator.update_levels; run.
  all: set (tbl := RoleConfigurator.reparent_rows role_id new_parent_id
                     (db_role_hierarchy db)).
  all: destruct (db_fault db Q_update_levels).
  all: try destruct (RoleConfigurator.role_levels (set_role_hierarchy tbl db))
         as [rl|] eqn:Hrl.
  all: match goal with
       | |- context [RoleConfigurator._log_role_action ?a ?b ?c ?d ?e ?f ?db0] =>
           destruct (log_role_action_run a b c d e f db0)
             as (db2 & -> & _ & _ & Htbl)
       end.
  all: intros [= <-]; rewrite Htbl; simpl.
  all: repeat split.
  all: try (intros Hmem;
            first [done|apply (bool_decide_eq_true_2 _) in Hmem; congruence]).
  all: first
         [ apply (proj1 (Hrows (RoleConfigurator.relevel rl) (relevel_id rl)
                           (relevel_parent rl)))
         | apply (proj2 (Hrows (RoleConfigurator.relevel rl) (relevel_id rl)
                           (relevel_parent rl)))
         | rewrite <- (list_fmap_id tbl);
           apply (proj1 (Hrows id (λ _, eq_refl) (λ _, eq_refl)))
         | rewrite <- (list_fmap_id tbl);
           apply (proj2 (Hrows id (λ _, eq_refl) (λ _, eq_refl))) ].
Qed.

Lemma accepted_reparent_moves_one_role_witness :
  ∃ db',
    RoleConfigurator.update_role_hierarchy 3 (Some 4) (Some 1)
      (Examples.small_db []) = Ok true db' ∧
    rh_parent_role_id <$> db_role_hierarchy db' =
      [None; Some 1; Some 4; Some 2].
Proof.
  eexists. split; [vm_compute; reflexivity|].
  exact (proj1 (proj2 (accepted_reparent_moves_one_role 3 (Some 4) (Some 1)
                         (Examples.small_db []) _ eq_refl))).
Defined.
